(** * telegram-bot-skeleton: the polling core and its collaborators

    A shallow embedding of the TypeScript sources

    - [src/services/StateManager.ts]   (cursor store),
    - [src/services/PollingService.ts] (polling loop),
    - [src/core/TelegramClient.ts]     (remote source, file download),
    - [src/handlers/MessageHandler.ts], [src/handlers/CommandHandler.ts]

    together with the properties stated about them.

    Conventions.  A JavaScript [number] that holds an integer is a [Z]
    (IEEE rounding above 2^53 is outside the model).  Strings are byte
    strings; a file read as UTF-8 is the same bytes.  Asynchronous code is
    written in a state-and-exception monad over a record of the world
    ([Sys] for the core, [CState] for the collaborators); what the code
    does to the outside is appended to a trace.  In the core every [await]
    of real I/O passes through [suspend], the only place where an outside
    caller can run [stop()]; the disk, the remote and the callers of
    [stop()] are given by [Env] and by the script of answers in [Sys]. *)

From Stdlib Require Import ZArith List String Ascii Bool Lia.
Import ListNotations.

Set Warnings "-register-all".
Local Open Scope string_scope.
Local Open Scope Z_scope.

(* ================================================================== *)
(** ** JavaScript values, [JSON.parse] and [JSON.stringify]            *)
(* ================================================================== *)

Module JS.

(** A thrown value: the error's constructor name and its message. *)
Record Error := MkError { err_name : string; err_message : string }.

Definition TypeError (msg : string) : Error := MkError "TypeError" msg.
Definition SyntaxError (msg : string) : Error := MkError "SyntaxError" msg.
Definition PlainError (msg : string) : Error := MkError "Error" msg.

Inductive result (A : Type) : Type :=
| Ok (a : A)
| Throw (e : Error).
Arguments Ok {A} a.
Arguments Throw {A} e.

(** Numbers: whole numbers, and decimals [m * 10^e] that are not whole. *)
Inductive number :=
| NInt (z : Z)
| NDec (m e : Z).

(** The values [JSON.parse] can produce.  An array carries, besides its
    items, the named own properties assigned to it later. *)
Inductive JsValue :=
| JNull
| JBool (b : bool)
| JNum (n : number)
| JStr (s : string)
| JArr (items : list JsValue) (named : list (string * JsValue))
| JObj (props : list (string * JsValue)).

Definition dquote : ascii := "034"%char.
Definition bslash : ascii := "092"%char.
Definition nl : ascii := "010"%char.
Definition ch (c : ascii) : string := String c EmptyString.

(* ------------------------------------------------------------------ *)
(** *** Decimal numerals                                                *)

Definition is_digit (c : ascii) : bool :=
  let n := nat_of_ascii c in (48 <=? n)%nat && (n <=? 57)%nat.

Definition digit_val (c : ascii) : Z := Z.of_nat (nat_of_ascii c) - 48.

Definition digit_char (d : Z) : ascii := ascii_of_nat (Z.to_nat (48 + d)).

(** The longest prefix of digits, and what follows it. *)
Fixpoint span_digits (s : string) : string * string :=
  match s with
  | String c r =>
      if is_digit c
      then let (d, rest) := span_digits r in (String c d, rest)
      else (EmptyString, s)
  | EmptyString => (EmptyString, EmptyString)
  end.

Fixpoint digits_value (acc : Z) (s : string) : Z :=
  match s with
  | String c r => digits_value (10 * acc + digit_val c) r
  | EmptyString => acc
  end.

(** Digits of a positive number, most significant first, by fuel. *)
Fixpoint pos_digits (fuel : nat) (n : Z) (acc : string) : string :=
  match fuel with
  | O => acc
  | S f =>
      let acc' := String (digit_char (n mod 10)) acc in
      if n <? 10 then acc' else pos_digits f (n / 10) acc'
  end.

Definition nat_string (n : Z) : string :=
  pos_digits (S (Z.to_nat (Z.log2 n))) n EmptyString.

(** [Number.prototype.toString] on a whole number, every digit written
    (JavaScript goes over to exponent notation from 1e21 on). *)
Definition int_string (z : Z) : string :=
  if z <? 0 then String "-" (nat_string (- z)) else nat_string z.

(** A decimal that is not whole is written mantissa-[e]-exponent, a JSON
    number token that denotes the same value. *)
Definition number_string (n : number) : string :=
  match n with
  | NInt z => int_string z
  | NDec m e => int_string m ++ "e" ++ int_string e
  end.

(** [m * 10^e] with [fuel = -e] trailing zeros of [m] still to cancel. *)
Fixpoint reduce_decimal (fuel : nat) (m e : Z) : number :=
  match fuel with
  | O => NInt m
  | S f => if m mod 10 =? 0 then reduce_decimal f (m / 10) (e + 1) else NDec m e
  end.

(** [m * 10^e] as a [number]: whole when the division is exact. *)
Definition make_number (m e : Z) : number :=
  if 0 <=? e then NInt (m * 10 ^ e)
  else reduce_decimal (Z.to_nat (- e)) m e.

(* ------------------------------------------------------------------ *)
(** *** Objects: own properties in enumeration order                   *)

Fixpoint lookup (k : string) (ps : list (string * JsValue)) : option JsValue :=
  match ps with
  | [] => None
  | (k', v) :: r => if String.eqb k k' then Some v else lookup k r
  end.

Definition has_own (k : string) (ps : list (string * JsValue)) : bool :=
  match lookup k ps with Some _ => true | None => false end.

Fixpoint all_digits (s : string) : bool :=
  match s with
  | String c r => is_digit c && all_digits r
  | EmptyString => true
  end.

(** A canonical array index: ["0"], or digits without a leading zero,
    below 2^32 - 1.  JavaScript enumerates such keys first, ascending. *)
Definition array_index (k : string) : option Z :=
  match k with
  | EmptyString => None
  | String c r =>
      if all_digits k && (negb (Ascii.eqb c "0") || String.eqb r EmptyString)
      then let v := digits_value 0 k in
           if v <? 2 ^ 32 - 1 then Some v else None
      else None
  end.

Fixpoint replace_prop (k : string) (v : JsValue) (ps : list (string * JsValue))
  : list (string * JsValue) :=
  match ps with
  | [] => []
  | (k', v') :: r =>
      if String.eqb k k' then (k', v) :: r else (k', v') :: replace_prop k v r
  end.

(** Where a new key goes: an index key before the first key that is not a
    smaller index, any other key at the end. *)
Fixpoint insert_prop (k : string) (v : JsValue) (ps : list (string * JsValue))
  : list (string * JsValue) :=
  match ps with
  | [] => [(k, v)]
  | (k', v') :: r =>
      match array_index k with
      | None => (k', v') :: insert_prop k v r
      | Some i =>
          match array_index k' with
          | Some j => if j <? i then (k', v') :: insert_prop k v r
                      else (k, v) :: ps
          | None => (k, v) :: ps
          end
      end
  end.

(** [CreateDataProperty] / [obj[k] = v] on an ordinary object. *)
Definition define_prop (k : string) (v : JsValue) (ps : list (string * JsValue))
  : list (string * JsValue) :=
  if has_own k ps then replace_prop k v ps else insert_prop k v ps.

(* ------------------------------------------------------------------ *)
(** *** [JSON.parse]                                                    *)

Definition is_ws (c : ascii) : bool :=
  Ascii.eqb c " " || Ascii.eqb c "009" || Ascii.eqb c "010" || Ascii.eqb c "013".

Fixpoint skip_ws (s : string) : string :=
  match s with
  | String c r => if is_ws c then skip_ws r else s
  | EmptyString => EmptyString
  end.

Definition hex_val (c : ascii) : option Z :=
  let n := nat_of_ascii c in
  if (48 <=? n)%nat && (n <=? 57)%nat then Some (Z.of_nat n - 48)
  else if (65 <=? n)%nat && (n <=? 70)%nat then Some (Z.of_nat n - 55)
  else if (97 <=? n)%nat && (n <=? 102)%nat then Some (Z.of_nat n - 87)
  else None.

Definition byte (z : Z) : ascii := ascii_of_nat (Z.to_nat z).

(** UTF-8 bytes of one UTF-16 code unit (a surrogate is encoded alone). *)
Definition utf8 (u : Z) : string :=
  if u <? 128 then ch (byte u)
  else if u <? 2048 then
    String (byte (192 + u / 64)) (ch (byte (128 + u mod 64)))
  else
    String (byte (224 + u / 4096))
      (String (byte (128 + (u / 64) mod 64)) (ch (byte (128 + u mod 64)))).

Definition simple_escape (c : ascii) : option ascii :=
  if Ascii.eqb c dquote then Some dquote
  else if Ascii.eqb c bslash then Some bslash
  else if Ascii.eqb c "/" then Some "/"%char
  else if Ascii.eqb c "b" then Some "008"%char
  else if Ascii.eqb c "f" then Some "012"%char
  else if Ascii.eqb c "n" then Some "010"%char
  else if Ascii.eqb c "r" then Some "013"%char
  else if Ascii.eqb c "t" then Some "009"%char
  else None.

(** The characters of a string literal after its opening quote, up to and
    without the closing quote, and the rest of the input. *)
Fixpoint parse_string_body (s : string) : option (string * string) :=
  match s with
  | EmptyString => None
  | String c r =>
      if Ascii.eqb c dquote then Some (EmptyString, r)
      else if Ascii.eqb c bslash then
        match r with
        | EmptyString => None
        | String e r1 =>
            if Ascii.eqb e "u" then
              match r1 with
              | String h1 (String h2 (String h3 (String h4 r2))) =>
                  match hex_val h1, hex_val h2, hex_val h3, hex_val h4 with
                  | Some a, Some b, Some c', Some d =>
                      match parse_string_body r2 with
                      | Some (body, rest) =>
                          Some (utf8 (4096 * a + 256 * b + 16 * c' + d) ++ body, rest)
                      | None => None
                      end
                  | _, _, _, _ => None
                  end
              | _ => None
              end
            else
              match simple_escape e with
              | Some x =>
                  match parse_string_body r1 with
                  | Some (body, rest) => Some (String x body, rest)
                  | None => None
                  end
              | None => None
              end
        end
      else if (nat_of_ascii c <? 32)%nat then None
      else
        match parse_string_body r with
        | Some (body, rest) => Some (String c body, rest)
        | None => None
        end
  end.

(** The integer part of a number token: a lone [0], or digits that do not
    start with [0]. *)
Definition lex_int (s : string) : option (string * string) :=
  match s with
  | String c r =>
      if Ascii.eqb c "0" then Some ("0", r)
      else if is_digit c then Some (span_digits s)
      else None
  | EmptyString => None
  end.

Definition lex_frac (s : string) : option (string * string) :=
  match s with
  | String c r =>
      if Ascii.eqb c "." then
        match span_digits r with
        | (EmptyString, _) => None
        | (d, rest) => Some (d, rest)
        end
      else Some (EmptyString, s)
  | EmptyString => Some (EmptyString, s)
  end.

Definition lex_exp (s : string) : option (Z * string) :=
  match s with
  | String c r =>
      if Ascii.eqb c "e" || Ascii.eqb c "E" then
        let (neg, r1) :=
          match r with
          | String sg r' =>
              if Ascii.eqb sg "-" then (true, r')
              else if Ascii.eqb sg "+" then (false, r')
              else (false, r)
          | EmptyString => (false, r)
          end in
        match span_digits r1 with
        | (EmptyString, _) => None
        | (d, rest) =>
            Some (if neg then - digits_value 0 d else digits_value 0 d, rest)
        end
      else Some (0, s)
  | EmptyString => Some (0, s)
  end.

Definition lex_number (s : string) : option (number * string) :=
  let (neg, s1) :=
    match s with
    | String c r => if Ascii.eqb c "-" then (true, r) else (false, s)
    | EmptyString => (false, s)
    end in
  match lex_int s1 with
  | None => None
  | Some (ip, s2) =>
      match lex_frac s2 with
      | None => None
      | Some (fp, s3) =>
          match lex_exp s3 with
          | None => None
          | Some (ex, s4) =>
              let m := digits_value 0 (ip ++ fp) in
              Some (make_number (if neg then - m else m)
                      (ex - Z.of_nat (String.length fp)), s4)
          end
      end
  end.

Fixpoint strip_prefix (p s : string) : option string :=
  match p, s with
  | EmptyString, _ => Some s
  | String a p', String b s' => if Ascii.eqb a b then strip_prefix p' s' else None
  | String _ _, EmptyString => None
  end.

Fixpoint parse_value (fuel : nat) (s : string) {struct fuel}
  : option (JsValue * string) :=
  match fuel with
  | O => None
  | S f =>
      match skip_ws s with
      | EmptyString => None
      | String c r =>
          if Ascii.eqb c "{" then
            match skip_ws r with
            | String c' r' =>
                if Ascii.eqb c' "}" then Some (JObj [], r')
                else
                  match parse_members f [] r with
                  | Some (ps, rest) => Some (JObj ps, rest)
                  | None => None
                  end
            | EmptyString => None
            end
          else if Ascii.eqb c "[" then
            match skip_ws r with
            | String c' r' =>
                if Ascii.eqb c' "]" then Some (JArr [] [], r')
                else
                  match parse_elements f [] r with
                  | Some (vs, rest) => Some (JArr vs [], rest)
                  | None => None
                  end
            | EmptyString => None
            end
          else if Ascii.eqb c dquote then
            match parse_string_body r with
            | Some (str, rest) => Some (JStr str, rest)
            | None => None
            end
          else if Ascii.eqb c "-" || is_digit c then
            match lex_number (String c r) with
            | Some (n, rest) => Some (JNum n, rest)
            | None => None
            end
          else
            match strip_prefix "true" (String c r) with
            | Some rest => Some (JBool true, rest)
            | None =>
                match strip_prefix "false" (String c r) with
                | Some rest => Some (JBool false, rest)
                | None =>
                    match strip_prefix "null" (String c r) with
                    | Some rest => Some (JNull, rest)
                    | None => None
                    end
                end
            end
      end
  end

with parse_elements (fuel : nat) (acc : list JsValue) (s : string) {struct fuel}
  : option (list JsValue * string) :=
  match fuel with
  | O => None
  | S f =>
      match parse_value f s with
      | None => None
      | Some (v, r) =>
          match skip_ws r with
          | String c r' =>
              if Ascii.eqb c "," then parse_elements f (acc ++ [v])%list r'
              else if Ascii.eqb c "]" then Some ((acc ++ [v])%list, r')
              else None
          | EmptyString => None
          end
      end
  end

with parse_members (fuel : nat) (acc : list (string * JsValue)) (s : string)
  {struct fuel} : option (list (string * JsValue) * string) :=
  match fuel with
  | O => None
  | S f =>
      match skip_ws s with
      | EmptyString => None
      | String q r =>
          if negb (Ascii.eqb q dquote) then None
          else
            match parse_string_body r with
            | None => None
            | Some (k, r1) =>
                match skip_ws r1 with
                | EmptyString => None
                | String c r2 =>
                    if negb (Ascii.eqb c ":") then None
                    else
                      match parse_value f r2 with
                      | None => None
                      | Some (v, r3) =>
                          match skip_ws r3 with
                          | EmptyString => None
                          | String d r4 =>
                              if Ascii.eqb d "," then
                                parse_members f (define_prop k v acc) r4
                              else if Ascii.eqb d "}" then
                                Some (define_prop k v acc, r4)
                              else None
                          end
                      end
                end
            end
      end
  end.

(** [JSON.parse(text)].  Every call of the three parsers above consumes a
    character of its own before the next one, or follows one that did, so
    twice the length of the text is fuel enough. *)
Definition JSON_parse (text : string) : result JsValue :=
  match parse_value (2 * String.length text + 2) text with
  | Some (v, rest) =>
      match skip_ws rest with
      | EmptyString => Ok v
      | String _ _ => Throw (SyntaxError "Unexpected non-whitespace character after JSON")
      end
  | None => Throw (SyntaxError "Unexpected token or end of JSON input")
  end.

(* ------------------------------------------------------------------ *)
(** *** [JSON.stringify(value, null, 2)]                                *)

Definition hex_char (d : Z) : ascii :=
  if d <? 10 then digit_char d else ascii_of_nat (Z.to_nat (87 + d)).

Definition escape_char (c : ascii) : string :=
  let n := Z.of_nat (nat_of_ascii c) in
  if Ascii.eqb c dquote then String bslash (ch dquote)
  else if Ascii.eqb c bslash then String bslash (ch bslash)
  else if n =? 8 then String bslash "b"
  else if n =? 12 then String bslash "f"
  else if n =? 10 then String bslash "n"
  else if n =? 13 then String bslash "r"
  else if n =? 9 then String bslash "t"
  else if n <? 32 then
    String bslash ("u00" ++ String (hex_char (n / 16)) (ch (hex_char (n mod 16))))
  else ch c.

Fixpoint escape_body (s : string) : string :=
  match s with
  | String c r => escape_char c ++ escape_body r
  | EmptyString => EmptyString
  end.

Definition quote (s : string) : string :=
  String dquote (escape_body s ++ ch dquote).

Fixpoint join (sep : string) (l : list string) : string :=
  match l with
  | [] => EmptyString
  | [x] => x
  | x :: r => x ++ sep ++ join sep r
  end.

Fixpoint stringify (ind : string) (v : JsValue) {struct v} : string :=
  match v with
  | JNull => "null"
  | JBool true => "true"
  | JBool false => "false"
  | JNum n => number_string n
  | JStr s => quote s
  | JArr [] _ => "[]"
  | JArr items _ =>
      let ind' := ind ++ "  " in
      "[" ++ ch nl ++ ind'
        ++ join ("," ++ ch nl ++ ind') (map (stringify ind') items)
        ++ ch nl ++ ind ++ "]"
  | JObj [] => "{}"
  | JObj ps =>
      let ind' := ind ++ "  " in
      "{" ++ ch nl ++ ind'
        ++ join ("," ++ ch nl ++ ind')
             (map (fun kv => match kv with
                             | (k, x) => quote k ++ ": " ++ stringify ind' x
                             end) ps)
        ++ ch nl ++ ind ++ "}"
  end.

Definition JSON_stringify (v : JsValue) : string := stringify EmptyString v.

(* ------------------------------------------------------------------ *)
(** *** Property access and string conversion                          *)

(** [v.offset]: a [TypeError] on [null], [undefined] ([None]) where the
    value has no such own property. *)
Definition read_offset (v : JsValue) : result (option JsValue) :=
  match v with
  | JNull => Throw (TypeError "Cannot read properties of null (reading 'offset')")
  | JObj ps => Ok (lookup "offset" ps)
  | JArr _ named => Ok (lookup "offset" named)
  | JBool _ | JNum _ | JStr _ => Ok None
  end.

(** [v.offset = n] in strict code: objects and arrays take the property,
    a primitive refuses it. *)
Definition assign_offset (v : JsValue) (n : Z) : result JsValue :=
  match v with
  | JObj ps => Ok (JObj (define_prop "offset" (JNum (NInt n)) ps))
  | JArr items named => Ok (JArr items (define_prop "offset" (JNum (NInt n)) named))
  | JNull => Throw (TypeError "Cannot set properties of null (setting 'offset')")
  | JBool _ | JNum _ | JStr _ =>
      Throw (TypeError "Cannot create property 'offset' on a primitive")
  end.

(** [ToString(v)], as a template literal applies it.  An object whose own
    [toString] is data, not a function, cannot be converted; an array joins
    its items, [null] giving the empty string. *)
Fixpoint to_display (v : JsValue) {struct v} : result string :=
  match v with
  | JNull => Ok "null"
  | JBool true => Ok "true"
  | JBool false => Ok "false"
  | JNum n => Ok (number_string n)
  | JStr s => Ok s
  | JObj ps =>
      if has_own "toString" ps
      then Throw (TypeError "Cannot convert object to primitive value")
      else Ok "[object Object]"
  | JArr items _ =>
      (fix items_display (l : list JsValue) : result string :=
         match l with
         | [] => Ok EmptyString
         | x :: r =>
             match (match x with JNull => Ok EmptyString | _ => to_display x end) with
             | Throw e => Throw e
             | Ok sx =>
                 match r with
                 | [] => Ok sx
                 | _ :: _ =>
                     match items_display r with
                     | Throw e => Throw e
                     | Ok sr => Ok (sx ++ "," ++ sr)
                     end
                 end
             end
         end) items
  end.

Definition display_opt (o : option JsValue) : result string :=
  match o with
  | None => Ok "undefined"
  | Some v => to_display v
  end.

End JS.

Import JS.

(* ================================================================== *)
(** ** [src/types/telegram.ts]                                         *)
(* ================================================================== *)

Record User := {
  user_id : Z;
  is_bot : bool;
  first_name : string;
  last_name : option string;
  username : option string;
  language_code : option string
}.

Inductive ChatType := private | group | supergroup | channel.

Record Chat := {
  chat_id : Z;
  chat_type : ChatType;
  chat_title : option string;
  chat_username : option string
}.

Record PhotoSize := {
  photo_file_id : string;
  photo_file_unique_id : string;
  width : Z;
  height : Z;
  photo_file_size : option Z
}.

Record Document := {
  file_name : string;
  mime_type : string;
  doc_file_id : string;
  doc_file_unique_id : string;
  doc_file_size : Z
}.

Record Message := {
  message_id : Z;
  from : option User;
  chat : Chat;
  date : Z;
  text : option string;
  photo : option (list PhotoSize);
  document : option Document
}.

Record Update := {
  update_id : Z;
  message : option Message;
  edited_message : option Message;
  channel_post : option Message;
  edited_channel_post : option Message
}.

Record TelegramResponse (T : Type) := {
  ok : bool;
  result_of : T;
  description : option string
}.
Arguments ok {T} _.
Arguments result_of {T} _.
Arguments description {T} _.

(** [interface File] of a [getFile] answer. *)
Record File := {
  file_id : string;
  file_unique_id : string;
  file_size : option Z;
  file_path : option string
}.

Record DownloadFileResult := {
  saved_path : string;
  saved_size : Z
}.

(* ================================================================== *)
(** ** Asynchronous methods                                            *)
(* ================================================================== *)

(** What an HTTP call to the Bot API comes back with: the promise rejects
    (no connection, a body that is not JSON), or a response envelope. *)
Inductive HttpAnswer (T : Type) : Type :=
| Rejects (e : Error)
| Responds (data : TelegramResponse T).
Arguments Rejects {T} e.
Arguments Responds {T} data.

Definition FetchOutcome : Type := HttpAnswer (list Update).

(** An asynchronous call returns, raises, or is still pending when the
    scripted remote has nothing more to say. *)
Inductive completion (A : Type) : Type :=
| Returns (a : A)
| Raises (e : Error)
| Pending.
Arguments Returns {A} a.
Arguments Raises {A} e.
Arguments Pending {A}.

(** The monad of asynchronous methods over a world [W]. *)
Definition Async (W A : Type) : Type := W -> completion A * W.

Definition ret {W A} (a : A) : Async W A := fun s => (Returns a, s).
Definition throw {W A} (e : Error) : Async W A := fun s => (Raises e, s).

Definition bind {W A B} (m : Async W A) (k : A -> Async W B) : Async W B :=
  fun s =>
    match m s with
    | (Returns a, s') => k a s'
    | (Raises e, s') => (Raises e, s')
    | (Pending, s') => (Pending, s')
    end.

(** [try { m } catch (e) { h e }] *)
Definition try_catch {W A} (m : Async W A) (h : Error -> Async W A) : Async W A :=
  fun s =>
    match m s with
    | (Raises e, s') => h e s'
    | r => r
    end.

Definition lift {W A} (r : result A) : Async W A :=
  match r with
  | Ok a => ret a
  | Throw e => throw e
  end.

Declare Scope async_scope.
Delimit Scope async_scope with async.
Notation "x <- m ;; k" := (bind m (fun x => k))
  (at level 61, m at next level, right associativity) : async_scope.
Notation "m ;; k" := (bind m (fun _ => k))
  (at level 61, right associativity) : async_scope.
Local Open Scope async_scope.

(** [for (const x of l) { await body x }] *)
Fixpoint for_each {W A} (l : list A) (body : A -> Async W unit) : Async W unit :=
  match l with
  | [] => ret tt
  | x :: r => body x ;; for_each r body
  end.

(** [data.description || 'Unknown error'] *)
Definition description_or_unknown (d : option string) : string :=
  match d with
  | Some (String c r) => String c r
  | Some EmptyString | None => "Unknown error"
  end.

(** [TelegramClient.makeRequest], over the [fetch] it awaits and the
    client's logger. *)
Definition makeRequest {W T}
    (log_error : string -> Error -> Async W unit)
    (method : string) (request : Async W (TelegramResponse T)) : Async W T :=
  try_catch
    (data <- request ;;
     if negb (ok data)
     then throw (PlainError ("Telegram API error: "
                               ++ description_or_unknown (description data)))
     else ret (result_of data))
    (fun error =>
       log_error ("Failed to call " ++ method) error ;;
       throw error).

Inductive Level := INFO | ERROR | WARN | DEBUG.

(* ================================================================== *)
(** ** The polling core: [StateManager], [PollingService]              *)
(* ================================================================== *)

(** What the core does to the outside, in the order it does it. *)
Inductive Event :=
| EvLog (lvl : Level) (context msg : string) (err : option Error)
| EvGetUpdates (offset : option JsValue) (timeout limit : Z)
| EvProcess (u : Update)
| EvMkdir
| EvWriteFile (data : string)
| EvReadFile
| EvSleep (ms : Z).

(** The part of the environment the program cannot control: which disk
    operation fails, and during which suspension [stop()] is called; both
    are indexed by the count of suspensions so far. *)
Record Env := {
  fs_fault : nat -> option Error;
  stop_at : nat -> bool
}.

Section Core.

(** The processor handed to [start]: any function of the update over a
    state of its own. *)
Variable PS : Type.
Variable onUpdate : Update -> PS -> completion unit * PS.
Variable env : Env.

Record Sys := {
  dir_exists : bool;            (* dirname(statePath) exists *)
  file : option string;         (* content of statePath, if it exists *)
  remote : list FetchOutcome;   (* answers to the coming getUpdates calls *)
  tick : nat;                   (* suspensions so far *)
  trace : list Event;
  state : JsValue;              (* StateManager.state *)
  isRunning : bool;             (* PollingService.isRunning *)
  pstate : PS
}.

Definition set_dir_exists (b : bool) (s : Sys) : Sys :=
  {| dir_exists := b; file := file s; remote := remote s; tick := tick s;
     trace := trace s; state := state s; isRunning := isRunning s;
     pstate := pstate s |}.
Definition set_file (f : option string) (s : Sys) : Sys :=
  {| dir_exists := dir_exists s; file := f; remote := remote s; tick := tick s;
     trace := trace s; state := state s; isRunning := isRunning s;
     pstate := pstate s |}.
Definition set_remote (r : list FetchOutcome) (s : Sys) : Sys :=
  {| dir_exists := dir_exists s; file := file s; remote := r; tick := tick s;
     trace := trace s; state := state s; isRunning := isRunning s;
     pstate := pstate s |}.
Definition set_tick (n : nat) (s : Sys) : Sys :=
  {| dir_exists := dir_exists s; file := file s; remote := remote s; tick := n;
     trace := trace s; state := state s; isRunning := isRunning s;
     pstate := pstate s |}.
Definition set_trace (t : list Event) (s : Sys) : Sys :=
  {| dir_exists := dir_exists s; file := file s; remote := remote s;
     tick := tick s; trace := t; state := state s; isRunning := isRunning s;
     pstate := pstate s |}.
Definition set_state (v : JsValue) (s : Sys) : Sys :=
  {| dir_exists := dir_exists s; file := file s; remote := remote s;
     tick := tick s; trace := trace s; state := v; isRunning := isRunning s;
     pstate := pstate s |}.
Definition set_isRunning (b : bool) (s : Sys) : Sys :=
  {| dir_exists := dir_exists s; file := file s; remote := remote s;
     tick := tick s; trace := trace s; state := state s; isRunning := b;
     pstate := pstate s |}.
Definition set_pstate (p : PS) (s : Sys) : Sys :=
  {| dir_exists := dir_exists s; file := file s; remote := remote s;
     tick := tick s; trace := trace s; state := state s;
     isRunning := isRunning s; pstate := p |}.

Definition M (A : Type) : Type := Async Sys A.

Definition emit (e : Event) : M unit :=
  fun s => (Returns tt, set_trace (trace s ++ [e]) s).

Definition now : M nat := fun s => (Returns (tick s), s).

(** [Logger]: the line goes to the console; its timestamp is the position
    in the trace. *)
Definition log (lvl : Level) (context msg : string) (err : option Error) : M unit :=
  emit (EvLog lvl context msg err).

(** [PollingService.stop] *)
Definition stop : M unit :=
  (fun s => (Returns tt, set_isRunning false s)) ;;
  log INFO "PollingService" "Polling stopped" None.

(** An [await] of real I/O: time passes, and a signal handler may run
    [stop()] meanwhile. *)
Definition suspend : M unit :=
  fun s =>
    let s1 := set_tick (S (tick s)) s in
    if stop_at env (tick s) then stop s1 else (Returns tt, s1).

(** *** [fs] and [fs/promises] on the state path *)

Definition ENOENT : Error := MkError "Error" "ENOENT: no such file or directory".

Definition existsSync_statePath : M bool :=
  fun s => (Returns (match file s with Some _ => true | None => false end), s).

Definition existsSync_dir : M bool :=
  fun s => (Returns (dir_exists s), s).

(** [mkdir(dir, { recursive: true })] *)
Definition mkdir : M unit :=
  emit EvMkdir ;;
  t <- now ;;
  suspend ;;
  match fs_fault env t with
  | Some e => throw e
  | None => fun s => (Returns tt, set_dir_exists true s)
  end.

Definition writeFile (data : string) : M unit :=
  emit (EvWriteFile data) ;;
  t <- now ;;
  suspend ;;
  match fs_fault env t with
  | Some e => throw e
  | None =>
      fun s =>
        if dir_exists s then (Returns tt, set_file (Some data) s)
        else (Raises ENOENT, s)
  end.

Definition readFile : M string :=
  emit EvReadFile ;;
  t <- now ;;
  suspend ;;
  match fs_fault env t with
  | Some e => throw e
  | None =>
      fun s =>
        match file s with
        | Some data => (Returns data, s)
        | None => (Raises ENOENT, s)
        end
  end.

(* ------------------------------------------------------------------ *)
(** *** [StateManager]                                                  *)

(** [{ offset: n }] *)
Definition BotState (n : Z) : JsValue := JObj [("offset", JNum (NInt n))].

Definition get_state : M JsValue := fun s => (Returns (state s), s).
Definition put_state (v : JsValue) : M unit := fun s => (Returns tt, set_state v s).

Definition ensureDirectoryExists : M unit :=
  d <- existsSync_dir ;;
  if negb d then mkdir else ret tt.

Definition save : M unit :=
  try_catch
    (ensureDirectoryExists ;;
     st <- get_state ;;
     writeFile (JSON_stringify st))
    (fun error => log ERROR "StateManager" "Failed to save state" (Some error)).

Definition load : M unit :=
  try_catch
    (ex <- existsSync_statePath ;;
     if negb ex then
       ensureDirectoryExists ;;
       save ;;
       log INFO "StateManager" "Created new state file" None
     else
       data <- readFile ;;
       v <- lift (JSON_parse data) ;;
       put_state v ;;
       o <- lift (read_offset v) ;;
       shown <- lift (display_opt o) ;;
       log INFO "StateManager" ("Loaded state with offset: " ++ shown) None)
    (fun error =>
       log ERROR "StateManager" "Failed to load state" (Some error) ;;
       put_state (BotState 0)).

Definition getOffset : M (option JsValue) :=
  st <- get_state ;;
  lift (read_offset st).

Definition setOffset (offset : Z) : M unit :=
  st <- get_state ;;
  st' <- lift (assign_offset st offset) ;;
  put_state st' ;;
  save.

(* ------------------------------------------------------------------ *)
(** *** [TelegramClient.getUpdates]                                     *)

(** [fetch] of [getUpdates] followed by [response.json()]. *)
Definition fetch_getUpdates (offset : option JsValue) (timeout limit : Z)
  : M (TelegramResponse (list Update)) :=
  emit (EvGetUpdates offset timeout limit) ;;
  suspend ;;
  fun s =>
    match remote s with
    | [] => (Pending, s)
    | Rejects e :: r => (Raises e, set_remote r s)
    | Responds data :: r => (Returns data, set_remote r s)
    end.

Definition getUpdates (offset : option JsValue) (timeout limit : Z)
  : M (list Update) :=
  makeRequest (fun msg e => log ERROR "TelegramClient" msg (Some e))
    "getUpdates" (fetch_getUpdates offset timeout limit).

(* ------------------------------------------------------------------ *)
(** *** [PollingService]                                                *)

Definition pollTimeout : Z := 30.
Definition pollLimit : Z := 100.

(** [await onUpdate(update)] *)
Definition call_onUpdate (u : Update) : M unit :=
  emit (EvProcess u) ;;
  suspend ;;
  fun s => let (r, p) := onUpdate u (pstate s) in (r, set_pstate p s).

(** The body of the [for ... of] in [poll]. *)
Definition process_update (update : Update) : M unit :=
  try_catch
    (call_onUpdate update ;;
     setOffset (update_id update + 1))
    (fun error =>
       log ERROR "PollingService"
         ("Failed to process update " ++ int_string (update_id update))
         (Some error)).

Definition poll : M unit :=
  offset <- getOffset ;;
  updates <- getUpdates offset pollTimeout pollLimit ;;
  if (List.length updates =? 0)%nat then ret tt
  else
    log INFO "PollingService"
      ("Received " ++ int_string (Z.of_nat (List.length updates)) ++ " update(s)")
      None ;;
    for_each updates process_update.

(** [await setTimeout(ms)] *)
Definition sleep (ms : Z) : M unit :=
  emit (EvSleep ms) ;;
  suspend.

(** The body of the [while] in [start]. *)
Definition iteration : M unit :=
  try_catch poll
    (fun error =>
       log ERROR "PollingService" "Error during polling" (Some error) ;;
       sleep 5000).

(** [while (this.isRunning) { ... }], at most [fuel] turns; [None] when
    the loop is still running after them. *)
Fixpoint loop (fuel : nat) (s : Sys) : option (completion unit * Sys) :=
  if isRunning s then
    match fuel with
    | O => None
    | S f =>
        match iteration s with
        | (Returns _, s') => loop f s'
        | (r, s') => Some (r, s')
        end
    end
  else Some (Returns tt, s).

(** The two statements of [start] before its loop. *)
Definition start_prologue : M unit :=
  (fun s0 => (Returns tt, set_isRunning true s0)) ;;
  log INFO "PollingService" "Polling started" None.

Definition start (fuel : nat) (s : Sys) : option (completion unit * Sys) :=
  loop fuel (snd (start_prologue s)).

End Core.

(* ================================================================== *)
(** ** The collaborators: client, command table, message router        *)
(* ================================================================== *)

(** What the collaborators do to the outside. *)
Inductive CEvent :=
| CLog (lvl : Level) (context msg : string) (err : option Error)
| CConsoleDir (m : Message)
| CSendMessage (chat : Z) (body : string)
| CGetFile (id : string)
| CFetchFile (url : string)
| CMkdir (dir : string)
| CWriteFile (path : string) (body : string)
| CCallback (command : string) (args : list string).

(** The answer to a [fetch] of a file URL: the fetch, or the reading of
    the body, rejects; or a response with its [ok] flag, status text and
    body arrives. *)
Inductive FileFetch :=
| FileRejects (e : Error)
| FileResponse (response_ok : bool) (statusText : string) (body : string).

(** Node and the network, as the client sees them; the answers are indexed
    by the number of calls made so far. *)
Record Platform := {
  sendMessage_answer : nat -> HttpAnswer unit;
  getFile_answer : nat -> HttpAnswer File;
  file_answer : nat -> FileFetch;
  mkdir_fault : nat -> option Error;
  writeFile_fault : nat -> option Error;
  tmpdir : string;
  Date_now : nat -> Z;
  path_join : string -> string -> string;
  path_dirname : string -> string;
  path_basename : string -> string
}.

Record CState := {
  calls : nat;
  ctrace : list CEvent
}.

Definition C (A : Type) : Type := Async CState A.

Definition cemit (e : CEvent) : C unit :=
  fun s => (Returns tt, {| calls := calls s; ctrace := ctrace s ++ [e] |}).

Definition clog (lvl : Level) (context msg : string) (err : option Error) : C unit :=
  cemit (CLog lvl context msg err).

(** The index of the call being made. *)
Definition next_call : C nat :=
  fun s => (Returns (calls s), {| calls := S (calls s); ctrace := ctrace s |}).

Definition answer_of {T} (a : HttpAnswer T) : C (TelegramResponse T) :=
  match a with
  | Rejects e => throw e
  | Responds data => ret data
  end.

Definition fault_of (f : option Error) : C unit :=
  match f with
  | Some e => throw e
  | None => ret tt
  end.

(** [x || fallback] on an optional string. *)
Definition or_else (x : option string) (fallback : string) : string :=
  match x with
  | Some (String c r) => String c r
  | Some EmptyString | None => fallback
  end.

Module TelegramClient.

Record t := { baseUrl : string; token : string }.

Definition constructor (tok : string) : t :=
  {| baseUrl := "https://api.telegram.org/bot" ++ tok; token := tok |}.

Definition log_error (msg : string) (e : Error) : C unit :=
  clog ERROR "TelegramClient" msg (Some e).

Definition sendMessage (pf : Platform) (chat : Z) (body : string) : C unit :=
  makeRequest log_error "sendMessage"
    (cemit (CSendMessage chat body) ;;
     n <- next_call ;;
     answer_of (sendMessage_answer pf n)) ;;
  ret tt.

Definition getFile (pf : Platform) (id : string) : C File :=
  makeRequest log_error "getFile"
    (cemit (CGetFile id) ;;
     n <- next_call ;;
     answer_of (getFile_answer pf n)).

Definition downloadFile (pf : Platform) (this : t) (filePath savePath : string)
  : C DownloadFileResult :=
  let fileUrl := "https://api.telegram.org/file/bot" ++ token this ++ "/" ++ filePath in
  try_catch
    (cemit (CFetchFile fileUrl) ;;
     n <- next_call ;;
     match file_answer pf n with
     | FileRejects e => throw e
     | FileResponse response_ok statusText body =>
         if negb response_ok
         then throw (PlainError ("Failed to download file: " ++ statusText))
         else
           let dir := path_dirname pf savePath in
           cemit (CMkdir dir) ;;
           k <- next_call ;;
           fault_of (mkdir_fault pf k) ;;
           cemit (CWriteFile savePath body) ;;
           k' <- next_call ;;
           fault_of (writeFile_fault pf k') ;;
           ret {| saved_path := savePath;
                  saved_size := Z.of_nat (String.length body) |}
     end)
    (fun error =>
       log_error ("Failed to download file from " ++ fileUrl) error ;;
       throw error).

Definition MAX_FILE_SIZE : Z := 20 * 1024 * 1024.

(** [file.file_size && file.file_size > MAX_FILE_SIZE] *)
Definition too_large (f : File) : bool :=
  match file_size f with
  | Some size => negb (size =? 0) && (MAX_FILE_SIZE <? size)
  | None => false
  end.

Definition downloadFileById (pf : Platform) (this : t)
    (fileId : string) (savePath : option string) : C DownloadFileResult :=
  f <- getFile pf fileId ;;
  match file_path f with
  | None | Some EmptyString =>
      throw (PlainError "File path not available in response")
  | Some (String c r) =>
      let path := String c r in
      if too_large f then
        throw (PlainError
                 ("File size " ++ match file_size f with
                                  | Some size => int_string size
                                  | None => "undefined"
                                  end
                    ++ " exceeds maximum limit of " ++ int_string MAX_FILE_SIZE
                    ++ " bytes"))
      else
        finalSavePath <-
          match savePath with
          | Some (String c' r') => ret (String c' r')
          | Some EmptyString | None =>
              fun s =>
                (Returns
                   (path_join pf (tmpdir pf)
                      ("telegram_" ++ fileId ++ "_"
                         ++ int_string (Date_now pf (calls s)) ++ "_"
                         ++ path_basename pf path)), s)
          end ;;
        downloadFile pf this path finalSavePath
  end.

End TelegramClient.

(* ------------------------------------------------------------------ *)
(** *** String methods the handlers use                                 *)

Definition startsWith_slash (s : string) : bool :=
  match s with
  | String c _ => Ascii.eqb c "/"
  | EmptyString => false
  end.

(** [s.slice(1)] *)
Definition slice1 (s : string) : string :=
  match s with
  | String _ r => r
  | EmptyString => EmptyString
  end.

(** [s.split(' ')]: never empty, [""] for the empty string. *)
Fixpoint split_space (s : string) : list string :=
  match s with
  | EmptyString => [EmptyString]
  | String c r =>
      if Ascii.eqb c " " then EmptyString :: split_space r
      else
        match split_space r with
        | w :: ws => String c w :: ws
        | [] => [ch c]
        end
  end.

(** [toLowerCase] on a string of ASCII characters: the letters [A] to [Z]
    are lowered and nothing else changes.  Beyond ASCII JavaScript lowers
    other cased letters too, which this function does not follow (it
    keeps those bytes); what is stated about letter case is stated for
    words that are [ascii_only], as the command names of the Bot API
    are. *)
Definition lower_char (c : ascii) : ascii :=
  let n := nat_of_ascii c in
  if (65 <=? n)%nat && (n <=? 90)%nat then ascii_of_nat (n + 32) else c.

Fixpoint toLowerCase (s : string) : string :=
  match s with
  | String c r => String (lower_char c) (toLowerCase r)
  | EmptyString => EmptyString
  end.

(** Every character of the string is an ASCII one. *)
Fixpoint ascii_only (s : string) : bool :=
  match s with
  | String c r => (nat_of_ascii c <? 128)%nat && ascii_only r
  | EmptyString => true
  end.

(** The white space of the language ([WhiteSpace] and [LineTerminator],
    which [parseInt] and [trim] skip), in a string of UTF-8 bytes.  In
    one byte: TAB, LF, VT, FF, CR and the space. *)
Definition is_js_space (c : ascii) : bool :=
  let n := nat_of_ascii c in
  ((9 <=? n)%nat && (n <=? 13)%nat) || (n =? 32)%nat.

(** In two bytes: U+00A0, the no-break space. *)
Definition is_js_space2 (a b : ascii) : bool :=
  ((nat_of_ascii a =? 194) && (nat_of_ascii b =? 160))%nat.

(** In three bytes: U+1680; U+2000 to U+200A, U+2028, U+2029 and U+202F;
    U+205F; U+3000; U+FEFF. *)
Definition is_js_space3 (a b c : ascii) : bool :=
  let x := nat_of_ascii a in
  let y := nat_of_ascii b in
  let z := nat_of_ascii c in
  ((x =? 225) && (y =? 154) && (z =? 128)
   || (x =? 226) && (y =? 128)
      && ((128 <=? z) && (z <=? 138) || (z =? 168) || (z =? 169) || (z =? 175))
   || (x =? 226) && (y =? 129) && (z =? 159)
   || (x =? 227) && (y =? 128) && (z =? 128)
   || (x =? 239) && (y =? 187) && (z =? 191))%nat.

Fixpoint trim_start (s : string) : string :=
  match s with
  | EmptyString => EmptyString
  | String a r =>
      if is_js_space a then trim_start r
      else
        match r with
        | EmptyString => s
        | String b r2 =>
            if is_js_space2 a b then trim_start r2
            else
              match r2 with
              | EmptyString => s
              | String c r3 => if is_js_space3 a b c then trim_start r3 else s
              end
        end
  end.

(** [parseInt(s, 10)]: leading white space, a sign, then digits as far as
    they go; [None] is [NaN]. *)
Definition parseInt10 (s : string) : option Z :=
  let s1 := trim_start s in
  let (neg, s2) :=
    match s1 with
    | String c r =>
        if Ascii.eqb c "-" then (true, r)
        else if Ascii.eqb c "+" then (false, r)
        else (false, s1)
    | EmptyString => (false, s1)
    end in
  match span_digits s2 with
  | (EmptyString, _) => None
  | (d, _) => Some (if neg then - digits_value 0 d else digits_value 0 d)
  end.

(* ------------------------------------------------------------------ *)
(** *** [CommandHandler]                                                *)

Module CommandHandler.

(** A callback sees the message, the arguments, and the table as it is
    when the command runs (the closure reads [this.commands]). *)
Definition CommandCallback : Type :=
  list (string * string) -> Message -> list string -> C unit.

Record CommandDefinition := {
  callback : CommandCallback;
  cmd_description : string
}.

(** [Map<string, CommandDefinition>] in insertion order. *)
Record t := { commands : list (string * CommandDefinition) }.

Fixpoint map_get (k : string) (m : list (string * CommandDefinition))
  : option CommandDefinition :=
  match m with
  | [] => None
  | (k', d) :: r => if String.eqb k k' then Some d else map_get k r
  end.

Fixpoint map_set (k : string) (d : CommandDefinition)
    (m : list (string * CommandDefinition)) : list (string * CommandDefinition) :=
  match m with
  | [] => [(k, d)]
  | (k', d') :: r =>
      if String.eqb k k' then (k', d) :: r else (k', d') :: map_set k d r
  end.

Definition entries (this : t) : list (string * string) :=
  map (fun kd => (fst kd, cmd_description (snd kd))) (commands this).

Definition registerCommand (this : t) (command description : string)
    (cb : CommandCallback) : C t :=
  clog INFO "CommandHandler" ("Registered command: /" ++ command) None ;;
  ret {| commands :=
           map_set command {| callback := cb; cmd_description := description |}
             (commands this) |}.

Definition bust : string :=
  String "240" (String "159" (String "145" (String "164" EmptyString))).
Definition balloon : string :=
  String "240" (String "159" (String "146" (String "172" EmptyString))).

Definition chat_type_name (k : ChatType) : string :=
  match k with
  | private => "private"
  | group => "group"
  | supergroup => "supergroup"
  | channel => "channel"
  end.

Definition registerDefaultCommands (pf : Platform) (this : t) : C t :=
  h1 <- registerCommand this "start" "Start the bot"
          (fun _ message _ =>
             TelegramClient.sendMessage pf (chat_id (chat message))
               "Hello! I am your bot. Send /help for available commands.") ;;
  h2 <- registerCommand h1 "help" "Show available commands"
          (fun table message _ =>
             TelegramClient.sendMessage pf (chat_id (chat message))
               ("Available commands:" ++ ch nl
                  ++ join (ch nl)
                       (map (fun cd => "/" ++ fst cd ++ " - " ++ snd cd) table))) ;;
  h3 <- registerCommand h2 "ping" "Check if bot is alive"
          (fun _ message _ =>
             TelegramClient.sendMessage pf (chat_id (chat message)) "Pong!") ;;
  registerCommand h3 "id" "Get your user ID and chat information"
    (fun _ message _ =>
       let userId :=
         match from message with
         | Some u => if user_id u =? 0 then "Unknown" else int_string (user_id u)
         | None => "Unknown"
         end in
       let name :=
         or_else (match from message with Some u => username u | None => None end)
           "N/A" in
       TelegramClient.sendMessage pf (chat_id (chat message))
         (bust ++ " User ID: " ++ userId ++ ch nl
            ++ bust ++ " Username: @" ++ name ++ ch nl
            ++ balloon ++ " Chat ID: " ++ int_string (chat_id (chat message)) ++ ch nl
            ++ balloon ++ " Chat Type: " ++ chat_type_name (chat_type (chat message)))).

Definition constructor (pf : Platform) : C t :=
  registerDefaultCommands pf {| commands := [] |}.

Definition handle (this : t) (message : Message) : C unit :=
  match text message with
  | None => ret tt
  | Some txt =>
      if negb (startsWith_slash txt) then ret tt
      else
        match split_space (slice1 txt) with
        | [] => ret tt
        | commandPart :: args =>
            let command := toLowerCase commandPart in
            match map_get command (commands this) with
            | None => clog WARN "CommandHandler" ("Unknown command: /" ++ command) None
            | Some commandDef =>
                try_catch
                  (cemit (CCallback command args) ;;
                   callback commandDef (entries this) message args)
                  (fun error =>
                     clog ERROR "CommandHandler"
                       ("Error handling command /" ++ command) (Some error))
            end
        end
  end.

End CommandHandler.

(* ------------------------------------------------------------------ *)
(** *** [MessageHandler]                                                *)

Module MessageHandler.

(** [number | null], with [NaN] among the numbers. *)
Inductive AllowedUserId :=
| IdNull
| IdNaN
| IdNum (id : Z).

Record t := {
  commandHandler : CommandHandler.t;
  allowedUserId : AllowedUserId
}.

(** [if (this.allowedUserId)] *)
Definition truthy (a : AllowedUserId) : bool :=
  match a with
  | IdNum id => negb (id =? 0)
  | IdNull | IdNaN => false
  end.

Definition show_allowed (a : AllowedUserId) : string :=
  match a with
  | IdNum id => int_string id
  | IdNaN => "NaN"
  | IdNull => "null"
  end.

(** [ALLOWED_USER_ID] is the value of the environment variable, if set. *)
Definition constructor (ALLOWED_USER_ID : option string)
    (commands : CommandHandler.t) : C t :=
  let allowed :=
    match ALLOWED_USER_ID with
    | Some (String c r) =>
        match parseInt10 (String c r) with
        | Some id => IdNum id
        | None => IdNaN
        end
    | Some EmptyString | None => IdNull
    end in
  (if truthy allowed
   then clog INFO "MessageHandler"
          ("Only accepting messages from user ID: " ++ show_allowed allowed) None
   else clog WARN "MessageHandler"
          "ALLOWED_USER_ID not set - accepting messages from all users" None) ;;
  ret {| commandHandler := commands; allowedUserId := allowed |}.

(** [message.from?.id !== this.allowedUserId] *)
Definition sender_differs (message : Message) (a : AllowedUserId) : bool :=
  match from message, a with
  | Some u, IdNum id => negb (user_id u =? id)
  | _, _ => true
  end.

(** [`${message.from?.id}`] *)
Definition show_sender_id (message : Message) : string :=
  match from message with
  | Some u => int_string (user_id u)
  | None => "undefined"
  end.

(** [`${message.from?.username || message.from?.id}`] *)
Definition show_sender (message : Message) : string :=
  match from message with
  | Some u => or_else (username u) (int_string (user_id u))
  | None => "undefined"
  end.

(** [message.text || message.document?.file_name || (message.photo ? 'photo' : 'unknown')] *)
Definition show_content (message : Message) : string :=
  or_else (text message)
    (or_else (match document message with
              | Some d => Some (file_name d)
              | None => None
              end)
       (match photo message with Some _ => "photo" | None => "unknown" end)).

Definition cross_mark : string :=
  String "226" (String "157" (String "140" EmptyString)).

Definition area (p : PhotoSize) : Z := width p * height p.

(** The callback of [message.photo.reduce]. *)
Definition larger (largest current : PhotoSize) : PhotoSize :=
  match photo_file_size current, photo_file_size largest with
  | Some c, Some l =>
      if negb (c =? 0) && negb (l =? 0)
      then (if l <? c then current else largest)
      else (if area largest <? area current then current else largest)
  | _, _ => if area largest <? area current then current else largest
  end.

Definition handlePhotoMessage (pf : Platform) (client : TelegramClient.t)
    (message : Message) : C unit :=
  match photo message with
  | None | Some [] => ret tt
  | Some (first :: others) =>
      let largestPhoto := fold_left larger others first in
      let fileId := photo_file_id largestPhoto in
      let dimensions :=
        int_string (width largestPhoto) ++ "x" ++ int_string (height largestPhoto) in
      clog INFO "MessageHandler"
        ("Downloading photo: " ++ dimensions ++ " ("
           ++ match photo_file_size largestPhoto with
              | Some n => if n =? 0 then "unknown size" else int_string n
              | None => "unknown size"
              end ++ " bytes)") None ;;
      try_catch
        (r <- TelegramClient.downloadFileById pf client fileId None ;;
         clog INFO "MessageHandler" ("Photo saved to: " ++ saved_path r) None)
        (fun error =>
           clog ERROR "MessageHandler" ("Failed to download photo: " ++ dimensions)
             (Some error) ;;
           TelegramClient.sendMessage pf (chat_id (chat message))
             (cross_mark ++ " Failed to download photo" ++ ch nl))
  end.

Definition handleDocumentMessage (pf : Platform) (client : TelegramClient.t)
    (message : Message) : C unit :=
  match document message with
  | None => ret tt
  | Some doc =>
      let fileId := doc_file_id doc in
      let fileName := or_else (Some (file_name doc)) "unknown" in
      let fileSize := doc_file_size doc in
      clog INFO "MessageHandler"
        ("Downloading document: " ++ fileName ++ " (" ++ int_string fileSize
           ++ " bytes)") None ;;
      try_catch
        (r <- TelegramClient.downloadFileById pf client fileId None ;;
         clog INFO "MessageHandler" ("Document saved to: " ++ saved_path r) None)
        (fun error =>
           clog ERROR "MessageHandler" ("Failed to download document: " ++ fileName)
             (Some error) ;;
           TelegramClient.sendMessage pf (chat_id (chat message))
             (cross_mark ++ " Failed to download: " ++ fileName ++ ch nl))
  end.

Definition handleTextMessage (pf : Platform) (message : Message) : C unit :=
  match text message with
  | None | Some EmptyString => ret tt
  | Some (String c r) =>
      TelegramClient.sendMessage pf (chat_id (chat message))
        ("You said: " ++ String c r)
  end.

Definition handle (pf : Platform) (client : TelegramClient.t) (this : t)
    (message : Message) : C unit :=
  clog INFO "MessageHandler"
    ("Message from " ++ show_sender message ++ ": " ++ show_content message) None ;;
  cemit (CConsoleDir message) ;;
  if truthy (allowedUserId this) && sender_differs message (allowedUserId this)
  then
    clog WARN "MessageHandler"
      ("Ignoring message from unauthorized user: " ++ show_sender_id message) None
  else
    match document message with
    | Some _ => handleDocumentMessage pf client message
    | None =>
        match photo message with
        | Some _ => handlePhotoMessage pf client message
        | None =>
            if match text message with
               | Some txt => startsWith_slash txt
               | None => false
               end
            then CommandHandler.handle (commandHandler this) message
            else handleTextMessage pf message
        end
    end.

End MessageHandler.

(* ================================================================== *)
(** ** Observations on a run of the core                               *)
(* ================================================================== *)

Arguments dir_exists {PS} s.
Arguments file {PS} s.
Arguments remote {PS} s.
Arguments tick {PS} s.
Arguments trace {PS} s.
Arguments state {PS} s.
Arguments isRunning {PS} s.
Arguments pstate {PS} s.
Arguments save {PS} env s.
Arguments load {PS} env s.
Arguments getOffset {PS} s.
Arguments setOffset {PS} env offset s.
Arguments process_update {PS} onUpdate env update s.
Arguments poll {PS} onUpdate env s.
Arguments iteration {PS} onUpdate env s.
Arguments loop {PS} onUpdate env fuel s.
Arguments start {PS} onUpdate env fuel s.
Arguments start_prologue {PS} s.
Arguments stop {PS} s.
Arguments suspend {PS} env s.
Arguments call_onUpdate {PS} onUpdate env u s.
Arguments getUpdates {PS} env offset timeout limit s.
Arguments fetch_getUpdates {PS} env offset timeout limit s.
Arguments sleep {PS} env ms s.
Arguments log {PS} lvl context msg err s.
Arguments emit {PS} e s.
Arguments set_dir_exists {PS} b s.
Arguments set_file {PS} f s.
Arguments set_remote {PS} r s.
Arguments set_tick {PS} n s.
Arguments set_trace {PS} t s.
Arguments set_state {PS} v s.
Arguments set_isRunning {PS} b s.
Arguments set_pstate {PS} p s.

Local Open Scope list_scope.

(** The events of one kind, in order. *)
Fixpoint select {A} (pick : Event -> option A) (t : list Event) : list A :=
  match t with
  | [] => []
  | e :: r =>
      match pick e with
      | Some a => a :: select pick r
      | None => select pick r
      end
  end.

(** The updates handed to the processor. *)
Definition processed : list Event -> list Update :=
  select (fun e => match e with EvProcess u => Some u | _ => None end).

(** The offsets [getUpdates] was called with. *)
Definition fetches : list Event -> list (option JsValue) :=
  select (fun e => match e with EvGetUpdates o _ _ => Some o | _ => None end).

(** The delays slept. *)
Definition sleeps : list Event -> list Z :=
  select (fun e => match e with EvSleep ms => Some ms | _ => None end).

(** The disk operations started. *)
Definition disk_ops : list Event -> list Event :=
  select (fun e => match e with
                   | EvMkdir | EvWriteFile _ | EvReadFile => Some e
                   | _ => None
                   end).

(** The lines logged: level, context and message. *)
Definition logged : list Event -> list (Level * string * string) :=
  select (fun e => match e with
                   | EvLog lvl ctx msg _ => Some (lvl, ctx, msg)
                   | _ => None
                   end).

Definition num (n : Z) : JsValue := JNum (NInt n).

(** The cursor in memory: what [getOffset()] returns. *)
Definition cursor {PS} (s : Sys PS) : option JsValue :=
  match read_offset (state s) with
  | Ok o => o
  | Throw _ => None
  end.

(** The cursor on disk: the offset a restart would read from the file. *)
Definition persisted {PS} (s : Sys PS) : option JsValue :=
  match file s with
  | Some data =>
      match JSON_parse data with
      | Ok v => match read_offset v with Ok o => o | Throw _ => None end
      | Throw _ => None
      end
  | None => None
  end.

(** The file holds exactly what [save] writes for the state in memory. *)
Definition synced {PS} (s : Sys PS) : Prop :=
  file s = Some (JSON_stringify (state s)).

Definition no_fault (env : Env) : Prop := forall t, fs_fault env t = None.

(** [stop()] is not called during the suspensions from [s] up to [s']. *)
Definition no_stop_between {PS} (env : Env) (s s' : Sys PS) : Prop :=
  forall t, (tick s <= t < tick s')%nat -> stop_at env t = false.

(** What no step of the core undoes, whatever the disk and the callers of
    [stop()] do: time moves on, a stopped service stays stopped, and only
    a call of [stop()] stops it. *)
Record calm {PS} (env : Env) (s s' : Sys PS) : Prop := {
  calm_tick : (tick s <= tick s')%nat;
  calm_stopped : isRunning s = false -> isRunning s' = false;
  calm_running : no_stop_between env s s' -> isRunning s' = isRunning s;
  calm_trace : exists l, trace s' = trace s ++ l
}.

(** A step that neither talks to the remote nor sleeps. *)
Record quiet {PS} (env : Env) (s s' : Sys PS) : Prop := {
  quiet_calm : calm env s s';
  quiet_remote : remote s' = remote s;
  quiet_fetches : fetches (trace s') = fetches (trace s);
  quiet_sleeps : sleeps (trace s') = sleeps (trace s)
}.

(** A quiet step that does not hand out an update either. *)
Record steady {PS} (env : Env) (s s' : Sys PS) : Prop := {
  steady_quiet : quiet env s s';
  steady_pstate : pstate s' = pstate s;
  steady_processed : processed (trace s') = processed (trace s)
}.

(** [typeof v === 'object'] and not [null]. *)
Definition is_object (v : JsValue) : bool :=
  match v with
  | JObj _ | JArr _ _ => true
  | JNull | JBool _ | JNum _ | JStr _ => false
  end.

Section CursorAfter.

Variable PS : Type.
Variable onUpdate : Update -> PS -> completion unit * PS.

(** The cursor a batch leaves behind: one past the last update whose
    processing returned, or where it was. *)
Fixpoint cursor_after (batch : list Update) (p : PS) (c : Z) : Z :=
  match batch with
  | [] => c
  | u :: r =>
      match onUpdate u p with
      | (Returns _, p') => cursor_after r p' (update_id u + 1)
      | (_, p') => cursor_after r p' c
      end
  end.

(** The processor's own state after a batch. *)
Fixpoint pstate_after (batch : list Update) (p : PS) : PS :=
  match batch with
  | [] => p
  | u :: r => pstate_after r (snd (onUpdate u p))
  end.

(** The processor always settles: it returns or raises. *)
Definition settles : Prop := forall u p, fst (onUpdate u p) <> Pending.

(** The processor always succeeds. *)
Definition succeeds : Prop := forall u p, fst (onUpdate u p) = Returns tt.

End CursorAfter.

Arguments cursor_after {PS} onUpdate batch p c.
Arguments pstate_after {PS} onUpdate batch p.
Arguments settles {PS} onUpdate.
Arguments succeeds {PS} onUpdate.

(** A response envelope with [ok: true]. *)
Definition ok_batch (batch : list Update) : FetchOutcome :=
  Responds {| ok := true; result_of := batch; description := None |}.

(** A fetch that fails: the promise rejects, or the envelope has
    [ok: false]. *)
Definition fetch_fails (a : FetchOutcome) : bool :=
  match a with
  | Rejects _ => true
  | Responds data => negb (ok data)
  end.

(** The updates of an answer. *)
Definition batch_of (a : FetchOutcome) : list Update :=
  match a with
  | Rejects _ => []
  | Responds data => result_of data
  end.

(** The failure [makeRequest] throws on. *)
Definition fetch_error (a : FetchOutcome) : Error :=
  match a with
  | Rejects e => e
  | Responds data =>
      PlainError ("Telegram API error: "
                    ++ description_or_unknown (description data))%string
  end.

(** The state after [n] turns of the loop body, one after the other. *)
Fixpoint cycles {PS} (onUpdate : Update -> PS -> completion unit * PS)
    (env : Env) (n : nat) (s : Sys PS) : Sys PS :=
  match n with
  | O => s
  | S k => cycles onUpdate env k (snd (iteration onUpdate env s))
  end.

(** One past the largest of the ids seen, the starting cursor [c0] when
    none was seen. *)
Definition max_id_plus_one (c0 : Z) (ids : list Z) : Z :=
  match ids with
  | [] => c0
  | x :: r => fold_left Z.max r x + 1
  end.

(** The ids of the updates of a list of batches, in order. *)
Definition ids_of (batches : list (list Update)) : list Z :=
  map update_id (List.concat batches).

(** Ascending, not necessarily strictly. *)
Fixpoint ascending (l : list Z) : Prop :=
  match l with
  | [] => True
  | x :: r => match r with [] => True | y :: _ => x <= y end /\ ascending r
  end.

(* ================================================================== *)
(** ** The text of numerals and of the state file                    *)
(* ================================================================== *)

(** What [pos_digits] puts in front of its accumulator. *)
Definition numeral_of (n : Z) (d : string) : Prop :=
  all_digits d = true /\ digits_value 0 d = n /\
  exists c r, d = String c r /\ Ascii.eqb c "0" = (n =? 0) /\
              (n = 0 -> r = EmptyString).

(** A character after which a number token cannot go on. *)
Definition ends_number (rest : string) : bool :=
  match rest with
  | String c _ =>
      negb (is_digit c || Ascii.eqb c "." || Ascii.eqb c "e" || Ascii.eqb c "E")
  | EmptyString => true
  end.

(** What [save] writes around the offset of [{ offset: n }]. *)
Definition state_file_prefix : string :=
  "{" ++ ch nl ++ "  " ++ quote "offset" ++ ": ".

Definition state_file_suffix : string := ch nl ++ "}".

(* ================================================================== *)
(** ** Scenarios                                                       *)
(* ================================================================== *)

(** An update that carries nothing but its id. *)
Definition upd (n : Z) : Update :=
  {| update_id := n; message := None; edited_message := None;
     channel_post := None; edited_channel_post := None |}.

(** A disk that works and nobody calling [stop()]. *)
Definition fair_weather : Env :=
  {| fs_fault := fun _ => None; stop_at := fun _ => false |}.

(** A disk on which every operation fails. *)
Definition broken_disk : Env :=
  {| fs_fault := fun _ => Some (MkError "Error" "EIO: i/o error");
     stop_at := fun _ => false |}.

(** [stop()] is called during the suspension numbered [t]. *)
Definition stop_during (t : nat) : Env :=
  {| fs_fault := fun _ => None; stop_at := fun k => Nat.eqb k t |}.

(** The objects as their constructors leave them, no state file yet. *)
Definition constructed (answers : list FetchOutcome) : Sys unit :=
  {| dir_exists := false; file := None; remote := answers; tick := O;
     trace := []; state := BotState 0; isRunning := false; pstate := tt |}.

(** The same after [load()] on a working disk. *)
Definition loaded (answers : list FetchOutcome) : Sys unit :=
  snd (load fair_weather (constructed answers)).

(** The same once [start] has set the flag and enters its loop. *)
Definition running (answers : list FetchOutcome) : Sys unit :=
  snd (start_prologue (loaded answers)).

(** A store whose file holds [data]. *)
Definition with_file (data : string) : Sys unit :=
  {| dir_exists := true; file := Some data; remote := []; tick := O;
     trace := []; state := BotState 0; isRunning := false; pstate := tt |}.

(** A processor that raises on the update numbered [k] only. *)
Definition fails_on (k : Z) (u : Update) (p : unit) : completion unit * unit :=
  if update_id u =? k then (Raises (PlainError "cannot process"), tt)
  else (Returns tt, tt).

Definition always_ok (u : Update) (p : unit) : completion unit * unit :=
  (Returns tt, tt).

(** A processor that notes the id of each update it is called with, in
    its own state, and returns. *)
Definition recorder (u : Update) (p : list Z) : completion unit * list Z :=
  (Returns tt, (p ++ [update_id u])%list).

(** The objects as their constructors leave them, around a processor in
    the state [p]. *)
Definition store_of {PS} (p : PS) (answers : list FetchOutcome) : Sys PS :=
  {| dir_exists := false; file := None; remote := answers; tick := O;
     trace := []; state := BotState 0; isRunning := false; pstate := p |}.

(** [{"offset": -5}] *)
Definition negative_offset_file : string :=
  "{" ++ quote "offset" ++ ": -5}".

Definition connection_refused : FetchOutcome :=
  Rejects (MkError "TypeError" "fetch failed").

Definition unauthorized : FetchOutcome :=
  Responds {| ok := false; result_of := []; description := Some "Unauthorized" |}.

(* ================================================================== *)
(** ** Observations on the collaborators, and scenarios              *)
(* ================================================================== *)

(** The file URLs fetched. *)
Fixpoint downloads (t : list CEvent) : list string :=
  match t with
  | [] => []
  | CFetchFile url :: r => url :: downloads r
  | _ :: r => downloads r
  end.

(** What the guards of [downloadFileById] turn away. *)
Definition rejected (f : File) : Prop :=
  file_path f = None \/ file_path f = Some EmptyString
  \/ exists size, file_size f = Some size /\ TelegramClient.MAX_FILE_SIZE < size.

Module Path.

(** [path.join], [path.dirname] and [path.basename] of Node on POSIX
    ([path.posix]), on byte strings.  Node's [normalizeString] walks the
    characters and keeps the segments between slashes; it is written
    here over those segments. *)

Definition is_slash (c : ascii) : bool := Ascii.eqb c "/".

(** [s.split('/')]: never empty, [""] for the empty string. *)
Fixpoint split_slash (s : string) : list string :=
  match s with
  | EmptyString => [EmptyString]
  | String c r =>
      if is_slash c then EmptyString :: split_slash r
      else
        match split_slash r with
        | w :: ws => String c w :: ws
        | [] => [String c EmptyString]
        end
  end.

(** What one segment does to the segments kept so far (the last one
    first): an empty segment and [.] are dropped; [..] removes the last
    segment, unless there is none or it is [..] itself, and then stays
    only in a relative path; any other segment is kept. *)
Definition step (allowAboveRoot : bool) (kept : list string) (seg : string)
  : list string :=
  if String.eqb seg "" || String.eqb seg "." then kept
  else if String.eqb seg ".." then
    match kept with
    | lastSegment :: before =>
        if String.eqb lastSegment ".."
        then (if allowAboveRoot then ".."%string :: kept else kept)
        else before
    | [] => if allowAboveRoot then [".."%string] else []
    end
  else seg :: kept.

Definition normalizeString (path : string) (allowAboveRoot : bool) : string :=
  JS.join "/" (rev (fold_left (step allowAboveRoot) (split_slash path) [])).

Fixpoint ends_with_slash (s : string) : bool :=
  match s with
  | EmptyString => false
  | String c EmptyString => is_slash c
  | String _ r => ends_with_slash r
  end.

Definition normalize (path : string) : string :=
  match path with
  | EmptyString => "."
  | String c _ =>
      let isAbsolute := is_slash c in
      let trailingSeparator := ends_with_slash path in
      match normalizeString path (negb isAbsolute) with
      | EmptyString =>
          if isAbsolute then "/" else if trailingSeparator then "./" else "."
      | String x core =>
          let kept :=
            if trailingSeparator then (String x core ++ "/")%string
            else String x core in
          if isAbsolute then ("/" ++ kept)%string else kept
      end
  end.

(** [path.join(a, b)] *)
Definition join (a b : string) : string :=
  match a, b with
  | EmptyString, EmptyString => "."
  | EmptyString, String _ _ => normalize b
  | String _ _, EmptyString => normalize a
  | String _ _, String _ _ => normalize (a ++ "/" ++ b)%string
  end.

Fixpoint last_nonempty (segments : list string) : string :=
  match segments with
  | [] => EmptyString
  | x :: r =>
      match last_nonempty r with
      | EmptyString => x
      | String c y => String c y
      end
  end.

(** [path.basename(path)]: the last segment that is not empty. *)
Definition basename (path : string) : string :=
  last_nonempty (split_slash path).

Fixpoint drop_while (f : ascii -> bool) (l : list ascii) : list ascii :=
  match l with
  | [] => []
  | c :: r => if f c then drop_while f r else l
  end.

(** [path.dirname(path)]: from the end and down to the second character,
    the slashes at the end are passed over, then the last segment; the
    slash found next ends the result. *)
Definition dirname (path : string) : string :=
  match path with
  | EmptyString => "."
  | String c0 rest =>
      let hasRoot := is_slash c0 in
      match drop_while (fun c => negb (is_slash c))
              (drop_while is_slash (rev (list_ascii_of_string rest))) with
      | [] => if hasRoot then "/" else "."
      | _ :: [] => if hasRoot then "//" else String c0 EmptyString
      | _ :: before => String c0 (string_of_list_ascii (rev before))
      end
  end.

End Path.

(** A platform on which everything works and [getFile] answers [f];
    its paths are those of Node on POSIX. *)
Definition lab (f : File) : Platform :=
  {| sendMessage_answer :=
       fun _ => Responds {| ok := true; result_of := tt; description := None |};
     getFile_answer :=
       fun _ => Responds {| ok := true; result_of := f; description := None |};
     file_answer := fun _ => FileResponse true "OK" "content";
     mkdir_fault := fun _ => None;
     writeFile_fault := fun _ => None;
     tmpdir := "/tmp";
     Date_now := fun _ => 1700000000000;
     path_join := Path.join;
     path_dirname := Path.dirname;
     path_basename := Path.basename |}.

Definition idle : CState := {| calls := O; ctrace := [] |}.

(** A [getFile] result whose [file_path] is present and empty. *)
Definition empty_path_file : File :=
  {| file_id := "file-789"; file_unique_id := "unique-789";
     file_size := Some 512; file_path := Some EmptyString |}.

Definition max_size_file : File :=
  {| file_id := "max-file"; file_unique_id := "unique-max";
     file_size := Some (20 * 1024 * 1024);
     file_path := Some "documents/max.pdf" |}.

Definition stranger : User :=
  {| user_id := 999; is_bot := false; first_name := "Eve"; last_name := None;
     username := Some "eve"; language_code := None |}.

Definition a_chat : Chat :=
  {| chat_id := 999; chat_type := private; chat_title := None;
     chat_username := None |}.

Definition a_document : Document :=
  {| file_name := "report.pdf"; mime_type := "application/pdf";
     doc_file_id := "doc-1"; doc_file_unique_id := "doc-u1";
     doc_file_size := 1024 |}.

(** A message with a document and a command, from [sender]. *)
Definition a_message (sender : option User) : Message :=
  {| message_id := 1; from := sender; chat := a_chat; date := 0;
     text := Some "/start"; photo := None; document := Some a_document |}.

(* ================================================================== *)
(** ** [UpdateHandler], and further observations                     *)
(* ================================================================== *)

Module UpdateHandler.

(** [src/handlers/UpdateHandler.ts]: the first of the four message slots
    that is filled goes to the message handler. *)
Definition handle (pf : Platform) (client : TelegramClient.t)
    (messageHandler : MessageHandler.t) (update : Update) : C unit :=
  clog DEBUG "UpdateHandler"
    ("Processing update " ++ int_string (update_id update))%string None ;;
  match message update with
  | Some m => MessageHandler.handle pf client messageHandler m
  | None =>
      match edited_message update with
      | Some m => MessageHandler.handle pf client messageHandler m
      | None =>
          match channel_post update with
          | Some m => MessageHandler.handle pf client messageHandler m
          | None =>
              match edited_channel_post update with
              | Some m => MessageHandler.handle pf client messageHandler m
              | None =>
                  clog WARN "UpdateHandler"
                    ("Unhandled update type for update "
                       ++ int_string (update_id update))%string None
              end
          end
      end
  end.

End UpdateHandler.

(** The updates handed out and the state files written, in order. *)
Definition steps : list Event -> list Event :=
  select (fun e => match e with
                   | EvProcess _ | EvWriteFile _ => Some e
                   | _ => None
                   end).

(** A new process on the same disk: the constructors run again. *)
Definition restart {PS} (s : Sys PS) : Sys PS :=
  set_isRunning false (set_state (BotState 0) s).

(** The disk works from the suspension numbered [t] on. *)
Definition no_fault_from (env : Env) (t : nat) : Prop :=
  forall k, (t <= k)%nat -> fs_fault env k = None.

(** Nobody ever calls [stop()]. *)
Definition never_stopped (env : Env) : Prop := forall t, stop_at env t = false.

(** The command callbacks invoked: command word and arguments. *)
Fixpoint callbacks (t : list CEvent) : list (string * list string) :=
  match t with
  | [] => []
  | CCallback command args :: r => (command, args) :: callbacks r
  | _ :: r => callbacks r
  end.

(** The files written (or tried): path and content. *)
Fixpoint writes (t : list CEvent) : list (string * string) :=
  match t with
  | [] => []
  | CWriteFile path body :: r => (path, body) :: writes r
  | _ :: r => writes r
  end.

(** The file ids [getFile] was asked for. *)
Fixpoint file_requests (t : list CEvent) : list string :=
  match t with
  | [] => []
  | CGetFile id :: r => id :: file_requests r
  | _ :: r => file_requests r
  end.

(** The value of [ALLOWED_USER_ID] leaves the gate open: unset, empty,
    not a number for [parseInt], or zero. *)
Definition gate_off (v : option string) : Prop :=
  match v with
  | None => True
  | Some str => str = EmptyString \/ parseInt10 str = None \/ parseInt10 str = Some 0
  end.

(** The reported size of a photo, when it is there and not zero. *)
Definition known_size (p : PhotoSize) : option Z :=
  match photo_file_size p with
  | Some n => if n =? 0 then None else Some n
  | None => None
  end.

(** A plain text message: no document, no photo, text [txt]. *)
Definition text_message (sender : option User) (room : Chat) (txt : string)
  : Message :=
  {| message_id := 1; from := sender; chat := room; date := 0;
     text := Some txt; photo := None; document := None |}.

(** The disk fails during the suspension numbered [t] only. *)
Definition hiccup (t : nat) : Env :=
  {| fs_fault := fun k => if Nat.eqb k t
                          then Some (MkError "Error" "EIO: i/o error") else None;
     stop_at := fun _ => false |}.

Definition a_photo (id : string) (w h : Z) (size : option Z) : PhotoSize :=
  {| photo_file_id := id; photo_file_unique_id := id; width := w; height := h;
     photo_file_size := size |}.

(** A [getFile] result above the limit. *)
Definition oversized_file : File :=
  {| file_id := "large-file"; file_unique_id := "unique-large";
     file_size := Some (20 * 1024 * 1024 + 1);
     file_path := Some "documents/large.pdf" |}.

(** A document message without text. *)
Definition document_message (sender : option User) : Message :=
  {| message_id := 2; from := sender; chat := a_chat; date := 0;
     text := None; photo := None; document := Some a_document |}.

(** A command callback that only raises. *)
Definition raising_callback : CommandHandler.CommandCallback :=
  fun _ _ _ => throw (PlainError "callback failed").

Module Bot.

(** [src/core/Bot.ts], the processor [start] gives to the polling
    service: [async (update) => { await this.updateHandler.handle(update) }]. *)
Definition onUpdate (pf : Platform) (client : TelegramClient.t)
    (messageHandler : MessageHandler.t)
  : Update -> CState -> completion unit * CState :=
  fun update => UpdateHandler.handle pf client messageHandler update.

End Bot.

Definition is_effect (e : CEvent) : bool :=
  match e with
  | CLog _ _ _ _ | CConsoleDir _ => false
  | _ => true
  end.

(** What was done to the network, the disk and the callbacks, in order:
    the trace without what was only printed. *)
Definition effects (t : list CEvent) : list CEvent := filter is_effect t.

(** The answer to a Bot API call is a failure. *)
Definition refused {T} (a : HttpAnswer T) : Prop :=
  match a with
  | Rejects _ => True
  | Responds data => ok data = false
  end.

(** An update whose [message] slot holds [m]. *)
Definition message_update (id : Z) (m : Message) : Update :=
  {| update_id := id; message := Some m; edited_message := None;
     channel_post := None; edited_channel_post := None |}.

(** A handler that lets only the user [id] in, with an empty command
    table. *)
Definition guarded (id : Z) : MessageHandler.t :=
  {| MessageHandler.commandHandler := {| CommandHandler.commands := [] |};
     MessageHandler.allowedUserId := MessageHandler.IdNum id |}.

(** A handler that lets everybody in. *)
Definition open_house (table : CommandHandler.t) : MessageHandler.t :=
  {| MessageHandler.commandHandler := table;
     MessageHandler.allowedUserId := MessageHandler.IdNull |}.

(** The platform [lab f] with the Bot API refusing every [sendMessage]. *)
Definition muted (f : File) : Platform :=
  {| sendMessage_answer := fun _ => Rejects (MkError "TypeError" "fetch failed");
     getFile_answer := getFile_answer (lab f);
     file_answer := file_answer (lab f);
     mkdir_fault := mkdir_fault (lab f);
     writeFile_fault := writeFile_fault (lab f);
     tmpdir := tmpdir (lab f);
     Date_now := Date_now (lab f);
     path_join := path_join (lab f);
     path_dirname := path_dirname (lab f);
     path_basename := path_basename (lab f) |}.

(** The core as constructed, with the collaborators in the state [p]. *)
Definition hosting (p : CState) : Sys CState :=
  {| dir_exists := false; file := None; remote := []; tick := O;
     trace := []; state := BotState 0; isRunning := false; pstate := p |}.

Definition a_client : TelegramClient.t := TelegramClient.constructor "TOKEN".

(** The path functions of the platform are those of Node on POSIX. *)
Definition posix (pf : Platform) : Prop :=
  (forall a b, path_join pf a b = Path.join a b)
  /\ (forall p, path_dirname pf p = Path.dirname p)
  /\ (forall p, path_basename pf p = Path.basename p).

(** No slash in the string. *)
Fixpoint slashless (s : string) : bool :=
  match s with
  | EmptyString => true
  | String c r => negb (Path.is_slash c) && slashless r
  end.

(** The name of a file or of a directory: not empty, not [.] or [..],
    no slash. *)
Definition proper (seg : string) : bool :=
  negb (String.eqb seg "" || String.eqb seg "." || String.eqb seg "..")
  && slashless seg.

(** A directory as [os.tmpdir()] gives it: absolute, made of names, no
    slash at the end. *)
Definition clean_dir (d : string) : bool :=
  match d with
  | String c r => Path.is_slash c && forallb proper (Path.split_slash r)
  | EmptyString => false
  end.

(** A [getFile] result whose path lies in directories. *)
Definition nested_path_file : File :=
  {| file_id := "file-456"; file_unique_id := "unique-456";
     file_size := Some 2048; file_path := Some "documents/2024/report.pdf" |}.

(** A table whose only command, [/start], has a callback that raises. *)
Definition failing_table : CommandHandler.t :=
  {| CommandHandler.commands :=
       [("start"%string,
         {| CommandHandler.callback := raising_callback;
            CommandHandler.cmd_description := "always fails" |})] |}.

(** A message that carries the photo sizes [sizes] and no text. *)
Definition photo_message (sizes : list PhotoSize) : Message :=
  {| message_id := 3; from := Some stranger; chat := a_chat; date := 0;
     text := None; photo := Some sizes; document := None |}.

(** A callback that answers [hi]. *)
Definition greeting (pf : Platform) : CommandHandler.CommandCallback :=
  fun _ message _ =>
    TelegramClient.sendMessage pf (chat_id (chat message)) "hi".

(* ================================================================== *)
(** ** Facts about numerals and the JSON round trip of the state file  *)
(* ================================================================== *)

Local Open Scope string_scope.
Local Open Scope Z_scope.

Section Numerals.

Lemma append_assoc (a b c : string) : (a ++ b) ++ c = a ++ (b ++ c).
Proof. induction a as [|x a IH]; simpl; [reflexivity | now rewrite IH]. Qed.

Lemma append_nil_r (a : string) : a ++ EmptyString = a.
Proof. induction a as [|x a IH]; simpl; [reflexivity | now rewrite IH]. Qed.

Lemma digit_cases (d : Z) :
  0 <= d < 10 ->
  d = 0 \/ d = 1 \/ d = 2 \/ d = 3 \/ d = 4 \/ d = 5 \/ d = 6 \/ d = 7 \/ d = 8 \/ d = 9.
Proof. lia. Qed.

Lemma digit_char_is_digit (d : Z) : 0 <= d < 10 -> is_digit (digit_char d) = true.
Proof.
  intros H; destruct (digit_cases d H) as [E|[E|[E|[E|[E|[E|[E|[E|[E|E]]]]]]]]];
    subst d; reflexivity.
Qed.

Lemma digit_val_char (d : Z) : 0 <= d < 10 -> digit_val (digit_char d) = d.
Proof.
  intros H; destruct (digit_cases d H) as [E|[E|[E|[E|[E|[E|[E|[E|[E|E]]]]]]]]];
    subst d; reflexivity.
Qed.

Lemma digit_char_zero (d : Z) :
  0 <= d < 10 -> Ascii.eqb (digit_char d) "0" = (d =? 0).
Proof.
  intros H; destruct (digit_cases d H) as [E|[E|[E|[E|[E|[E|[E|[E|[E|E]]]]]]]]];
    subst d; reflexivity.
Qed.

Lemma all_digits_app (a b : string) :
  all_digits (a ++ b) = all_digits a && all_digits b.
Proof.
  induction a as [|x a IH]; simpl; [reflexivity |].
  rewrite IH. now rewrite andb_assoc.
Qed.

Lemma digits_value_app (a b : string) (acc : Z) :
  digits_value acc (a ++ b) = digits_value (digits_value acc a) b.
Proof. revert acc; induction a as [|x a IH]; intros acc; simpl; auto. Qed.

Lemma pos_digits_spec (fuel : nat) :
  forall n acc, 0 <= n < 2 ^ Z.of_nat fuel -> fuel <> O ->
    exists d, pos_digits fuel n acc = d ++ acc /\ numeral_of n d.
Proof.
  induction fuel as [|f IH]; intros n acc Hn Hfuel.
  - congruence.
  - cbn [pos_digits].
    assert (Hm : 0 <= n mod 10 < 10) by (apply Z.mod_pos_bound; lia).
    destruct (Z.ltb_spec n 10) as [Hlt|Hge].
    + exists (ch (digit_char n)). rewrite Z.mod_small by lia.
      split; [reflexivity |]. unfold numeral_of.
      cbn [ch all_digits digits_value].
      rewrite digit_char_is_digit, digit_val_char by lia.
      repeat split; try reflexivity; try lia.
      exists (digit_char n), EmptyString.
      rewrite digit_char_zero by lia. auto.
    + assert (Hq : 0 <= n / 10 < 2 ^ Z.of_nat f).
      { split; [apply Z.div_pos; lia |].
        rewrite Nat2Z.inj_succ, Z.pow_succ_r in Hn by lia.
        apply Z.div_lt_upper_bound; lia. }
      assert (Hf : f <> O).
      { intros ->. simpl in Hq. assert (1 <= n / 10) by
          (apply Z.div_le_lower_bound; lia). lia. }
      destruct (IH (n / 10) (String (digit_char (n mod 10)) acc) Hq Hf)
        as (d & Hd & Hall & Hval & c & r & Hc & Hz & _).
      exists (d ++ ch (digit_char (n mod 10))).
      split; [rewrite Hd, append_assoc; reflexivity |].
      unfold numeral_of. rewrite all_digits_app, digits_value_app, Hall, Hval.
      cbn [ch all_digits digits_value andb].
      rewrite digit_char_is_digit, digit_val_char by lia.
      repeat split; [pose proof (Z.div_mod n 10); lia |].
      exists c, (r ++ ch (digit_char (n mod 10))). subst d. cbn [append].
      assert (1 <= n / 10) by (apply Z.div_le_lower_bound; lia).
      repeat split; [| lia].
      rewrite Hz. destruct (Z.eqb_spec (n / 10) 0), (Z.eqb_spec n 0); lia.
Qed.

Lemma nat_string_spec (n : Z) : 0 <= n -> numeral_of n (nat_string n).
Proof.
  intros Hn. unfold nat_string.
  assert (Hb : 0 <= n < 2 ^ Z.of_nat (S (Z.to_nat (Z.log2 n)))).
  { split; [assumption |].
    rewrite Nat2Z.inj_succ, Z2Nat.id by apply Z.log2_nonneg.
    destruct (Z.eq_dec n 0) as [->|Hnz]; [reflexivity |].
    apply Z.log2_spec; lia. }
  destruct (pos_digits_spec _ n EmptyString Hb) as (d & Hd & Hspec);
    [discriminate |].
  rewrite Hd, append_nil_r. exact Hspec.
Qed.

Lemma span_digits_app (d rest : string) :
  all_digits d = true -> ends_number rest = true ->
  span_digits (d ++ rest) = (d, rest).
Proof.
  intros Hd Hr. induction d as [|x d IH]; simpl in *.
  - destruct rest as [|c r]; [reflexivity |]. simpl in Hr |- *.
    destruct (is_digit c); [discriminate | reflexivity].
  - apply andb_true_iff in Hd as [Hx Hd]. rewrite Hx, IH by assumption.
    reflexivity.
Qed.

Lemma lex_tail (rest : string) :
  ends_number rest = true ->
  lex_frac rest = Some (EmptyString, rest) /\ lex_exp rest = Some (0, rest).
Proof.
  intros Hr. destruct rest as [|c r]; [split; reflexivity |].
  simpl in Hr. apply negb_true_iff in Hr.
  apply orb_false_iff in Hr as [Hr HE].
  apply orb_false_iff in Hr as [Hr He].
  apply orb_false_iff in Hr as [_ Hdot].
  unfold lex_frac, lex_exp. rewrite Hdot, He, HE. split; reflexivity.
Qed.

Lemma lex_int_numeral (n : Z) (d rest : string) :
  numeral_of n d -> ends_number rest = true ->
  lex_int (d ++ rest) = Some (d, rest).
Proof.
  intros (Hall & _ & c & r & -> & Hz & Hr) Hrest.
  cbn [append lex_int]. rewrite Hz.
  destruct (Z.eqb_spec n 0) as [E|E].
  - apply Ascii.eqb_eq in Hz. subst c. rewrite (Hr E). reflexivity.
  - simpl in Hall. apply andb_true_iff in Hall as [Hc Hall]. rewrite Hc.
    change (String c (r ++ rest)) with (String c r ++ rest).
    rewrite span_digits_app; [reflexivity | simpl; now rewrite Hc | assumption].
Qed.

Lemma lex_number_nat (n : Z) (rest : string) :
  0 <= n -> ends_number rest = true ->
  lex_number (nat_string n ++ rest) = Some (NInt n, rest).
Proof.
  intros Hn Hrest. pose proof (nat_string_spec n Hn) as Hspec.
  pose proof (lex_int_numeral n _ rest Hspec Hrest) as Hint.
  destruct Hspec as (Hall & Hval & c & r & Hd & Hz & Hr).
  destruct (lex_tail rest Hrest) as [Hf He].
  unfold lex_number. rewrite Hd in *. cbn [append].
  assert (Hminus : Ascii.eqb c "-" = false).
  { simpl in Hall. apply andb_true_iff in Hall as [Hc _].
    destruct (Ascii.eqb_spec c "-") as [->|]; [discriminate | reflexivity]. }
  rewrite Hminus. cbn [append] in Hint. rewrite Hint, Hf, He.
  rewrite append_nil_r, Hval. simpl. unfold make_number. simpl.
  now rewrite Z.mul_1_r.
Qed.

Lemma lex_number_int (z : Z) (rest : string) :
  ends_number rest = true ->
  lex_number (int_string z ++ rest) = Some (NInt z, rest).
Proof.
  intros Hrest. unfold int_string.
  destruct (Z.ltb_spec z 0) as [Hneg|Hpos]; [| now apply lex_number_nat].
  assert (Hn : 0 <= - z) by lia.
  pose proof (nat_string_spec _ Hn) as Hspec.
  pose proof (lex_int_numeral _ _ rest Hspec Hrest) as Hint.
  destruct Hspec as (Hall & Hval & c & r & Hd & Hz & Hr).
  destruct (lex_tail rest Hrest) as [Hf He].
  unfold lex_number. cbn [append]. simpl (Ascii.eqb "-" "-").
  cbv iota. rewrite Hint, Hf, He, append_nil_r, Hval.
  simpl. unfold make_number. simpl. f_equal. f_equal. f_equal. lia.
Qed.

(** The first character of a numeral tells [parse_value] it is a number. *)
Lemma int_string_head (z : Z) :
  exists c r, int_string z = String c r /\
              (Ascii.eqb c "-" || is_digit c) = true.
Proof.
  unfold int_string. destruct (Z.ltb_spec z 0) as [Hneg|Hpos].
  - eexists _, _. split; reflexivity.
  - destruct (nat_string_spec z Hpos) as (Hall & _ & c & r & Hd & _).
    exists c, r. split; [assumption |]. rewrite Hd in Hall. simpl in Hall.
    apply andb_true_iff in Hall as [-> _]. apply orb_true_r.
Qed.

End Numerals.

Section RoundTrip.

Lemma stringify_BotState (n : Z) :
  JSON_stringify (JObj [("offset", JNum (NInt n))])
  = state_file_prefix ++ int_string n ++ state_file_suffix.
Proof.
  unfold JSON_stringify, state_file_prefix, state_file_suffix.
  cbn -[int_string]. rewrite append_assoc. reflexivity.
Qed.

(** [parse_value] on a number token after one blank. *)
Lemma parse_value_number (f : nat) (c : ascii) (r rest : string) (n : number) :
  (Ascii.eqb c "-" || is_digit c) = true ->
  lex_number (String c r) = Some (n, rest) ->
  parse_value (S f) (String " " (String c r)) = Some (JNum n, rest).
Proof.
  intros Hc Hlex.
  assert (Hws : is_ws c = false).
  { unfold is_ws.
    destruct (Ascii.eqb_spec c " ") as [->|_]; [discriminate |].
    destruct (Ascii.eqb_spec c "009") as [->|_]; [discriminate |].
    destruct (Ascii.eqb_spec c "010") as [->|_]; [discriminate |].
    destruct (Ascii.eqb_spec c "013") as [->|_]; [discriminate |].
    reflexivity. }
  assert (Hb : Ascii.eqb c "{" = false /\ Ascii.eqb c "[" = false
               /\ Ascii.eqb c dquote = false).
  { destruct (Ascii.eqb_spec c "{") as [->|_]; [discriminate |].
    destruct (Ascii.eqb_spec c "[") as [->|_]; [discriminate |].
    destruct (Ascii.eqb_spec c dquote) as [->|_]; [discriminate |].
    repeat split. }
  destruct Hb as (Hb1 & Hb2 & Hb3).
  cbn [parse_value].
  change (skip_ws (String " " (String c r)))
    with (if is_ws c then skip_ws r else String c r).
  rewrite Hws, Hb1, Hb2, Hb3, Hc, Hlex. reflexivity.
Qed.

(** [parse_members] on the one member of the state file. *)
Lemma parse_members_offset (f : nat) (tail : string) :
  parse_members (S f) []
    (String nl (String " " (String " " (String dquote
       ("offset" ++ String dquote (String ":" tail))))))
  = match parse_value f tail with
    | None => None
    | Some (v, r3) =>
        match skip_ws r3 with
        | EmptyString => None
        | String d r4 =>
            if Ascii.eqb d ","
            then parse_members f (define_prop "offset" v []) r4
            else if Ascii.eqb d "}" then Some (define_prop "offset" v [], r4)
            else None
        end
    end.
Proof. reflexivity. Qed.

Lemma parse_BotState (n : Z) :
  JSON_parse (state_file_prefix ++ int_string n ++ state_file_suffix)
  = Ok (JObj [("offset", JNum (NInt n))]).
Proof.
  unfold JSON_parse.
  set (text := state_file_prefix ++ int_string n ++ state_file_suffix).
  assert (Hfuel : exists f, (2 * String.length text + 2 = S (S (S f)))%nat).
  { exists (2 * String.length text - 1)%nat.
    assert (1 <= String.length text)%nat by (subst text; cbn; lia). lia. }
  destruct Hfuel as [f ->]. subst text.
  destruct (int_string_head n) as (c & r & Hhead & Hc).
  pose proof (lex_number_int n state_file_suffix eq_refl) as Hlex.
  rewrite Hhead in Hlex. cbn [append] in Hlex.
  let v := eval vm_compute in state_file_prefix in
    change state_file_prefix with v.
  rewrite Hhead. cbn [append].
  change (parse_value (S (S (S f))) (String "{" ?t)) with
    (match parse_members (S (S f)) [] t with
     | Some (ps, rest) => Some (JObj ps, rest)
     | None => None
     end).
  pose proof (parse_members_offset (S f)
                (String " " (String c (r ++ state_file_suffix)))) as Hmem.
  cbn [append] in Hmem. unfold nl, dquote in Hmem. rewrite Hmem.
  rewrite (parse_value_number f c _ _ _ Hc Hlex).
  reflexivity.
Qed.

(** What [save] writes for [{ offset: n }] reads back as [{ offset: n }]. *)
Lemma parse_stringify_BotState (n : Z) :
  JSON_parse (JSON_stringify (JObj [("offset", JNum (NInt n))]))
  = Ok (JObj [("offset", JNum (NInt n))]).
Proof. rewrite stringify_BotState. apply parse_BotState. Qed.

End RoundTrip.

Local Open Scope list_scope.

(* ================================================================== *)
(** ** Facts about the steps of the core                               *)
(* ================================================================== *)

Lemma select_app {A} (pick : Event -> option A) (a b : list Event) :
  select pick (a ++ b) = select pick a ++ select pick b.
Proof.
  induction a as [|e a IH]; simpl; [reflexivity |].
  destruct (pick e); simpl; now rewrite IH.
Qed.

Ltac unfold_core :=
  unfold load, setOffset, getOffset, save,
    ensureDirectoryExists, existsSync_dir, existsSync_statePath,
    mkdir, writeFile, readFile, sleep, suspend, stop, log, emit, now,
    get_state, put_state, try_catch, bind, ret, throw, lift,
    set_dir_exists, set_file, set_remote, set_tick, set_trace, set_state,
    set_isRunning, set_pstate in *.

Ltac case_split :=
  repeat (cbn;
          match goal with
          | |- context [dir_exists ?s] =>
              is_var s; destruct (dir_exists s) eqn:?
          | |- context [file ?s] =>
              is_var s; destruct (file s) eqn:?
          | |- context [stop_at ?e ?t] => destruct (stop_at e t) eqn:?
          | |- context [fs_fault ?e ?t] => destruct (fs_fault e t) eqn:?
          end).

Ltac conj_split := repeat match goal with |- _ /\ _ => split end.

Ltac stop_contra :=
  let H := fresh in
  intros H;
  match goal with
  | Hs : stop_at _ ?t = true |- _ => rewrite H in Hs by lia; discriminate
  end.

Ltac calm_tac :=
  constructor; unfold no_stop_between; cbn;
  try reflexivity; try lia; try congruence; auto; try stop_contra;
  try (eexists; rewrite <- ?app_assoc; reflexivity);
  try (exists []; rewrite app_nil_r; reflexivity).

Ltac select_tac :=
  cbn; unfold processed, fetches, sleeps, disk_ops, logged;
  rewrite ?select_app; cbn; rewrite ?app_nil_r;
  try reflexivity; try congruence; auto.

Ltac quiet_tac := constructor; [calm_tac | ..]; select_tac.

Ltac steady_tac := constructor; [quiet_tac | ..]; select_tac.

Section CoreFacts.

Variable PS : Type.
Variable onUpdate : Update -> PS -> completion unit * PS.
Variable env : Env.

Lemma calm_refl (s : Sys PS) : calm env s s.
Proof. constructor; auto. exists []. now rewrite app_nil_r. Qed.

Lemma calm_trans (s1 s2 s3 : Sys PS) :
  calm env s1 s2 -> calm env s2 s3 -> calm env s1 s3.
Proof.
  intros [T1 S1 R1 [l1 L1]] [T2 S2 R2 [l2 L2]]. constructor; [lia | auto | |].
  - intros H. unfold no_stop_between in *.
    rewrite R2, R1; auto; intros t Ht; apply H; lia.
  - exists (l1 ++ l2). now rewrite L2, L1, app_assoc.
Qed.

Lemma calm_In (s s' : Sys PS) (e : Event) :
  calm env s s' -> In e (trace s) -> In e (trace s').
Proof.
  intros [_ _ _ [l Hl]] H. rewrite Hl. apply in_or_app. now left.
Qed.

Lemma quiet_refl (s : Sys PS) : quiet env s s.
Proof. constructor; auto using calm_refl. Qed.

Lemma quiet_trans (s1 s2 s3 : Sys PS) :
  quiet env s1 s2 -> quiet env s2 s3 -> quiet env s1 s3.
Proof.
  intros [] []. constructor; try congruence. eapply calm_trans; eauto.
Qed.

Lemma steady_refl (s : Sys PS) : steady env s s.
Proof. constructor; auto using quiet_refl. Qed.

Lemma steady_trans (s1 s2 s3 : Sys PS) :
  steady env s1 s2 -> steady env s2 s3 -> steady env s1 s3.
Proof.
  intros [] []. constructor; try congruence. eapply quiet_trans; eauto.
Qed.

Lemma suspend_spec (s : Sys PS) :
  exists s', suspend env s = (Returns tt, s') /\ steady env s s'
    /\ state s' = state s /\ file s' = file s /\ dir_exists s' = dir_exists s
    /\ tick s' = S (tick s)
    /\ disk_ops (trace s') = disk_ops (trace s)
    /\ (stop_at env (tick s) = true -> isRunning s' = false).
Proof.
  unfold_core. case_split; eexists; (split; [reflexivity |]);
    (split; [steady_tac |]); cbn; unfold disk_ops; rewrite ?select_app; cbn;
    rewrite ?app_nil_r; repeat split; congruence.
Qed.

Lemma save_spec (s : Sys PS) :
  exists s', save env s = (Returns tt, s') /\ steady env s s'
    /\ state s' = state s
    /\ (no_fault env ->
        file s' = Some (JSON_stringify (state s)) /\ dir_exists s' = true
        /\ disk_ops (trace s')
           = disk_ops (trace s)
               ++ (if dir_exists s then [] else [EvMkdir])
               ++ [EvWriteFile (JSON_stringify (state s))]).
Proof.
  unfold no_fault. unfold_core. case_split; eexists;
    (split; [reflexivity |]); (split; [steady_tac |]); (split; [reflexivity |]);
    intros Hnf; try congruence; cbn; unfold disk_ops; rewrite ?select_app; cbn;
    rewrite ?app_nil_r, <- ?app_assoc; repeat split; try congruence.
Qed.

Lemma lookup_replace_prop (k : string) (v : JsValue) ps :
  lookup k ps <> None -> lookup k (replace_prop k v ps) = Some v.
Proof.
  induction ps as [|[k' v'] ps IH]; simpl; [congruence |].
  destruct (String.eqb k k') eqn:E; simpl; rewrite E; auto.
Qed.

Lemma lookup_insert_prop (k : string) (v : JsValue) ps :
  lookup k ps = None -> lookup k (insert_prop k v ps) = Some v.
Proof.
  induction ps as [|[k' v'] ps IH]; simpl.
  - now rewrite String.eqb_refl.
  - destruct (String.eqb k k') eqn:E; [discriminate |]. intros H.
    destruct (array_index k) as [i|]; [destruct (array_index k') as [j|] |];
      try destruct (j <? i); simpl; rewrite ?E, ?String.eqb_refl; auto.
Qed.

Lemma lookup_define_prop (k : string) (v : JsValue) ps :
  lookup k (define_prop k v ps) = Some v.
Proof.
  unfold define_prop, has_own. destruct (lookup k ps) eqn:E.
  - apply lookup_replace_prop. congruence.
  - now apply lookup_insert_prop.
Qed.

(** Assigning the offset to an object always works, and reads back. *)
Lemma assign_offset_object (v : JsValue) (n : Z) :
  is_object v = true ->
  exists v', assign_offset v n = Ok v' /\ is_object v' = true
             /\ read_offset v' = Ok (Some (num n)).
Proof.
  destruct v; try discriminate; intros _; eexists; (split; [reflexivity |]);
    split; try reflexivity; simpl; now rewrite lookup_define_prop.
Qed.

Lemma setOffset_spec (s : Sys PS) (n : Z) :
  is_object (state s) = true ->
  exists s', setOffset env n s = (Returns tt, s') /\ steady env s s'
    /\ assign_offset (state s) n = Ok (state s')
    /\ (no_fault env -> synced s' /\ dir_exists s' = true).
Proof.
  intros Hobj. destruct (assign_offset_object _ n Hobj) as (v' & Hv & _ & _).
  unfold setOffset, bind, get_state, put_state, lift. rewrite Hv. cbn.
  destruct (save_spec (set_state v' s)) as (s' & Hsave & Hst & Hstate & Hdisk).
  exists s'. rewrite Hsave. split; [reflexivity |].
  split; [eapply steady_trans; [| exact Hst]; steady_tac |].
  split; [cbn in Hstate; congruence |].
  intros Hnf. destruct (Hdisk Hnf) as (Hf & Hd & _). unfold synced.
  split; [rewrite Hf, Hstate; reflexivity | assumption].
Qed.

Lemma call_onUpdate_spec (s : Sys PS) (u : Update) :
  exists s', call_onUpdate onUpdate env u s = (fst (onUpdate u (pstate s)), s')
    /\ quiet env s s'
    /\ pstate s' = snd (onUpdate u (pstate s))
    /\ processed (trace s') = processed (trace s) ++ [u]
    /\ state s' = state s /\ file s' = file s /\ dir_exists s' = dir_exists s.
Proof.
  unfold call_onUpdate. unfold_core. cbn.
  destruct (stop_at env (tick s)) eqn:Hstop; cbn;
    destruct (onUpdate u (pstate s)) as [r p]; cbn;
    eexists; (split; [reflexivity |]); (split; [quiet_tac |]);
    repeat split; select_tac.
Qed.

(** One update: the processor is called; the cursor moves when it
    returns, and stays, in memory and on disk, when it raises. *)
Lemma process_update_spec (s : Sys PS) (u : Update) (c : Z) :
  state s = BotState c ->
  fst (onUpdate u (pstate s)) <> Pending ->
  exists s', process_update onUpdate env u s = (Returns tt, s')
    /\ quiet env s s'
    /\ pstate s' = snd (onUpdate u (pstate s))
    /\ processed (trace s') = processed (trace s) ++ [u]
    /\ state s' = BotState (cursor_after onUpdate [u] (pstate s) c)
    /\ (no_fault env -> synced s -> synced s')
    /\ match fst (onUpdate u (pstate s)) with
       | Returns _ => no_fault env -> synced s'
       | _ => file s' = file s /\ dir_exists s' = dir_exists s
              /\ exists e, In (EvLog ERROR "PollingService"
                                 ("Failed to process update "
                                    ++ int_string (update_id u))%string (Some e))
                              (trace s')
       end.
Proof.
  intros Hst Hsettle.
  destruct (call_onUpdate_spec s u)
    as (s1 & Hcall & Hq1 & Hp1 & Hproc1 & Hst1 & Hf1 & Hd1).
  unfold process_update, try_catch, bind. rewrite Hcall.
  cbn [cursor_after].
  destruct (onUpdate u (pstate s)) as [r p] eqn:Hon. cbn [fst snd] in *.
  destruct r as [[]|e|]; [| | congruence].
  - assert (Hobj : is_object (state s1) = true) by (rewrite Hst1, Hst; reflexivity).
    destruct (setOffset_spec s1 (update_id u + 1) Hobj)
      as (s2 & Hset & Hsteady & Hassign & Hdisk).
    rewrite Hset. exists s2. split; [reflexivity |].
    destruct Hsteady as [Hq2 Hp2 Hproc2].
    split; [eapply quiet_trans; eauto |].
    split; [congruence |]. split; [congruence |].
    split; [rewrite Hst1, Hst in Hassign; cbn in Hassign;
            injection Hassign as <-; reflexivity |].
    split; intros Hnf; try intros _; apply (Hdisk Hnf).
  - unfold log, emit. cbn. eexists. split; [reflexivity |].
    split; [eapply quiet_trans; [exact Hq1 | quiet_tac] |].
    cbn. repeat split; try congruence.
    + unfold processed in *. rewrite select_app. cbn. now rewrite app_nil_r.
    + intros _ Hs. unfold synced, set_trace in *. cbn [file state].
      rewrite Hf1, Hst1. exact Hs.
    + exists e. apply in_or_app. right. now left.
Qed.

Lemma cursor_after_cons (u : Update) (r : list Update) (p : PS) (c : Z) :
  cursor_after onUpdate (u :: r) p c
  = cursor_after onUpdate r (snd (onUpdate u p)) (cursor_after onUpdate [u] p c).
Proof.
  cbn [cursor_after]. destruct (onUpdate u p) as [[[]|e|] p']; reflexivity.
Qed.

(** A batch: every update is handed to the processor, in order. *)
Lemma batch_spec (batch : list Update) :
  settles onUpdate ->
  forall (s : Sys PS) (c : Z),
  state s = BotState c ->
  exists s', for_each batch (process_update onUpdate env) s = (Returns tt, s')
    /\ quiet env s s'
    /\ pstate s' = pstate_after onUpdate batch (pstate s)
    /\ processed (trace s') = processed (trace s) ++ batch
    /\ state s' = BotState (cursor_after onUpdate batch (pstate s) c)
    /\ (no_fault env -> synced s -> synced s')
    /\ (no_fault env -> succeeds onUpdate -> batch <> [] -> synced s').
Proof.
  intros Hsettle. induction batch as [|u r IH]; intros s c Hst.
  - exists s. cbn. rewrite app_nil_r. conj_split; auto using quiet_refl.
    congruence.
  - destruct (process_update_spec s u c Hst (Hsettle u (pstate s)))
      as (s1 & Hrun & Hq1 & Hp1 & Hproc1 & Hst1 & Hsync1 & Hcase).
    destruct (IH s1 _ Hst1) as (s2 & Hrun2 & Hq2 & Hp2 & Hproc2 & Hst2 & Hsync2 & Hall2).
    exists s2. cbn [for_each]. unfold bind at 1. rewrite Hrun, Hrun2.
    split; [reflexivity |]. split; [eapply quiet_trans; eauto |].
    split; [cbn [pstate_after]; congruence |].
    split; [rewrite Hproc2, Hproc1, <- app_assoc; reflexivity |].
    split; [rewrite cursor_after_cons, <- Hp1; exact Hst2 |].
    split; [auto |].
    intros Hnf Hsucc _. apply Hsync2; [assumption |].
    rewrite (Hsucc u (pstate s)) in Hcase. auto.
Qed.

Lemma cursor_after_succeeds (batch : list Update) :
  succeeds onUpdate ->
  forall (p : PS) (c d : Z),
  cursor_after onUpdate batch p c
  = match batch with
    | [] => c
    | _ :: _ => last (map update_id batch) d + 1
    end.
Proof.
  intros Hsucc. induction batch as [|u r IH]; intros p c d; [reflexivity |].
  cbn [cursor_after]. pose proof (Hsucc u p) as Hu.
  destruct (onUpdate u p) as [res p']. cbn in Hu. subst res.
  rewrite (IH p' _ d). destruct r; reflexivity.
Qed.

(** One request to the remote. *)
Lemma getUpdates_spec (s : Sys PS) (o : option JsValue) (t l : Z)
    (ans : FetchOutcome) (rest : list FetchOutcome) :
  remote s = ans :: rest ->
  exists s',
    getUpdates env o t l s
    = ((if fetch_fails ans then Raises (fetch_error ans)
        else Returns (batch_of ans)), s')
    /\ calm env s s' /\ remote s' = rest
    /\ trace s' = trace s ++ EvGetUpdates o t l
         :: (if stop_at env (tick s)
             then [EvLog INFO "PollingService" "Polling stopped" None] else [])
         ++ (if fetch_fails ans
             then [EvLog ERROR "TelegramClient" "Failed to call getUpdates"
                     (Some (fetch_error ans))]
             else [])
    /\ pstate s' = pstate s /\ state s' = state s /\ file s' = file s
    /\ dir_exists s' = dir_exists s /\ tick s' = S (tick s)
    /\ (stop_at env (tick s) = true -> isRunning s' = false).
Proof.
  intros Hrem. unfold getUpdates, makeRequest, fetch_getUpdates.
  unfold_core. cbn. destruct (stop_at env (tick s)) eqn:Hstop; cbn;
    rewrite Hrem; destruct ans as [e|[k res d]]; cbn;
    try destruct k; cbn; eexists; (split; [reflexivity |]);
    (split; [calm_tac |]); cbn; rewrite <- ?app_assoc; cbn;
    repeat split; auto; congruence.
Qed.

Lemma getUpdates_pending (s : Sys PS) (o : option JsValue) (t l : Z) :
  remote s = [] ->
  exists s', getUpdates env o t l s = (Pending, s')
    /\ fetches (trace s') = fetches (trace s) ++ [o]
    /\ processed (trace s') = processed (trace s)
    /\ state s' = state s /\ file s' = file s.
Proof.
  intros Hrem. unfold getUpdates, makeRequest, fetch_getUpdates.
  unfold_core. cbn. destruct (stop_at env (tick s)) eqn:Hstop; cbn;
    rewrite Hrem; cbn; eexists; (split; [reflexivity |]); repeat split;
    select_tac.
Qed.

Lemma fetches_getUpdates (t : list Event) (o : option JsValue) (a b : Z)
    (stopped failed : bool) (e : Error) :
  let t' := t ++ EvGetUpdates o a b
              :: (if stopped
                  then [EvLog INFO "PollingService" "Polling stopped" None] else [])
              ++ (if failed
                  then [EvLog ERROR "TelegramClient" "Failed to call getUpdates"
                          (Some e)]
                  else []) in
  fetches t' = fetches t ++ [o] /\ processed t' = processed t
  /\ sleeps t' = sleeps t /\ disk_ops t' = disk_ops t.
Proof.
  destruct stopped, failed; cbn; repeat split; select_tac.
Qed.

(** A turn whose fetch succeeds. *)
Lemma poll_ok_spec (s : Sys PS) (ans : FetchOutcome) (rest : list FetchOutcome)
    (c : Z) :
  remote s = ans :: rest -> fetch_fails ans = false ->
  state s = BotState c -> settles onUpdate ->
  exists s', poll onUpdate env s = (Returns tt, s')
    /\ calm env s s' /\ remote s' = rest
    /\ fetches (trace s') = fetches (trace s) ++ [Some (num c)]
    /\ sleeps (trace s') = sleeps (trace s)
    /\ processed (trace s') = processed (trace s) ++ batch_of ans
    /\ pstate s' = pstate_after onUpdate (batch_of ans) (pstate s)
    /\ state s' = BotState (cursor_after onUpdate (batch_of ans) (pstate s) c)
    /\ (no_fault env -> synced s -> synced s')
    /\ (no_fault env -> succeeds onUpdate -> batch_of ans <> [] -> synced s')
    /\ (stop_at env (tick s) = true -> isRunning s' = false).
Proof.
  intros Hrem Hok Hst Hsettle.
  destruct (getUpdates_spec s (Some (num c)) pollTimeout pollLimit ans rest Hrem)
    as (s1 & Hget & Hc1 & Hrem1 & Htr1 & Hp1 & Hst1 & Hf1 & Hd1 & Ht1 & Hstop1).
  rewrite Hok in Hget.
  destruct (fetches_getUpdates (trace s) (Some (num c)) pollTimeout pollLimit
              (stop_at env (tick s)) (fetch_fails ans) (fetch_error ans))
    as (Hfe & Hpr & Hsl & _).
  rewrite <- Htr1 in Hfe, Hpr, Hsl.
  unfold poll, getOffset, get_state, lift. unfold bind at 1 2. rewrite Hst.
  cbn [read_offset BotState lookup String.eqb Ascii.eqb Bool.eqb ret].
  change (JNum (NInt c)) with (num c). unfold bind at 1. rewrite Hget.
  destruct (batch_of ans) as [|u r] eqn:Hb.
  - exists s1. cbn. rewrite app_nil_r.
    conj_split; auto; try congruence.
  - cbn [List.length Nat.eqb]. unfold log, emit, bind at 1.
    set (s2 := set_trace _ s1).
    assert (Hst2 : state s2 = BotState c) by (cbn; congruence).
    assert (Hp2 : pstate s2 = pstate s) by (cbn; congruence).
    assert (Hf2 : file s2 = file s) by (cbn; congruence).
    assert (Hrem2 : remote s2 = rest) by (cbn; congruence).
    assert (Hrun2 : isRunning s2 = isRunning s1) by reflexivity.
    assert (Hfe2 : fetches (trace s2) = fetches (trace s1)) by (subst s2; select_tac).
    assert (Hsl2 : sleeps (trace s2) = sleeps (trace s1)) by (subst s2; select_tac).
    assert (Hpr2 : processed (trace s2) = processed (trace s1))
      by (subst s2; select_tac).
    assert (Hc2 : calm env s1 s2) by (subst s2; calm_tac).
    clearbody s2.
    destruct (batch_spec (u :: r) Hsettle s2 c Hst2)
      as (s3 & Hrun & Hq & Hp3 & Hproc3 & Hst3 & Hsync3 & Hall3).
    exists s3. rewrite Hrun. destruct Hq as [Hc3 Hrem3 Hfe3 Hsl3].
    conj_split; try congruence; auto.
    + eauto using calm_trans.
    + intros Hnf Hs. apply Hsync3; auto. unfold synced in *. congruence.
    + intros H. destruct Hc3 as [_ Hstopped _ _]. apply Hstopped.
      rewrite Hrun2. auto.
Qed.

(** A turn whose fetch fails: nothing but the request and the log. *)
Lemma poll_fail_spec (s : Sys PS) (ans : FetchOutcome) (rest : list FetchOutcome)
    (o : option JsValue) :
  remote s = ans :: rest -> fetch_fails ans = true ->
  read_offset (state s) = Ok o ->
  exists s', poll onUpdate env s = (Raises (fetch_error ans), s')
    /\ calm env s s' /\ remote s' = rest
    /\ fetches (trace s') = fetches (trace s) ++ [o]
    /\ sleeps (trace s') = sleeps (trace s)
    /\ processed (trace s') = processed (trace s)
    /\ disk_ops (trace s') = disk_ops (trace s)
    /\ In (EvLog ERROR "TelegramClient" "Failed to call getUpdates"
             (Some (fetch_error ans))) (trace s')
    /\ pstate s' = pstate s /\ state s' = state s /\ file s' = file s
    /\ dir_exists s' = dir_exists s /\ tick s' = S (tick s)
    /\ (stop_at env (tick s) = true -> isRunning s' = false).
Proof.
  intros Hrem Hfail Hread.
  destruct (getUpdates_spec s o pollTimeout pollLimit ans rest Hrem)
    as (s1 & Hget & Hc1 & Hrem1 & Htr1 & Hp1 & Hst1 & Hf1 & Hd1 & Ht1 & Hstop1).
  destruct (fetches_getUpdates (trace s) o pollTimeout pollLimit
              (stop_at env (tick s)) (fetch_fails ans) (fetch_error ans))
    as (Hfe & Hpr & Hsl & Hdk).
  rewrite <- Htr1 in Hfe, Hpr, Hsl, Hdk. rewrite Hfail in Hget.
  unfold poll, getOffset, get_state, lift. unfold bind at 1 2. rewrite Hread.
  cbn [ret]. unfold bind at 1. rewrite Hget.
  exists s1. conj_split; auto; try congruence.
  rewrite Htr1, Hfail. apply in_or_app. right. right.
  apply in_or_app. right. now left.
Qed.

(** The turn after a failed fetch: logged, slept on, nothing advanced. *)
Lemma iteration_fail_spec (s : Sys PS) (ans : FetchOutcome)
    (rest : list FetchOutcome) (o : option JsValue) :
  remote s = ans :: rest -> fetch_fails ans = true ->
  read_offset (state s) = Ok o ->
  exists s', iteration onUpdate env s = (Returns tt, s')
    /\ calm env s s' /\ remote s' = rest
    /\ fetches (trace s') = fetches (trace s) ++ [o]
    /\ sleeps (trace s') = sleeps (trace s) ++ [5000]
    /\ processed (trace s') = processed (trace s)
    /\ disk_ops (trace s') = disk_ops (trace s)
    /\ In (EvLog ERROR "PollingService" "Error during polling"
             (Some (fetch_error ans))) (trace s')
    /\ pstate s' = pstate s /\ state s' = state s /\ file s' = file s
    /\ dir_exists s' = dir_exists s
    /\ (stop_at env (tick s) = true -> isRunning s' = false).
Proof.
  intros Hrem Hfail Hread.
  destruct (poll_fail_spec s ans rest o Hrem Hfail Hread)
    as (s1 & Hpoll & Hc1 & Hrem1 & Hfe1 & Hsl1 & Hpr1 & Hdk1 & _ & Hp1 & Hst1
        & Hf1 & Hd1 & Ht1 & Hstop1).
  unfold iteration, try_catch. rewrite Hpoll.
  unfold sleep, log, emit. unfold bind at 1 2. cbn [set_trace trace].
  match goal with
  | |- context [suspend env ?x] =>
      destruct (suspend_spec x)
        as (s2 & Hsus & Hsteady & Hst2 & Hf2 & Hd2 & Ht2 & Hdk2 & Hstop2);
      rewrite Hsus
  end.
  exists s2. split; [reflexivity |].
  destruct Hsteady as [[Hc2 Hrem2 Hfe2 Hsl2] Hp2 Hpr2]. cbn in *.
  split; [eapply calm_trans; [exact Hc1 |]; eapply calm_trans; [| exact Hc2];
          calm_tac |].
  split; [congruence |].
  split; [rewrite Hfe2; select_tac |].
  split; [rewrite Hsl2; unfold sleeps in *; rewrite !select_app; cbn;
          rewrite app_nil_r; congruence |].
  split; [rewrite Hpr2; select_tac |].
  split; [rewrite Hdk2; select_tac |].
  split.
  { eapply calm_In; [exact Hc2 |]. cbn.
    apply in_or_app. left. apply in_or_app. right. now left. }
  conj_split; try congruence.
  intros H. destruct Hc2 as [_ Hstopped _ _]. apply Hstopped. cbn. auto.
Qed.

(** *** The same steps from any state of the store *)

Lemma setOffset_any (s : Sys PS) (n : Z) :
  exists r s', setOffset env n s = (r, s') /\ steady env s s'.
Proof.
  unfold setOffset, bind, get_state, put_state, lift.
  destruct (assign_offset (state s) n) as [v'|e]; cbn.
  - destruct (save_spec (set_state v' s)) as (s' & Hsave & Hst & _).
    rewrite Hsave. exists (Returns tt), s'. split; [reflexivity |].
    eapply steady_trans; [| exact Hst]. steady_tac.
  - exists (Raises e), s. split; [reflexivity | apply steady_refl].
Qed.

Lemma process_update_any (s : Sys PS) (u : Update) :
  exists r s', process_update onUpdate env u s = (r, s') /\ quiet env s s'.
Proof.
  destruct (call_onUpdate_spec s u) as (s1 & Hcall & Hq1 & _).
  unfold process_update, try_catch, bind. rewrite Hcall.
  destruct (fst (onUpdate u (pstate s))) as [[]|e|].
  - destruct (setOffset_any s1 (update_id u + 1)) as (r & s2 & Hset & [Hq2 _ _]).
    rewrite Hset. destruct r as [[]|e|].
    + eexists _, _. split; [reflexivity | eauto using quiet_trans].
    + unfold log, emit. eexists _, _. split; [reflexivity |].
      eapply quiet_trans; [exact Hq1 |]. eapply quiet_trans; [exact Hq2 |].
      quiet_tac.
    + eexists _, _. split; [reflexivity | eauto using quiet_trans].
  - unfold log, emit. eexists _, _. split; [reflexivity |].
    eapply quiet_trans; [exact Hq1 | quiet_tac].
  - eexists _, _. split; [reflexivity | assumption].
Qed.

Lemma for_each_any (batch : list Update) :
  forall s : Sys PS,
  exists r s', for_each batch (process_update onUpdate env) s = (r, s')
               /\ quiet env s s'.
Proof.
  induction batch as [|u b IH]; intros s.
  - exists (Returns tt), s. split; [reflexivity | apply quiet_refl].
  - destruct (process_update_any s u) as (r1 & s1 & H1 & Hq1).
    cbn [for_each]. unfold bind at 1. rewrite H1.
    destruct r1 as [[]|e|]; try (eexists _, _; split; [reflexivity | assumption]).
    destruct (IH s1) as (r2 & s2 & H2 & Hq2). rewrite H2.
    eexists _, _. split; [reflexivity | eauto using quiet_trans].
Qed.

(** Every turn of the loop asks the remote once, with the cursor in
    memory, and never sleeps unless the turn failed. *)
Lemma poll_fetches (s : Sys PS) (o : option JsValue) :
  read_offset (state s) = Ok o ->
  exists r s', poll onUpdate env s = (r, s')
    /\ fetches (trace s') = fetches (trace s) ++ [o]
    /\ sleeps (trace s') = sleeps (trace s).
Proof.
  intros Hread. unfold poll, getOffset, get_state, lift. unfold bind at 1 2.
  rewrite Hread. cbn [ret]. unfold bind at 1.
  destruct (remote s) as [|ans rest] eqn:Hrem.
  - unfold getUpdates, makeRequest, fetch_getUpdates. unfold_core. cbn.
    destruct (stop_at env (tick s)); cbn; rewrite Hrem; cbn;
      eexists _, _; (split; [reflexivity |]); split; select_tac.
  - destruct (getUpdates_spec s o pollTimeout pollLimit ans rest Hrem)
      as (s1 & Hget & _ & _ & Htr1 & _).
    destruct (fetches_getUpdates (trace s) o pollTimeout pollLimit
                (stop_at env (tick s)) (fetch_fails ans) (fetch_error ans))
      as (Hfe & _ & Hsl & _).
    rewrite <- Htr1 in Hfe, Hsl. rewrite Hget.
    destruct (fetch_fails ans).
    { eexists _, _. split; [reflexivity | auto]. }
    destruct (batch_of ans) as [|u b].
    { eexists _, _. split; [reflexivity | auto]. }
    cbn [List.length Nat.eqb]. unfold log, emit, bind at 1.
    match goal with
    | |- context [for_each ?l ?f ?x] =>
        destruct (for_each_any l x) as (r & s2 & Hrun & [_ _ Hfe2 Hsl2]);
        rewrite Hrun
    end.
    cbn in Hfe2, Hsl2. exists r, s2. split; [reflexivity |].
    rewrite Hfe2, Hsl2. unfold fetches, sleeps in *. rewrite !select_app. cbn.
    rewrite !app_nil_r. auto.
Qed.

Lemma iteration_fetches (s : Sys PS) (o : option JsValue) :
  read_offset (state s) = Ok o ->
  fetches (trace (snd (iteration onUpdate env s))) = fetches (trace s) ++ [o].
Proof.
  intros Hread. destruct (poll_fetches s o Hread) as (r & s1 & Hpoll & Hfe & _).
  unfold iteration, try_catch. rewrite Hpoll.
  destruct r as [[]|e|]; cbn [snd]; try assumption.
  unfold sleep, log, emit. unfold bind at 1 2. cbn [set_trace trace].
  match goal with
  | |- context [suspend env ?x] =>
      destruct (suspend_spec x) as (s2 & Hsus & [[_ _ Hfe2 _] _ _] & _);
      rewrite Hsus
  end.
  cbn [snd]. rewrite Hfe2. cbn. unfold fetches in *. rewrite !select_app. cbn.
  rewrite !app_nil_r. assumption.
Qed.

(** *** The loop *)

Lemma loop_stopped (fuel : nat) (s : Sys PS) :
  isRunning s = false -> loop onUpdate env fuel s = Some (Returns tt, s).
Proof. intros H. destruct fuel; cbn; now rewrite H. Qed.

Lemma loop_step (fuel : nat) (s s' : Sys PS) :
  isRunning s = true -> iteration onUpdate env s = (Returns tt, s') ->
  loop onUpdate env (S fuel) s = loop onUpdate env fuel s'.
Proof. intros H Hit. cbn [loop]. now rewrite H, Hit. Qed.

(** *** The disk *)

Lemma persisted_synced (s : Sys PS) (n : Z) :
  synced s -> state s = BotState n -> persisted s = Some (num n).
Proof.
  unfold synced, persisted. intros -> ->. unfold BotState.
  rewrite parse_stringify_BotState. reflexivity.
Qed.

Lemma cursor_BotState (s : Sys PS) (n : Z) :
  state s = BotState n -> cursor s = Some (num n).
Proof. unfold cursor. intros ->. reflexivity. Qed.

(** *** Ascending lists of ids *)

Lemma last_cons (a d : Z) (l : list Z) : last (a :: l) d = last l a.
Proof.
  revert a d. induction l as [|b l IH]; intros a d; [reflexivity |].
  change (last (a :: b :: l) d) with (last (b :: l) d).
  now rewrite (IH b d), (IH b a).
Qed.

Lemma last_app_default (l1 l2 : list Z) (x : Z) :
  last (l1 ++ l2) x = last l2 (last l1 x).
Proof.
  revert x. induction l1 as [|a l1 IH]; intros x; [reflexivity |].
  rewrite <- app_comm_cons, !last_cons. apply IH.
Qed.

Lemma ascending_last_ge (l : list Z) : forall x, ascending (x :: l) -> x <= last l x.
Proof.
  induction l as [|y l IH]; intros x H; [cbn; lia |].
  destruct H as [Hxy H]. rewrite last_cons. specialize (IH y H). lia.
Qed.

Lemma ascending_app_r (l1 l2 : list Z) :
  forall x, ascending (x :: l1 ++ l2) -> ascending (last l1 x :: l2).
Proof.
  induction l1 as [|y l1 IH]; intros x H; [exact H |].
  rewrite last_cons. apply IH. exact (proj2 H).
Qed.

Lemma ascending_app_l (l1 l2 : list Z) : ascending (l1 ++ l2) -> ascending l1.
Proof.
  induction l1 as [|x l1 IH]; intros H; [exact I |].
  destruct H as [Hx H]. split; [| auto].
  destruct l1; [exact I | exact Hx].
Qed.

Lemma ascending_max (l : list Z) :
  forall x, ascending (x :: l) -> fold_left Z.max l x = last l x.
Proof.
  induction l as [|y l IH]; intros x H; [reflexivity |].
  destruct H as [Hxy H]. cbn [fold_left]. rewrite last_cons, Z.max_r by lia.
  now apply IH.
Qed.

Lemma max_id_plus_one_last (c0 : Z) (ids : list Z) :
  ascending (c0 - 1 :: ids) -> last ids (c0 - 1) + 1 = max_id_plus_one c0 ids.
Proof.
  destruct ids as [|x r]; intros H; cbn [max_id_plus_one]; [cbn; lia |].
  rewrite last_cons, ascending_max; [reflexivity | exact (proj2 H)].
Qed.

(** *** Turns of the loop that all succeed *)

Lemma iteration_ok (s s' : Sys PS) :
  poll onUpdate env s = (Returns tt, s') ->
  iteration onUpdate env s = (Returns tt, s').
Proof. intros H. unfold iteration, try_catch. now rewrite H. Qed.

Lemma cycles_run (done : list (list Update)) :
  succeeds onUpdate -> no_fault env ->
  forall (s : Sys PS) (c : Z) (todo : list FetchOutcome),
  remote s = map ok_batch done ++ todo ->
  state s = BotState c -> synced s ->
  let s' := cycles onUpdate env (List.length done) s in
  state s' = BotState (last (ids_of done) (c - 1) + 1)
  /\ synced s' /\ remote s' = todo
  /\ processed (trace s') = processed (trace s) ++ List.concat done.
Proof.
  intros Hsucc Hnf.
  assert (Hsettle : settles onUpdate).
  { intros u p. rewrite Hsucc. discriminate. }
  induction done as [|b d IH]; intros s c todo Hrem Hst Hsync.
  - cbn. rewrite app_nil_r. conj_split; auto.
    rewrite Hst. f_equal. lia.
  - cbn [map app] in Hrem.
    destruct (poll_ok_spec s (ok_batch b) _ c Hrem eq_refl Hst Hsettle)
      as (s1 & Hpoll & _ & Hrem1 & _ & _ & Hproc1 & _ & Hst1 & Hsync1 & _).
    cbn [batch_of ok_batch result_of] in *.
    rewrite (cursor_after_succeeds b Hsucc _ _ (c - 1)) in Hst1.
    cbn [List.length cycles]. rewrite (iteration_ok s s1 Hpoll). cbn [snd].
    destruct (IH s1 _ todo Hrem1 Hst1 (Hsync1 Hnf Hsync))
      as (Hst' & Hsync' & Hrem' & Hproc').
    conj_split; auto.
    + rewrite Hst'. f_equal. f_equal. unfold ids_of. cbn [List.concat].
      rewrite map_app, last_app_default. f_equal.
      destruct b as [|u r]; [cbn; lia |]. lia.
    + rewrite Hproc', Hproc1. cbn [List.concat]. now rewrite app_assoc.
Qed.

(** *** [load] *)


Lemma load_missing (s : Sys PS) :
  file s = None ->
  exists s' l, load env s = (Returns tt, s') /\ trace s' = trace s ++ l
    /\ (state s' = state s \/ state s' = BotState 0)
    /\ (In (EvLog INFO "StateManager" "Created new state file" None) l
        \/ exists e, In (EvLog ERROR "StateManager" "Failed to load state" (Some e)) l)
    /\ (no_fault env ->
        state s' = state s
        /\ file s' = Some (JSON_stringify (state s)) /\ dir_exists s' = true
        /\ disk_ops l = (if dir_exists s then [] else [EvMkdir])
                          ++ [EvWriteFile (JSON_stringify (state s))]).
Proof.
  intros Hfile. unfold no_fault. unfold_core. cbn. rewrite Hfile. cbn.
  destruct (dir_exists s) eqn:Hdir; cbn;
    repeat (first [ rewrite Hdir
                  | match goal with
                    | |- context [stop_at ?e ?t] => destruct (stop_at e t) eqn:?
                    | |- context [fs_fault ?e ?t] => destruct (fs_fault e t) eqn:?
                    end ]; cbn);
    eexists _, _; (split; [reflexivity |]);
    (split; [rewrite <- ?app_assoc; cbn; reflexivity |]);
    (split; [auto |]);
    (split; [cbn; eauto 12 |]);
    intros Hnf; try congruence; cbn; conj_split; reflexivity.
Qed.

Lemma load_present (s : Sys PS) (data : string) :
  file s = Some data ->
  exists s' l, load env s = (Returns tt, s') /\ trace s' = trace s ++ l
    /\ file s' = file s
    /\ match fs_fault env (tick s), JSON_parse data with
       | None, Ok v =>
           match read_offset v with
           | Ok o =>
               match display_opt o with
               | Ok shown =>
                   state s' = v
                   /\ In (EvLog INFO "StateManager"
                            ("Loaded state with offset: " ++ shown)%string None) l
                   /\ forall e, ~ In (EvLog ERROR "StateManager"
                                        "Failed to load state" (Some e)) l
               | Throw e =>
                   state s' = BotState 0
                   /\ In (EvLog ERROR "StateManager" "Failed to load state" (Some e)) l
               end
           | Throw e =>
               state s' = BotState 0
               /\ In (EvLog ERROR "StateManager" "Failed to load state" (Some e)) l
           end
       | None, Throw e | Some e, _ =>
           state s' = BotState 0
           /\ In (EvLog ERROR "StateManager" "Failed to load state" (Some e)) l
       end.
Proof.
  intros Hfile. unfold_core. cbn. rewrite Hfile. cbn.
  destruct (stop_at env (tick s)) eqn:Hstop; cbn;
    destruct (fs_fault env (tick s)) as [e|] eqn:Hfault; cbn; rewrite ?Hfile; cbn;
    try destruct (JSON_parse data) as [v|e]; cbn;
    try destruct (read_offset v) as [o|e]; cbn;
    try destruct (display_opt o) as [shown|e]; cbn;
    eexists _, _; (split; [reflexivity |]);
    (split; [rewrite <- ?app_assoc; cbn; reflexivity |]);
    (split; [reflexivity |]); conj_split; try reflexivity; cbn; auto 8;
    intros e' Hin; cbn in Hin; intuition discriminate.
Qed.

End CoreFacts.

(* ================================================================== *)
(** ** The polling loop and the cursor store                           *)
(* ================================================================== *)

Section CoreTheorems.

Variable PS : Type.
Variable onUpdate : Update -> PS -> completion unit * PS.
Variable env : Env.

(** C1, as amended.  For each update of a fetched batch the processor is
    called; when it returns, the cursor is moved to [update_id + 1] and,
    on a working disk, persisted; when it raises, the failure is logged
    with the update id and the cursor stays where it was, in memory and on
    disk.  Either way the loop goes on to the next update: after the batch
    every update has been handed to the processor, in order, and the
    cursor is one past the last update that was processed successfully
    ([cursor_after]). *)
Theorem poll_advances_cursor_on_success :
  (forall (s : Sys PS) (u : Update) (c : Z),
     state s = BotState c -> fst (onUpdate u (pstate s)) <> Pending ->
     exists s', process_update onUpdate env u s = (Returns tt, s')
       /\ processed (trace s') = processed (trace s) ++ [u]
       /\ match fst (onUpdate u (pstate s)) with
          | Returns _ =>
              cursor s' = Some (num (update_id u + 1))
              /\ (no_fault env -> persisted s' = Some (num (update_id u + 1)))
          | _ =>
              cursor s' = Some (num c) /\ file s' = file s
              /\ exists e, In (EvLog ERROR "PollingService"
                                 ("Failed to process update "
                                    ++ int_string (update_id u))%string (Some e))
                              (trace s')
          end)
  /\ (forall (s : Sys PS) (ans : FetchOutcome) (rest : list FetchOutcome) (c : Z),
        remote s = ans :: rest -> fetch_fails ans = false ->
        state s = BotState c -> settles onUpdate ->
        exists s', poll onUpdate env s = (Returns tt, s')
          /\ processed (trace s') = processed (trace s) ++ batch_of ans
          /\ cursor s'
             = Some (num (cursor_after onUpdate (batch_of ans) (pstate s) c))
          /\ (no_fault env -> synced s -> persisted s' = cursor s')).
Proof.
  split.
  - intros s u c Hst Hsettle.
    destruct (process_update_spec PS onUpdate env s u c Hst Hsettle)
      as (s' & Hrun & _ & _ & Hproc & Hst' & _ & Hcase).
    exists s'. split; [exact Hrun |]. split; [exact Hproc |].
    cbn [cursor_after] in Hst'.
    destruct (onUpdate u (pstate s)) as [[[]|e|] p]; cbn [fst] in *.
    + split; [now apply cursor_BotState |].
      intros Hnf. apply persisted_synced; auto.
    + destruct Hcase as (Hfile & _ & Hlog).
      split; [now apply cursor_BotState | auto].
    + congruence.
  - intros s ans rest c Hrem Hok Hst Hsettle.
    destruct (poll_ok_spec PS onUpdate env s ans rest c Hrem Hok Hst Hsettle)
      as (s' & Hpoll & _ & _ & _ & _ & Hproc & _ & Hst' & Hsync & _).
    exists s'. conj_split; auto.
    + now apply cursor_BotState.
    + intros Hnf Hs. rewrite (cursor_BotState PS s' _ Hst').
      apply persisted_synced; auto.
Qed.

(** C4.  With a processor that always succeeds and a working disk, the
    processor is invoked once per update of the batch, in the order
    delivered: the calls are recorded in that order, and the processor's
    own state is what running it on the updates one after the other, each
    from the state the previous one left, makes of it.  Afterwards the
    cursor, in memory and on disk, is one past the last update. *)
Theorem poll_processes_in_order
    (s : Sys PS) (batch : list Update) (rest : list FetchOutcome) (c : Z) :
  remote s = ok_batch batch :: rest -> state s = BotState c ->
  succeeds onUpdate -> no_fault env -> batch <> [] ->
  exists s', poll onUpdate env s = (Returns tt, s')
    /\ processed (trace s') = processed (trace s) ++ batch
    /\ pstate s' = pstate_after onUpdate batch (pstate s)
    /\ cursor s' = Some (num (last (map update_id batch) 0 + 1))
    /\ persisted s' = Some (num (last (map update_id batch) 0 + 1)).
Proof.
  intros Hrem Hst Hsucc Hnf Hne.
  assert (Hsettle : settles onUpdate).
  { intros u p. rewrite Hsucc. discriminate. }
  destruct (poll_ok_spec PS onUpdate env s (ok_batch batch) rest c Hrem eq_refl
              Hst Hsettle)
    as (s' & Hpoll & _ & _ & _ & _ & Hproc & Hps & Hst' & _ & Hsync & _).
  cbn [batch_of ok_batch result_of] in *.
  rewrite (cursor_after_succeeds PS onUpdate batch Hsucc _ _ 0) in Hst'.
  destruct batch as [|u r]; [congruence |].
  exists s'. conj_split; auto.
  - now apply cursor_BotState.
  - apply persisted_synced; auto.
Qed.

(** C6.  [setOffset(n)] returns normally whatever the disk does, and the
    cursor in memory is [n] afterwards; when the first disk operation of
    the save fails, the file is left as it was and the failure is logged. *)
Theorem setOffset_swallows_disk_failure (s : Sys PS) (n : Z) :
  is_object (state s) = true ->
  exists s', setOffset env n s = (Returns tt, s')
    /\ getOffset s' = (Returns (Some (num n)), s')
    /\ cursor s' = Some (num n)
    /\ forall e, fs_fault env (tick s) = Some e ->
         file s' = file s
         /\ In (EvLog ERROR "StateManager" "Failed to save state" (Some e))
              (trace s').
Proof.
  intros Hobj.
  destruct (assign_offset_object _ n Hobj) as (v' & Hv & Hobj' & Hread).
  unfold setOffset, bind, get_state, put_state, lift. rewrite Hv. cbn.
  assert (Hsave : exists s', save env (set_state v' s) = (Returns tt, s')
            /\ state s' = v'
            /\ forall e, fs_fault env (tick s) = Some e ->
                 file s' = file s
                 /\ In (EvLog ERROR "StateManager" "Failed to save state" (Some e))
                      (trace s')).
  { unfold save, ensureDirectoryExists, existsSync_dir, mkdir, writeFile,
      suspend, stop, log, emit, now, get_state, try_catch, bind, ret, throw,
      set_dir_exists, set_file, set_tick, set_trace, set_state, set_isRunning.
    cbn. destruct (dir_exists s) eqn:Hdir; cbn;
      destruct (stop_at env (tick s)) eqn:Hstop; cbn;
      destruct (fs_fault env (tick s)) as [e0|] eqn:Hfault; cbn;
      try (destruct (stop_at env (S (tick s))) eqn:Hstop2; cbn;
           destruct (fs_fault env (S (tick s))) as [e1|] eqn:Hfault2; cbn);
      rewrite ?Hdir; cbn;
      eexists; (split; [reflexivity |]); (split; [reflexivity |]);
      intros e He; try discriminate; injection He as <-; cbn;
      (split; [reflexivity |]); apply in_or_app; right; now left. }
  destruct Hsave as (s' & Hs & Hst & Hfail). rewrite Hs.
  exists s'. conj_split; auto.
  - unfold getOffset, bind, get_state, lift. rewrite Hst, Hread. reflexivity.
  - unfold cursor. rewrite Hst, Hread. reflexivity.
Qed.

(** C2.  Over turns that all succeed, on a working disk, with update ids
    that ascend from the cursor the store starts with, the cursor on disk
    never decreases from one turn to the next, and after every turn it is
    one past the largest id processed so far. *)
Theorem persisted_cursor_monotonic
    (s : Sys PS) (done : list (list Update)) (batch : list Update)
    (todo : list (list Update)) (rest : list FetchOutcome) (c0 : Z) :
  remote s = map ok_batch (done ++ batch :: todo) ++ rest ->
  state s = BotState c0 -> synced s ->
  succeeds onUpdate -> no_fault env ->
  ascending (c0 - 1 :: ids_of (done ++ batch :: todo)) ->
  exists a b,
    persisted (cycles onUpdate env (List.length done) s) = Some (num a)
    /\ persisted (cycles onUpdate env (S (List.length done)) s) = Some (num b)
    /\ a <= b
    /\ processed (trace (cycles onUpdate env (S (List.length done)) s))
       = processed (trace s) ++ List.concat (done ++ [batch])
    /\ b = max_id_plus_one c0 (ids_of (done ++ [batch])).
Proof.
  intros Hrem Hst Hsync Hsucc Hnf Hasc.
  assert (Hrem1 : remote s = map ok_batch done
                               ++ (map ok_batch (batch :: todo) ++ rest))
    by (rewrite Hrem, map_app, app_assoc; reflexivity).
  assert (Hrem2 : remote s = map ok_batch (done ++ [batch])
                               ++ (map ok_batch todo ++ rest)).
  { rewrite Hrem, !map_app, <- !app_assoc. reflexivity. }
  destruct (cycles_run PS onUpdate env done Hsucc Hnf s c0 _ Hrem1 Hst Hsync)
    as (Hst1 & Hsync1 & _ & _).
  pose proof (cycles_run PS onUpdate env (done ++ [batch]) Hsucc Hnf s c0 _
                Hrem2 Hst Hsync) as H2.
  rewrite length_app, Nat.add_1_r in H2. destruct H2 as (Hst2 & Hsync2 & _ & Hproc2).
  exists (last (ids_of done) (c0 - 1) + 1),
         (last (ids_of (done ++ [batch])) (c0 - 1) + 1).
  assert (Hids : ids_of (done ++ batch :: todo)
                 = ids_of done ++ map update_id batch ++ ids_of todo).
  { unfold ids_of. rewrite concat_app. cbn [List.concat]. now rewrite !map_app. }
  assert (Hids2 : ids_of (done ++ [batch]) = ids_of done ++ map update_id batch).
  { unfold ids_of. rewrite concat_app. cbn [List.concat].
    now rewrite app_nil_r, map_app. }
  rewrite Hids in Hasc.
  assert (Hasc2 : ascending (c0 - 1 :: ids_of (done ++ [batch]))).
  { rewrite Hids2. rewrite app_assoc in Hasc.
    exact (ascending_app_l ((c0 - 1) :: (ids_of done ++ map update_id batch))
             (ids_of todo) Hasc). }
  conj_split.
  - now apply persisted_synced.
  - now apply persisted_synced.
  - rewrite Hids2, last_app_default.
    apply ascending_app_r in Hasc.
    apply (ascending_app_l (last (ids_of done) (c0 - 1) :: map update_id batch)
             (ids_of todo)) in Hasc.
    pose proof (ascending_last_ge _ _ Hasc). lia.
  - exact Hproc2.
  - now apply max_id_plus_one_last.
Qed.

(** C3, as amended.  [load()] never raises.  When the file is missing, a
    store constructed with offset 0 still has offset 0 and the outcome is
    logged; when the file cannot be read or is not JSON, the failure is
    logged as an error and the offset afterwards is 0; a file that is JSON
    whose [offset] can be shown becomes the state as it is. *)
Theorem load_never_raises (s : Sys PS) :
  exists s' l, load env s = (Returns tt, s') /\ trace s' = trace s ++ l
    /\ (file s = None -> state s = BotState 0 -> cursor s' = Some (num 0))
    /\ (file s = None ->
        In (EvLog INFO "StateManager" "Created new state file" None) l
        \/ exists e, In (EvLog ERROR "StateManager" "Failed to load state" (Some e)) l)
    /\ (forall data, file s = Some data ->
        fs_fault env (tick s) <> None \/ (exists e, JSON_parse data = Throw e) ->
        cursor s' = Some (num 0)
        /\ exists e, In (EvLog ERROR "StateManager" "Failed to load state" (Some e)) l)
    /\ (forall data v o shown, file s = Some data ->
        fs_fault env (tick s) = None -> JSON_parse data = Ok v ->
        read_offset v = Ok o -> display_opt o = Ok shown ->
        state s' = v
        /\ forall e, ~ In (EvLog ERROR "StateManager" "Failed to load state" (Some e)) l).
Proof.
  destruct (file s) as [data|] eqn:Hfile.
  - destruct (load_present PS env s data Hfile) as (s' & l & Hload & Htr & _ & Hcase).
    exists s', l. conj_split; auto; try discriminate.
    + intros d Hd Hbad. injection Hd as <-.
      destruct (fs_fault env (tick s)) as [e|].
      * destruct Hcase as [Hst Hin]. split; [now apply cursor_BotState | eauto].
      * destruct Hbad as [Hbad|[e He]]; [congruence |]. rewrite He in Hcase.
        destruct Hcase as [Hst Hin]. split; [now apply cursor_BotState | eauto].
    + intros d v o shown Hd Hf Hp Hr Hs. injection Hd as <-.
      rewrite Hf, Hp, Hr, Hs in Hcase. destruct Hcase as (Hst & _ & Hno). auto.
  - destruct (load_missing PS env s Hfile) as (s' & l & Hload & Htr & Hst & Hlog & _).
    exists s', l. conj_split; auto; try discriminate.
    intros _ H0. apply cursor_BotState. destruct Hst; congruence.
Qed.

(** C5.  A fetch that fails, by a rejected promise or by an [ok: false]
    envelope, is logged and followed by a sleep of 5000 ms; the turn
    returns normally, so the loop goes on unless [stop()] was called; the
    state in memory and the file are untouched, and the next turn asks the
    remote again with the same offset. *)
Theorem fetch_failure_backs_off
    (s : Sys PS) (ans : FetchOutcome) (rest : list FetchOutcome)
    (o : option JsValue) (fuel : nat) :
  remote s = ans :: rest -> fetch_fails ans = true ->
  read_offset (state s) = Ok o ->
  exists s', iteration onUpdate env s = (Returns tt, s')
    /\ state s' = state s /\ file s' = file s
    /\ processed (trace s') = processed (trace s)
    /\ fetches (trace s') = fetches (trace s) ++ [o]
    /\ sleeps (trace s') = sleeps (trace s) ++ [5000]
    /\ In (EvLog ERROR "TelegramClient" "Failed to call getUpdates"
             (Some (fetch_error ans))) (trace s')
    /\ In (EvLog ERROR "PollingService" "Error during polling"
             (Some (fetch_error ans))) (trace s')
    /\ (isRunning s = true ->
        loop onUpdate env (S fuel) s = loop onUpdate env fuel s')
    /\ (no_stop_between env s s' -> isRunning s' = isRunning s)
    /\ fetches (trace (snd (iteration onUpdate env s')))
       = fetches (trace s) ++ [o; o].
Proof.
  intros Hrem Hfail Hread.
  destruct (poll_fail_spec PS onUpdate env s ans rest o Hrem Hfail Hread)
    as (s0 & Hpoll & Hc0 & _ & _ & _ & _ & _ & Hin0 & _).
  destruct (iteration_fail_spec PS onUpdate env s ans rest o Hrem Hfail Hread)
    as (s' & Hit & Hc & _ & Hfe & Hsl & Hpr & _ & Hin & _ & Hst & Hf & _).
  exists s'. conj_split; auto.
  - unfold iteration, try_catch in Hit. rewrite Hpoll in Hit.
    unfold bind, log, emit, sleep in Hit. cbn in Hit.
    match type of Hit with
    | context [suspend env ?x] =>
        destruct (suspend_spec PS env x) as (s2 & Hsus & [[Hc2 _ _ _] _ _] & _)
    end.
    unfold bind, emit in Hit. cbn in Hit. rewrite Hsus in Hit.
    injection Hit as <-. eapply calm_In; [exact Hc2 |]. cbn.
    apply in_or_app. left. apply in_or_app. left. exact Hin0.
  - intros Hrun. now apply loop_step.
  - apply (calm_running env s s' Hc).
  - rewrite (iteration_fetches PS onUpdate env s' o) by congruence.
    rewrite Hfe, <- app_assoc. reflexivity.
Qed.

(** C7.  Cold start: with no state file and a working disk, [load()] on a
    newly constructed store leaves the offset at 0 and writes the file
    with the JSON object [{ "offset": 0 }], after making the directory
    when it is missing. *)
Theorem load_cold_start (s : Sys PS) :
  file s = None -> state s = BotState 0 -> no_fault env ->
  exists s' l, load env s = (Returns tt, s') /\ trace s' = trace s ++ l
    /\ getOffset s' = (Returns (Some (num 0)), s')
    /\ file s' = Some (JSON_stringify (BotState 0))
    /\ JSON_parse (JSON_stringify (BotState 0)) = Ok (BotState 0)
    /\ persisted s' = Some (num 0)
    /\ dir_exists s' = true
    /\ disk_ops l = (if dir_exists s then [] else [EvMkdir])
                      ++ [EvWriteFile (JSON_stringify (BotState 0))].
Proof.
  intros Hfile Hst Hnf.
  destruct (load_missing PS env s Hfile) as (s' & l & Hload & Htr & _ & _ & Hok).
  destruct (Hok Hnf) as (Hst' & Hf' & Hd' & Hops). rewrite Hst in *.
  exists s', l. conj_split; auto.
  - unfold getOffset, bind, get_state, lift. rewrite Hst'. reflexivity.
  - apply persisted_synced; [unfold synced; congruence | assumption].
Qed.

(** C8.  [stop()] only clears the flag.  When it is called while the fetch
    of a turn is in flight, that fetch completes, every update of its
    batch is processed to the end, and the loop then returns without
    another fetch or another call of the processor. *)
Theorem stop_is_cooperative
    (s : Sys PS) (ans : FetchOutcome) (rest : list FetchOutcome)
    (c : Z) (fuel : nat) :
  isRunning s = true -> stop_at env (tick s) = true ->
  remote s = ans :: rest -> state s = BotState c -> settles onUpdate ->
  exists s', iteration onUpdate env s = (Returns tt, s')
    /\ loop onUpdate env (S fuel) s = Some (Returns tt, s')
    /\ isRunning s' = false /\ remote s' = rest
    /\ fetches (trace s') = fetches (trace s) ++ [Some (num c)]
    /\ processed (trace s')
       = processed (trace s) ++ (if fetch_fails ans then [] else batch_of ans)
    /\ state s'
       = BotState (if fetch_fails ans then c
                   else cursor_after onUpdate (batch_of ans) (pstate s) c)
    /\ forall s0 : Sys PS,
         stop s0 = (Returns tt,
                    set_trace
                      (trace s0 ++ [EvLog INFO "PollingService" "Polling stopped" None])
                      (set_isRunning false s0)).
Proof.
  intros Hrun Hstop Hrem Hst Hsettle.
  destruct (fetch_fails ans) eqn:Hfail.
  - assert (Hread : read_offset (state s) = Ok (Some (num c)))
      by (rewrite Hst; reflexivity).
    destruct (iteration_fail_spec PS onUpdate env s ans rest _ Hrem Hfail Hread)
      as (s' & Hit & _ & Hrem' & Hfe & _ & Hpr & _ & _ & _ & Hst' & _ & _ & Hstopped).
    exists s'. conj_split; auto.
    + rewrite (loop_step PS onUpdate env fuel s s' Hrun Hit).
      apply loop_stopped. auto.
    + rewrite Hpr, app_nil_r. reflexivity.
    + congruence.
  - destruct (poll_ok_spec PS onUpdate env s ans rest c Hrem Hfail Hst Hsettle)
      as (s' & Hpoll & _ & Hrem' & Hfe & _ & Hpr & _ & Hst' & _ & _ & Hstopped).
    pose proof (iteration_ok PS onUpdate env s s' Hpoll) as Hit.
    exists s'. conj_split; auto.
    rewrite (loop_step PS onUpdate env fuel s s' Hrun Hit).
    apply loop_stopped. auto.
Qed.

End CoreTheorems.

(* ------------------------------------------------------------------ *)
(** *** The claims on concrete runs                                     *)

Lemma fails_on_settles (k : Z) : settles (fails_on k).
Proof.
  intros u p. unfold fails_on. destruct (update_id u =? k); discriminate.
Qed.

Lemma always_ok_succeeds : succeeds always_ok.
Proof. intros u p. reflexivity. Qed.

Lemma always_ok_settles : settles always_ok.
Proof. intros u p. discriminate. Qed.

Lemma fair_weather_no_fault : no_fault fair_weather.
Proof. intros t. reflexivity. Qed.

(** C1, the sentence as it stands fails: in the batch [1, 2] with the
    processing of update 2 raising, both updates are handed to the
    processor, and the cursor stays at 2, in memory and on disk; it is not
    advanced to 3. *)
Lemma failed_update_keeps_cursor :
  fst (poll (fails_on 2) fair_weather (loaded [ok_batch [upd 1; upd 2]]))
  = Returns tt
  /\ processed (trace (snd (poll (fails_on 2) fair_weather
                              (loaded [ok_batch [upd 1; upd 2]]))))
     = [upd 1; upd 2]
  /\ cursor (snd (poll (fails_on 2) fair_weather
                    (loaded [ok_batch [upd 1; upd 2]])))
     = Some (num 2)
  /\ persisted (snd (poll (fails_on 2) fair_weather
                       (loaded [ok_batch [upd 1; upd 2]])))
     = Some (num 2)
  /\ cursor (snd (poll (fails_on 2) fair_weather
                    (loaded [ok_batch [upd 1; upd 2]])))
     <> Some (num (update_id (upd 2) + 1)).
Proof. vm_compute. repeat split; discriminate. Qed.

(** The example of C1: update 1 fails and leaves the cursor at 0; update 2
    is still processed and the cursor ends at 3, in memory and on disk. *)
Lemma poll_advances_cursor_on_success_witness :
  (exists s1,
     process_update (fails_on 1) fair_weather (upd 1)
       (loaded [ok_batch [upd 1; upd 2]])
     = (Returns tt, s1)
     /\ cursor s1 = Some (num 0)
     /\ file s1 = file (loaded [ok_batch [upd 1; upd 2]]))
  /\ (exists s',
        poll (fails_on 1) fair_weather (loaded [ok_batch [upd 1; upd 2]])
        = (Returns tt, s')
        /\ processed (trace s') = [upd 1; upd 2]
        /\ cursor s' = Some (num 3)
        /\ persisted s' = Some (num 3)).
Proof.
  destruct (poll_advances_cursor_on_success unit (fails_on 1) fair_weather)
    as [Hone Hbatch].
  split.
  - destruct (Hone (loaded [ok_batch [upd 1; upd 2]]) (upd 1) 0 eq_refl)
      as (s1 & Hrun & _ & Hcur & Hfile & _); [discriminate |].
    exists s1. split; [exact Hrun |]. split; [exact Hcur | exact Hfile].
  - destruct (Hbatch (loaded [ok_batch [upd 1; upd 2]])
                (ok_batch [upd 1; upd 2]) [] 0
                eq_refl eq_refl eq_refl (fails_on_settles 1))
      as (s' & Hpoll & Hproc & Hcur & Hdisk).
    exists s'. split; [exact Hpoll |]. split; [exact Hproc |].
    split; [exact Hcur |].
    rewrite (Hdisk fair_weather_no_fault eq_refl). exact Hcur.
Defined.

(** The example of C4: the batch [5, 6, 7], given to a processor that
    notes the ids it is called with, leaves the notes [5, 6, 7] and the
    cursor at 8. *)
Lemma poll_processes_in_order_witness :
  exists s',
    poll recorder fair_weather (store_of [] [ok_batch [upd 5; upd 6; upd 7]])
    = (Returns tt, s')
    /\ processed (trace s') = [upd 5; upd 6; upd 7]
    /\ pstate s' = [5; 6; 7]
    /\ cursor s' = Some (num 8)
    /\ persisted s' = Some (num 8).
Proof.
  refine (poll_processes_in_order (list Z) recorder fair_weather
            (store_of [] [ok_batch [upd 5; upd 6; upd 7]])
            [upd 5; upd 6; upd 7] [] 0
            eq_refl eq_refl (fun _ _ => eq_refl) fair_weather_no_fault _).
  discriminate.
Defined.

(** C2 on two turns: after [1, 2] the file says 3, after [3, 4] it says 5. *)
Lemma persisted_cursor_monotonic_witness :
  exists a b,
    persisted (cycles always_ok fair_weather 1
                 (loaded (map ok_batch [[upd 1; upd 2]; [upd 3; upd 4]])))
    = Some (num a)
    /\ persisted (cycles always_ok fair_weather 2
                    (loaded (map ok_batch [[upd 1; upd 2]; [upd 3; upd 4]])))
       = Some (num b)
    /\ a <= b
    /\ processed (trace (cycles always_ok fair_weather 2
                           (loaded (map ok_batch [[upd 1; upd 2]; [upd 3; upd 4]]))))
       = [upd 1; upd 2; upd 3; upd 4]
    /\ b = 5.
Proof.
  refine (persisted_cursor_monotonic unit always_ok fair_weather
            (loaded (map ok_batch [[upd 1; upd 2]; [upd 3; upd 4]]))
            [[upd 1; upd 2]] [upd 3; upd 4] [] [] 0
            eq_refl eq_refl eq_refl always_ok_succeeds fair_weather_no_fault _).
  cbn. repeat split; lia.
Defined.

(** C3, the sentence as it stands fails: the file [{"offset": -5}] does
    not denote a non-negative offset, yet [load()] takes it as it is; no
    error is logged and the offset afterwards is -5, not 0. *)
Lemma load_accepts_negative_offset :
  fst (load fair_weather (with_file negative_offset_file)) = Returns tt
  /\ cursor (snd (load fair_weather (with_file negative_offset_file)))
     = Some (num (-5))
  /\ cursor (snd (load fair_weather (with_file negative_offset_file)))
     <> Some (num 0)
  /\ logged (trace (snd (load fair_weather (with_file negative_offset_file))))
     = [(INFO, "StateManager", "Loaded state with offset: -5"%string)].
Proof. vm_compute. repeat split; discriminate. Qed.

(** C3 on a file that is not JSON: the store is reset to 0. *)
Lemma load_never_raises_witness :
  exists s' l,
    load fair_weather (with_file "{invalid") = (Returns tt, s')
    /\ trace s' = trace (with_file "{invalid") ++ l
    /\ cursor s' = Some (num 0)
    /\ exists e, In (EvLog ERROR "StateManager" "Failed to load state" (Some e)) l.
Proof.
  destruct (load_never_raises unit fair_weather (with_file "{invalid"))
    as (s' & l & Hload & Htr & _ & _ & Hbad & _).
  exists s', l. split; [exact Hload |]. split; [exact Htr |].
  apply (Hbad "{invalid"%string eq_refl). right.
  exists (SyntaxError "Unexpected token or end of JSON input"). vm_compute.
  reflexivity.
Defined.

(** C5 on a refused connection and on an [ok: false] answer. *)
Lemma fetch_failure_backs_off_witness :
  (exists s',
     iteration always_ok fair_weather (running [connection_refused; unauthorized])
     = (Returns tt, s')
     /\ state s' = BotState 0
     /\ sleeps (trace s') = [5000]
     /\ fetches (trace (snd (iteration always_ok fair_weather s')))
        = [Some (num 0); Some (num 0)])
  /\ (exists s',
        iteration always_ok fair_weather (running [unauthorized])
        = (Returns tt, s')
        /\ state s' = BotState 0
        /\ sleeps (trace s') = [5000]
        /\ In (EvLog ERROR "PollingService" "Error during polling"
                 (Some (PlainError "Telegram API error: Unauthorized")))
             (trace s')).
Proof.
  split.
  - destruct (fetch_failure_backs_off unit always_ok fair_weather
                (running [connection_refused; unauthorized]) connection_refused
                [unauthorized] (Some (num 0)) 1 eq_refl eq_refl eq_refl)
      as (s' & Hit & Hst & _ & _ & _ & Hsl & _ & _ & _ & _ & Hfe).
    exists s'. split; [exact Hit |]. split; [exact Hst |].
    split; [exact Hsl | exact Hfe].
  - destruct (fetch_failure_backs_off unit always_ok fair_weather
                (running [unauthorized]) unauthorized
                [] (Some (num 0)) 1 eq_refl eq_refl eq_refl)
      as (s' & Hit & Hst & _ & _ & _ & Hsl & _ & Hin & _).
    exists s'. split; [exact Hit |]. split; [exact Hst |].
    split; [exact Hsl | exact Hin].
Defined.

(** C6 on a disk where every operation fails: the cursor in memory is 42,
    the file is still missing. *)
Lemma setOffset_swallows_disk_failure_witness :
  exists s',
    setOffset broken_disk 42 (constructed []) = (Returns tt, s')
    /\ getOffset s' = (Returns (Some (num 42)), s')
    /\ file s' = None.
Proof.
  destruct (setOffset_swallows_disk_failure unit broken_disk (constructed []) 42
              eq_refl)
    as (s' & Hset & Hget & _ & Hfail).
  exists s'. split; [exact Hset |]. split; [exact Hget |].
  exact (proj1 (Hfail _ eq_refl)).
Defined.

(** C7 on newly constructed objects: the directory is made, then the file
    is written. *)
Lemma load_cold_start_witness :
  exists s' l,
    load fair_weather (constructed []) = (Returns tt, s')
    /\ trace s' = l
    /\ getOffset s' = (Returns (Some (num 0)), s')
    /\ file s' = Some (JSON_stringify (BotState 0))
    /\ JSON_parse (JSON_stringify (BotState 0)) = Ok (BotState 0)
    /\ persisted s' = Some (num 0)
    /\ dir_exists s' = true
    /\ disk_ops l = [EvMkdir; EvWriteFile (JSON_stringify (BotState 0))].
Proof.
  exact (load_cold_start unit fair_weather (constructed []) eq_refl eq_refl
           fair_weather_no_fault).
Defined.

(** C8 with [stop()] called during the first fetch, which brings the batch
    [1, 2]: both updates are processed, [start] returns, nothing follows. *)
Lemma stop_is_cooperative_witness :
  exists s',
    start always_ok (stop_during 2) 10
      (loaded [ok_batch [upd 1; upd 2]; ok_batch [upd 3]])
    = Some (Returns tt, s')
    /\ isRunning s' = false
    /\ remote s' = [ok_batch [upd 3]]
    /\ fetches (trace s') = [Some (num 0)]
    /\ processed (trace s') = [upd 1; upd 2]
    /\ state s' = BotState 3.
Proof.
  destruct (stop_is_cooperative unit always_ok (stop_during 2)
              (running [ok_batch [upd 1; upd 2]; ok_batch [upd 3]])
              (ok_batch [upd 1; upd 2]) [ok_batch [upd 3]] 0 9
              eq_refl eq_refl eq_refl eq_refl always_ok_settles)
    as (s' & _ & Hloop & Hrun & Hrem & Hfe & Hpr & Hst & _).
  exists s'. split; [exact Hloop |]. split; [exact Hrun |].
  split; [exact Hrem |]. split; [exact Hfe |]. split; [exact Hpr | exact Hst].
Defined.

(* ================================================================== *)
(** ** The collaborators                                               *)
(* ================================================================== *)

Section Collaborators.

Variable pf : Platform.
Variable client : TelegramClient.t.

Lemma downloads_app (a b : list CEvent) :
  downloads (a ++ b) = downloads a ++ downloads b.
Proof.
  induction a as [|e a IH]; [reflexivity |].
  destruct e; cbn; rewrite IH; reflexivity.
Qed.

Lemma parseInt10_nonempty (str : string) (id : Z) :
  parseInt10 str = Some id -> exists c r, str = String c r.
Proof.
  destruct str as [|c r]; [discriminate | eauto].
Qed.

Lemma downloadFile_downloads (filePath savePath : string) (s : CState) :
  downloads (ctrace (snd (TelegramClient.downloadFile pf client filePath
                            savePath s)))
  = downloads (ctrace s)
      ++ [("https://api.telegram.org/file/bot" ++ TelegramClient.token client
             ++ "/" ++ filePath)%string].
Proof.
  unfold TelegramClient.downloadFile, TelegramClient.log_error, clog,
    try_catch, bind, cemit, next_call, fault_of, ret, throw.
  cbn [calls ctrace].
  destruct (file_answer pf (calls s)) as [e|[] st body]; cbn [negb calls ctrace];
    try destruct (mkdir_fault pf (S (calls s))); cbn [calls ctrace];
    try destruct (writeFile_fault pf (S (S (calls s)))); cbn [snd calls ctrace];
    rewrite !downloads_app; cbn [downloads]; rewrite ?app_nil_r; reflexivity.
Qed.

(** C9.  With [ALLOWED_USER_ID] set to a text that [parseInt] reads as a
    non-zero integer, a message whose sender is absent or has another id
    is logged and dropped: [handle] returns at once, having made no call
    to the Bot API, no download and no command callback. *)
Theorem unauthorized_message_is_dropped
    (commands : CommandHandler.t) (str : string) (id : Z)
    (s0 s : CState) (message : Message) :
  parseInt10 str = Some id -> id <> 0 ->
  match from message with
  | Some sender => user_id sender <> id
  | None => True
  end ->
  exists this s1,
    MessageHandler.constructor (Some str) commands s0 = (Returns this, s1)
    /\ MessageHandler.allowedUserId this = MessageHandler.IdNum id
    /\ MessageHandler.handle pf client this message s
       = (Returns tt,
          {| calls := calls s;
             ctrace :=
               ctrace s
               ++ [CLog INFO "MessageHandler"
                     ("Message from " ++ MessageHandler.show_sender message
                        ++ ": " ++ MessageHandler.show_content message)%string None;
                   CConsoleDir message;
                   CLog WARN "MessageHandler"
                     ("Ignoring message from unauthorized user: "
                        ++ MessageHandler.show_sender_id message)%string None] |}).
Proof.
  intros Hparse Hnz Hsender.
  destruct (parseInt10_nonempty str id Hparse) as (c & r & ->).
  assert (Htruthy : MessageHandler.truthy (MessageHandler.IdNum id) = true).
  { cbn. now apply negb_true_iff, Z.eqb_neq. }
  unfold MessageHandler.constructor. rewrite Hparse, Htruthy.
  eexists _, _. split; [reflexivity |]. split; [reflexivity |].
  unfold MessageHandler.handle. cbn [MessageHandler.allowedUserId].
  rewrite Htruthy.
  assert (Hdiff : MessageHandler.sender_differs message (MessageHandler.IdNum id)
                  = true).
  { unfold MessageHandler.sender_differs. destruct (from message) as [u|];
      [| reflexivity]. now apply negb_true_iff, Z.eqb_neq. }
  rewrite Hdiff. cbn [andb]. unfold clog, cemit, bind. cbn [calls ctrace].
  rewrite <- !app_assoc. reflexivity.
Qed.

(** C10, as amended.  [downloadFileById] raises before any download is
    attempted exactly when the [getFile] result has no [file_path] or an
    empty one, or a [file_size] above 20 * 1024 * 1024 bytes; otherwise
    the file URL is fetched.  A size of exactly the limit, or no size,
    does not trip the size check. *)
Theorem download_rejected_before_fetch
    (fileId : string) (savePath : option string) (s : CState)
    (f : File) (d : option string) :
  getFile_answer pf (calls s)
  = Responds {| ok := true; result_of := f; description := d |} ->
  (((exists e, fst (TelegramClient.downloadFileById pf client fileId savePath s)
               = Raises e)
    /\ downloads (ctrace (snd (TelegramClient.downloadFileById pf client fileId
                                 savePath s)))
       = downloads (ctrace s))
   <-> rejected f)
  /\ (~ rejected f ->
      exists path,
        file_path f = Some path
        /\ downloads (ctrace (snd (TelegramClient.downloadFileById pf client
                                     fileId savePath s)))
           = downloads (ctrace s)
               ++ [("https://api.telegram.org/file/bot"
                      ++ TelegramClient.token client ++ "/" ++ path)%string])
  /\ (file_size f = None \/ file_size f = Some TelegramClient.MAX_FILE_SIZE ->
      TelegramClient.too_large f = false).
Proof.
  intros Hans.
  assert (Hget : TelegramClient.getFile pf fileId s
                 = (Returns f, {| calls := S (calls s);
                                  ctrace := ctrace s ++ [CGetFile fileId] |})).
  { unfold TelegramClient.getFile, makeRequest, try_catch, bind, cemit,
      next_call, answer_of. cbn. rewrite Hans. reflexivity. }
  assert (Hlarge : TelegramClient.too_large f = true <->
                   exists size, file_size f = Some size
                                /\ TelegramClient.MAX_FILE_SIZE < size).
  { unfold TelegramClient.too_large. destruct (file_size f) as [size|].
    - split.
      + intros H. apply andb_true_iff in H as [_ H]. apply Z.ltb_lt in H. eauto.
      + intros (n & Hn & Hlt). injection Hn as <-. apply andb_true_iff. split.
        * apply negb_true_iff, Z.eqb_neq. unfold TelegramClient.MAX_FILE_SIZE in Hlt.
          lia.
        * now apply Z.ltb_lt.
    - split; [discriminate | intros (n & Hn & _); discriminate]. }
  assert (Hrej : rejected f ->
            (exists e, fst (TelegramClient.downloadFileById pf client fileId
                              savePath s) = Raises e)
            /\ downloads (ctrace (snd (TelegramClient.downloadFileById pf client
                                         fileId savePath s)))
               = downloads (ctrace s)).
  { intros Hr.
    assert (Hrun : exists e,
              TelegramClient.downloadFileById pf client fileId savePath s
              = (Raises e, {| calls := S (calls s);
                              ctrace := ctrace s ++ [CGetFile fileId] |})).
    { unfold TelegramClient.downloadFileById. unfold bind at 1. rewrite Hget.
      destruct (file_path f) as [[|c r]|] eqn:Hpath;
        try (eexists; reflexivity).
      destruct Hr as [Hr|[Hr|Hr]]; try congruence.
      apply Hlarge in Hr. rewrite Hr. eexists; reflexivity. }
    destruct Hrun as [e ->]. cbn. rewrite downloads_app, app_nil_r. eauto. }
  assert (Hacc : ~ rejected f ->
            exists path,
              file_path f = Some path
              /\ downloads (ctrace (snd (TelegramClient.downloadFileById pf client
                                           fileId savePath s)))
                 = downloads (ctrace s)
                     ++ [("https://api.telegram.org/file/bot"
                            ++ TelegramClient.token client ++ "/" ++ path)%string]).
  { intros Hn. unfold rejected in Hn.
    destruct (file_path f) as [[|c r]|] eqn:Hpath; try tauto.
    exists (String c r). split; [reflexivity |].
    assert (Hsmall : TelegramClient.too_large f = false).
    { apply not_true_is_false. intros E. apply Hlarge in E. tauto. }
    assert (Hrun : exists finalSavePath,
              TelegramClient.downloadFileById pf client fileId savePath s
              = TelegramClient.downloadFile pf client (String c r) finalSavePath
                  {| calls := S (calls s);
                     ctrace := ctrace s ++ [CGetFile fileId] |}).
    { unfold TelegramClient.downloadFileById. unfold bind at 1.
      rewrite Hget, Hpath, Hsmall.
      destruct savePath as [[|c' r']|]; eexists; reflexivity. }
    destruct Hrun as (finalSavePath & ->).
    rewrite downloadFile_downloads. cbn [ctrace].
    rewrite downloads_app. cbn. rewrite app_nil_r. reflexivity. }
  split; [split; [| exact Hrej] |].
  - intros [Hraise Hsame]. destruct (file_path f) as [[|c r]|] eqn:Hpath;
      try (unfold rejected; rewrite Hpath; tauto).
    destruct (Bool.bool_dec (TelegramClient.too_large f) true) as [E|E].
    + right. right. now apply Hlarge.
    + exfalso. destruct Hacc as (path & _ & Hdl).
      * unfold rejected. rewrite Hpath. intros [H|[H|H]]; try discriminate.
        apply Hlarge in H. congruence.
      * rewrite Hsame in Hdl. apply (f_equal (@List.length string)) in Hdl.
        rewrite length_app in Hdl. cbn in Hdl. lia.
  - split; [exact Hacc |].
    unfold TelegramClient.too_large. intros [->| ->]; reflexivity.
Qed.

End Collaborators.

(** C9 on a concrete message: a document and a command from user 999
    while only user 12345 is allowed: three log lines, nothing else. *)
Lemma unauthorized_message_is_dropped_witness :
  exists this s1,
    MessageHandler.constructor (Some "12345")
      {| CommandHandler.commands := [] |} idle = (Returns this, s1)
    /\ MessageHandler.allowedUserId this = MessageHandler.IdNum 12345
    /\ MessageHandler.handle (lab max_size_file)
         (TelegramClient.constructor "test-token-123") this
         (a_message (Some stranger)) idle
       = (Returns tt,
          {| calls := O;
             ctrace :=
               [CLog INFO "MessageHandler" "Message from eve: /start" None;
                CConsoleDir (a_message (Some stranger));
                CLog WARN "MessageHandler"
                  "Ignoring message from unauthorized user: 999" None] |}).
Proof.
  refine (unauthorized_message_is_dropped (lab max_size_file)
            (TelegramClient.constructor "test-token-123")
            {| CommandHandler.commands := [] |} "12345" 12345 idle idle
            (a_message (Some stranger)) eq_refl _ _).
  - discriminate.
  - discriminate.
Defined.

(** C10, the sentence as it stands fails: a [getFile] result that has a
    [file_path], the empty string, and a size of 512 bytes is turned away
    before any download. *)
Lemma empty_file_path_is_rejected :
  file_path empty_path_file <> None
  /\ file_size empty_path_file = Some 512
  /\ 512 <= 20 * 1024 * 1024
  /\ fst (TelegramClient.downloadFileById (lab empty_path_file)
            (TelegramClient.constructor "test-token-123") "file-789" None idle)
     = Raises (PlainError "File path not available in response")
  /\ downloads (ctrace (snd (TelegramClient.downloadFileById (lab empty_path_file)
                               (TelegramClient.constructor "test-token-123")
                               "file-789" None idle)))
     = [].
Proof. vm_compute. repeat split; discriminate. Qed.

(** C10 on a file of exactly 20 MB: it is downloaded. *)
Lemma download_rejected_before_fetch_witness :
  exists path,
    file_path max_size_file = Some path
    /\ downloads (ctrace (snd (TelegramClient.downloadFileById (lab max_size_file)
                                 (TelegramClient.constructor "test-token-123")
                                 "max-file" None idle)))
       = ["https://api.telegram.org/file/bottest-token-123/documents/max.pdf"%string].
Proof.
  destruct (download_rejected_before_fetch (lab max_size_file)
              (TelegramClient.constructor "test-token-123") "max-file" None idle
              max_size_file None eq_refl) as (_ & Hacc & _).
  destruct Hacc as (path & Hpath & Hdl).
  - unfold rejected. cbn. intros [H|[H|(size & H & Hlt)]];
      try discriminate. injection H as <-. vm_compute in Hlt. discriminate.
  - exists path. split; [exact Hpath |]. cbn in Hpath. injection Hpath as <-.
    exact Hdl.
Defined.

(* ================================================================== *)
(** ** More of the cursor store and of the polling loop                *)
(* ================================================================== *)

Ltac fault_contra H :=
  match goal with
  | Hf : fs_fault _ ?t = Some _ |- _ => rewrite H in Hf by lia; discriminate
  end.

Section MoreCoreFacts.

Variable PS : Type.
Variable onUpdate : Update -> PS -> completion unit * PS.
Variable env : Env.

Lemma no_fault_from_le (t t' : nat) :
  (t <= t')%nat -> no_fault_from env t -> no_fault_from env t'.
Proof. intros Hle H k Hk. apply H. lia. Qed.

(** [save] on a disk that works from now on. *)
Lemma save_from (s : Sys PS) :
  no_fault_from env (tick s) ->
  exists s', save env s = (Returns tt, s') /\ steady env s s'
    /\ state s' = state s
    /\ file s' = Some (JSON_stringify (state s)) /\ dir_exists s' = true
    /\ steps (trace s') = steps (trace s) ++ [EvWriteFile (JSON_stringify (state s))].
Proof.
  unfold no_fault_from. intros Hnf. unfold_core. case_split;
    try fault_contra Hnf; eexists; (split; [reflexivity |]);
    (split; [steady_tac |]); (split; [reflexivity |]);
    cbn; unfold steps; rewrite ?select_app; cbn; rewrite ?app_nil_r;
    conj_split; try congruence; reflexivity.
Qed.

Lemma setOffset_from (s : Sys PS) (c n : Z) :
  state s = BotState c -> no_fault_from env (tick s) ->
  exists s', setOffset env n s = (Returns tt, s') /\ steady env s s'
    /\ state s' = BotState n /\ synced s' /\ dir_exists s' = true
    /\ steps (trace s')
       = steps (trace s) ++ [EvWriteFile (JSON_stringify (BotState n))].
Proof.
  intros Hst Hnf. unfold setOffset, bind, get_state, put_state, lift.
  rewrite Hst. cbn [assign_offset BotState]. cbn.
  destruct (save_from (set_state (BotState n) s) Hnf)
    as (s' & Hsave & Hsteady & Hstate & Hfile & Hdir & Hsteps).
  exists s'. unfold BotState in Hsave. rewrite Hsave. cbn in *.
  conj_split; auto.
  - eapply steady_trans; [| exact Hsteady]. steady_tac.
  - unfold synced. rewrite Hfile, Hstate. reflexivity.
Qed.

(** [setOffset] when the first disk operation of its save fails. *)
Lemma setOffset_fault (s : Sys PS) (c n : Z) (e : Error) :
  state s = BotState c -> fs_fault env (tick s) = Some e ->
  exists s', setOffset env n s = (Returns tt, s') /\ state s' = BotState n
    /\ file s' = file s /\ tick s' = S (tick s).
Proof.
  intros Hst Hf. unfold_core. cbn. rewrite Hst. cbn.
  destruct (dir_exists s) eqn:Hdir; cbn;
    destruct (stop_at env (tick s)); cbn; rewrite Hf; cbn;
    eexists; conj_split; reflexivity.
Qed.

Lemma call_onUpdate_steps (s : Sys PS) (u : Update) :
  exists s', call_onUpdate onUpdate env u s = (fst (onUpdate u (pstate s)), s')
    /\ pstate s' = snd (onUpdate u (pstate s))
    /\ steps (trace s') = steps (trace s) ++ [EvProcess u]
    /\ state s' = state s /\ tick s' = S (tick s).
Proof.
  unfold call_onUpdate. unfold_core. cbn.
  destruct (stop_at env (tick s)); cbn;
    destruct (onUpdate u (pstate s)) as [r p]; cbn;
    eexists; (split; [reflexivity |]); unfold steps; cbn; rewrite ?select_app;
    cbn; rewrite ?app_nil_r; conj_split; reflexivity.
Qed.

Lemma process_update_steps (s : Sys PS) (u : Update) (c : Z) :
  state s = BotState c -> fst (onUpdate u (pstate s)) = Returns tt ->
  no_fault_from env (tick s) ->
  exists s', process_update onUpdate env u s = (Returns tt, s')
    /\ state s' = BotState (update_id u + 1) /\ synced s'
    /\ pstate s' = snd (onUpdate u (pstate s))
    /\ (tick s <= tick s')%nat
    /\ steps (trace s')
       = steps (trace s)
           ++ [EvProcess u;
               EvWriteFile (JSON_stringify (BotState (update_id u + 1)))].
Proof.
  intros Hst Hok Hnf.
  destruct (call_onUpdate_steps s u) as (s1 & Hcall & Hp1 & Hsteps1 & Hst1 & Ht1).
  assert (Hnf1 : no_fault_from env (tick s1))
    by (apply (no_fault_from_le (tick s)); [lia | assumption]).
  assert (Hst1' : state s1 = BotState c) by congruence.
  destruct (setOffset_from s1 c (update_id u + 1) Hst1' Hnf1)
    as (s2 & Hset & [[[Htick _ _ _] _ _ _] Hp2 _] & Hst2 & Hsync & _ & Hsteps2).
  unfold process_update, try_catch, bind. rewrite Hcall, Hok, Hset.
  exists s2. conj_split; auto; try congruence; try lia.
  rewrite Hsteps2, Hsteps1, <- app_assoc. reflexivity.
Qed.

Lemma batch_steps (batch : list Update) :
  succeeds onUpdate ->
  forall (s : Sys PS) (c : Z),
  state s = BotState c -> no_fault_from env (tick s) ->
  exists s', for_each batch (process_update onUpdate env) s = (Returns tt, s')
    /\ steps (trace s')
       = steps (trace s)
           ++ flat_map
                (fun u => [EvProcess u;
                           EvWriteFile (JSON_stringify (BotState (update_id u + 1)))])
                batch.
Proof.
  intros Hsucc. induction batch as [|u r IH]; intros s c Hst Hnf.
  - exists s. cbn. now rewrite app_nil_r.
  - destruct (process_update_steps s u c Hst (Hsucc u (pstate s)) Hnf)
      as (s1 & Hrun & Hst1 & _ & _ & Htick & Hsteps1).
    destruct (IH s1 _ Hst1 (no_fault_from_le _ _ Htick Hnf)) as (s2 & Hrun2 & Hsteps2).
    exists s2. cbn [for_each flat_map]. unfold bind at 1. rewrite Hrun, Hrun2.
    split; [reflexivity |]. rewrite Hsteps2, Hsteps1, <- !app_assoc. reflexivity.
Qed.

(** A turn, whatever the remote does: it is pending, or it returns with
    the state still of the shape [{ offset: c }]. *)
Lemma iteration_total (s : Sys PS) (c : Z) :
  state s = BotState c -> settles onUpdate ->
  (exists s', iteration onUpdate env s = (Pending, s'))
  \/ (exists s' c', iteration onUpdate env s = (Returns tt, s')
                    /\ calm env s s' /\ state s' = BotState c').
Proof.
  intros Hst Hsettle. destruct (remote s) as [|ans rest] eqn:Hrem.
  - left.
    destruct (getUpdates_pending PS env s (Some (num c)) pollTimeout pollLimit Hrem)
      as (s' & Hget & _).
    exists s'. unfold iteration, try_catch, poll, getOffset, get_state, lift.
    unfold bind at 1 2. rewrite Hst.
    cbn [read_offset BotState lookup String.eqb Ascii.eqb Bool.eqb ret].
    change (JNum (NInt c)) with (num c). unfold bind at 1. rewrite Hget.
    reflexivity.
  - right. destruct (fetch_fails ans) eqn:Hfail.
    + assert (Hread : read_offset (state s) = Ok (Some (num c)))
        by (rewrite Hst; reflexivity).
      destruct (iteration_fail_spec PS onUpdate env s ans rest _ Hrem Hfail Hread)
        as (s' & Hit & Hc & _ & _ & _ & _ & _ & _ & _ & Hst' & _).
      exists s', c. conj_split; auto. congruence.
    + destruct (poll_ok_spec PS onUpdate env s ans rest c Hrem Hfail Hst Hsettle)
        as (s' & Hpoll & Hc & _ & _ & _ & _ & _ & Hst' & _).
      exists s', (cursor_after onUpdate (batch_of ans) (pstate s) c).
      conj_split; auto. now apply iteration_ok.
Qed.

(** [load] when the file is there: what it leaves alone. *)
Lemma load_present_frame (s : Sys PS) (data : string) :
  file s = Some data ->
  exists s', load env s = (Returns tt, s') /\ file s' = Some data
    /\ dir_exists s' = dir_exists s /\ pstate s' = pstate s
    /\ remote s' = remote s /\ tick s' = S (tick s)
    /\ disk_ops (trace s') = disk_ops (trace s) ++ [EvReadFile].
Proof.
  intros Hfile. unfold_core. cbn. rewrite Hfile. cbn.
  destruct (stop_at env (tick s)) eqn:Hstop; cbn;
    destruct (fs_fault env (tick s)) as [e|] eqn:Hfault; cbn; rewrite ?Hfile; cbn;
    try destruct (JSON_parse data) as [v|e]; cbn;
    try destruct (read_offset v) as [o|e]; cbn;
    try destruct (display_opt o) as [shown|e]; cbn;
    eexists; (split; [reflexivity |]); unfold disk_ops; cbn; rewrite ?select_app;
    cbn; rewrite ?app_nil_r; conj_split; auto.
Qed.

End MoreCoreFacts.

Section CoreExtras.

Variable PS : Type.
Variable onUpdate : Update -> PS -> completion unit * PS.
Variable env : Env.

(** X1. Round trip of the cursor through the state file: on a disk that
    works from now on, the offset given to [setOffset] is the offset a new
    process reads back with [load], and [load] leaves the file as it is. *)
Theorem offset_survives_restart (s : Sys PS) (c n : Z) :
  state s = BotState c -> no_fault_from env (tick s) ->
  exists s1 s2, setOffset env n s = (Returns tt, s1)
    /\ load env (restart s1) = (Returns tt, s2)
    /\ state s2 = BotState n /\ file s2 = file s1.
Proof.
  intros Hst Hnf.
  destruct (setOffset_from PS env s c n Hst Hnf)
    as (s1 & Hset & [[[Htick _ _ _] _ _ _] _ _] & Hst1 & Hsync & _).
  unfold synced in Hsync. rewrite Hst1 in Hsync.
  assert (Hfile : file (restart s1) = Some (JSON_stringify (BotState n)))
    by exact Hsync.
  destruct (load_present PS env (restart s1) _ Hfile)
    as (s2 & l & Hload & _ & Hf2 & Hcase).
  exists s1, s2. split; [exact Hset |]. split; [exact Hload |].
  assert (Hok : fs_fault env (tick (restart s1)) = None)
    by (apply Hnf; exact Htick).
  rewrite Hok in Hcase. unfold BotState in Hcase.
  rewrite parse_stringify_BotState in Hcase.
  cbn [read_offset lookup String.eqb Ascii.eqb Bool.eqb display_opt to_display]
    in Hcase.
  split; [exact (proj1 Hcase) | exact Hf2].
Qed.

(** X2. An empty batch is a no-op: [poll] returns having sent one request
    and nothing else; the cursor, the file, the directory and the
    processor are as before, and nothing is logged for the batch. *)
Theorem empty_batch_changes_nothing (s : Sys PS) (rest : list FetchOutcome)
    (o : option JsValue) :
  remote s = ok_batch [] :: rest -> read_offset (state s) = Ok o ->
  exists s', poll onUpdate env s = (Returns tt, s')
    /\ state s' = state s /\ file s' = file s /\ dir_exists s' = dir_exists s
    /\ pstate s' = pstate s /\ remote s' = rest
    /\ trace s'
       = trace s ++ EvGetUpdates o pollTimeout pollLimit
           :: (if stop_at env (tick s)
               then [EvLog INFO "PollingService" "Polling stopped" None]
               else []).
Proof.
  intros Hrem Hread.
  destruct (getUpdates_spec PS env s o pollTimeout pollLimit _ rest Hrem)
    as (s1 & Hget & _ & Hrem1 & Htr1 & Hp1 & Hst1 & Hf1 & Hd1 & _).
  cbn [fetch_fails ok_batch ok negb batch_of result_of] in Hget, Htr1.
  rewrite app_nil_r in Htr1.
  unfold poll, getOffset, get_state, lift. unfold bind at 1 2. rewrite Hread.
  cbn [ret]. unfold bind at 1. rewrite Hget. cbn.
  exists s1. conj_split; auto.
Qed.

(** X3. A processor that fails causes no backoff: after a fetch that
    succeeded the turn of the loop ends normally, whatever the processor
    did with the updates; nothing is slept on, and the loop goes on to its
    next turn at once. *)
Theorem processor_failure_causes_no_backoff (s : Sys PS) (ans : FetchOutcome)
    (rest : list FetchOutcome) (c : Z) :
  remote s = ans :: rest -> fetch_fails ans = false ->
  state s = BotState c -> settles onUpdate ->
  exists s', iteration onUpdate env s = (Returns tt, s')
    /\ sleeps (trace s') = sleeps (trace s)
    /\ fetches (trace s') = fetches (trace s) ++ [Some (num c)]
    /\ processed (trace s') = processed (trace s) ++ batch_of ans
    /\ remote s' = rest
    /\ (isRunning s = true ->
        forall fuel, loop onUpdate env (S fuel) s = loop onUpdate env fuel s').
Proof.
  intros Hrem Hok Hst Hsettle.
  destruct (poll_ok_spec PS onUpdate env s ans rest c Hrem Hok Hst Hsettle)
    as (s' & Hpoll & _ & Hrem' & Hfe & Hsl & Hpr & _).
  pose proof (iteration_ok PS onUpdate env s s' Hpoll) as Hit.
  exists s'. conj_split; auto.
  intros Hrun fuel. now apply loop_step.
Qed.

(** X4. Only [stop()] ends the loop: as long as nobody calls [stop()],
    [start] neither returns nor throws, whatever the fetches, the
    processor and the disk do; the loop is still turning, or waiting for
    an answer to its request. *)
Theorem only_stop_ends_the_loop (fuel : nat) :
  never_stopped env -> settles onUpdate ->
  forall (s : Sys PS) (c : Z),
  isRunning s = true -> state s = BotState c ->
  loop onUpdate env fuel s = None
  \/ exists s', loop onUpdate env fuel s = Some (Pending, s').
Proof.
  intros Hnever Hsettle. induction fuel as [|fuel IH]; intros s c Hrun Hst.
  - left. cbn. now rewrite Hrun.
  - destruct (iteration_total PS onUpdate env s c Hst Hsettle)
      as [(s' & Hit) | (s' & c' & Hit & Hcalm & Hst')].
    + right. exists s'. cbn [loop]. now rewrite Hrun, Hit.
    + rewrite (loop_step PS onUpdate env fuel s s' Hrun Hit).
      apply (IH s' c'); [| exact Hst'].
      destruct Hcalm as [_ _ Hkeep _]. rewrite Hkeep; [exact Hrun |].
      intros t _. apply Hnever.
Qed.

(** X5. The cursor is written to disk after each update and before the
    next one is handed to the processor: with a processor that succeeds
    and a working disk, the calls of the processor and the writes of the
    state file alternate, each write holding the id just processed plus
    one. *)
Theorem cursor_is_written_before_next_update (s : Sys PS) (batch : list Update)
    (rest : list FetchOutcome) (c : Z) :
  remote s = ok_batch batch :: rest -> state s = BotState c ->
  succeeds onUpdate -> no_fault_from env (tick s) ->
  exists s', poll onUpdate env s = (Returns tt, s')
    /\ steps (trace s')
       = steps (trace s)
           ++ flat_map
                (fun u => [EvProcess u;
                           EvWriteFile (JSON_stringify (BotState (update_id u + 1)))])
                batch.
Proof.
  intros Hrem Hst Hsucc Hnf.
  destruct (getUpdates_spec PS env s (Some (num c)) pollTimeout pollLimit _ rest Hrem)
    as (s1 & Hget & _ & _ & Htr1 & _ & Hst1 & _ & _ & Ht1 & _).
  cbn [fetch_fails ok_batch ok negb batch_of result_of] in Hget, Htr1.
  rewrite app_nil_r in Htr1.
  assert (Hsteps1 : steps (trace s1) = steps (trace s)).
  { rewrite Htr1. unfold steps. rewrite select_app. cbn.
    destruct (stop_at env (tick s)); cbn; now rewrite app_nil_r. }
  unfold poll, getOffset, get_state, lift. unfold bind at 1 2. rewrite Hst.
  cbn [read_offset BotState lookup String.eqb Ascii.eqb Bool.eqb ret].
  change (JNum (NInt c)) with (num c). unfold bind at 1. rewrite Hget.
  destruct batch as [|u r].
  - exists s1. cbn. rewrite app_nil_r. auto.
  - cbn [List.length Nat.eqb]. unfold log, emit, bind at 1.
    set (s2 := set_trace _ s1).
    assert (Hst2 : state s2 = BotState c) by (cbn; congruence).
    assert (Ht2 : tick s2 = S (tick s)) by (cbn; congruence).
    assert (Hsteps2 : steps (trace s2) = steps (trace s)).
    { subst s2. cbn. unfold steps in *. rewrite select_app, Hsteps1. cbn.
      now rewrite app_nil_r. }
    clearbody s2.
    assert (Hnf2 : no_fault_from env (tick s2))
      by (apply (no_fault_from_le env (tick s)); [lia | assumption]).
    destruct (batch_steps PS onUpdate env (u :: r) Hsucc s2 c Hst2 Hnf2)
      as (s3 & Hrun & Hsteps3).
    exists s3. split; [exact Hrun |]. now rewrite Hsteps3, Hsteps2.
Qed.

(** X6. A write that failed is made good by the next one: when the disk
    fails during one [setOffset] and works afterwards, the file keeps its
    old content for the time being, and the next [setOffset] leaves both
    the memory and the file at the newer offset. *)
Theorem failed_write_is_repaired_by_next_save (s : Sys PS) (c a b : Z)
    (e : Error) :
  state s = BotState c -> fs_fault env (tick s) = Some e ->
  no_fault_from env (S (tick s)) ->
  exists s1 s2, setOffset env a s = (Returns tt, s1)
    /\ cursor s1 = Some (num a) /\ file s1 = file s
    /\ setOffset env b s1 = (Returns tt, s2)
    /\ cursor s2 = Some (num b) /\ persisted s2 = Some (num b).
Proof.
  intros Hst Hfault Hnf.
  destruct (setOffset_fault PS env s c a e Hst Hfault)
    as (s1 & Hset1 & Hst1 & Hf1 & Ht1).
  rewrite <- Ht1 in Hnf.
  destruct (setOffset_from PS env s1 a b Hst1 Hnf)
    as (s2 & Hset2 & _ & Hst2 & Hsync & _).
  exists s1, s2. conj_split; auto using cursor_BotState, persisted_synced.
Qed.

(** X7. A state file that cannot be parsed is left in place by [load] and
    replaced by the first update that is processed: after it the file
    holds that update's id plus one. *)
Theorem corrupt_file_is_repaired_by_first_update (s : Sys PS) (data : string)
    (e : Error) (u : Update) :
  file s = Some data -> JSON_parse data = Throw e ->
  no_fault_from env (tick s) ->
  fst (onUpdate u (pstate s)) = Returns tt ->
  exists s1 s2, load env s = (Returns tt, s1)
    /\ file s1 = Some data /\ cursor s1 = Some (num 0)
    /\ process_update onUpdate env u s1 = (Returns tt, s2)
    /\ cursor s2 = Some (num (update_id u + 1))
    /\ persisted s2 = Some (num (update_id u + 1)).
Proof.
  intros Hfile Hbad Hnf Hok.
  destruct (load_present PS env s data Hfile) as (s1 & l & Hload & _ & _ & Hcase).
  destruct (load_present_frame PS env s data Hfile)
    as (s1' & Hload' & Hf1 & _ & Hp1 & _ & Ht1 & _).
  assert (s1' = s1) by congruence. subst s1'.
  rewrite (Hnf (tick s) (le_n _)), Hbad in Hcase. destruct Hcase as [Hst1 _].
  assert (Hnf1 : no_fault_from env (tick s1))
    by (apply (no_fault_from_le env (tick s)); [lia | assumption]).
  rewrite <- Hp1 in Hok.
  destruct (process_update_steps PS onUpdate env s1 u 0 Hst1 Hok Hnf1)
    as (s2 & Hrun & Hst2 & Hsync & _).
  exists s1, s2. conj_split; auto using cursor_BotState, persisted_synced.
Qed.

(** X8. [load] never writes when the state file exists: readable or not,
    well-formed or not, the file and the directory are left as they are
    and the only disk operation is the one read. *)
Theorem load_never_writes_existing_file (s : Sys PS) (data : string) :
  file s = Some data ->
  exists s', load env s = (Returns tt, s')
    /\ file s' = Some data /\ dir_exists s' = dir_exists s
    /\ disk_ops (trace s') = disk_ops (trace s) ++ [EvReadFile].
Proof.
  intros Hfile.
  destruct (load_present_frame PS env s data Hfile)
    as (s' & Hload & Hf & Hd & _ & _ & _ & Hops).
  exists s'. auto.
Qed.

(** X9. A state that is not an object (a JSON number, string or boolean,
    as [load] takes it from a file holding one) blocks the cursor: every update is still
    handed to the processor, but setting the offset throws, so the update
    is logged as failed and neither the state nor the disk changes. *)
Theorem primitive_state_blocks_the_cursor (s : Sys PS) (u : Update) :
  is_object (state s) = false ->
  fst (onUpdate u (pstate s)) <> Pending ->
  exists s', process_update onUpdate env u s = (Returns tt, s')
    /\ processed (trace s') = processed (trace s) ++ [u]
    /\ state s' = state s /\ file s' = file s
    /\ disk_ops (trace s') = disk_ops (trace s)
    /\ exists e,
         In (EvLog ERROR "PollingService"
               ("Failed to process update " ++ int_string (update_id u))%string
               (Some e)) (trace s').
Proof.
  intros Hobj Hsettle.
  unfold process_update, call_onUpdate, setOffset. unfold_core. cbn.
  destruct (stop_at env (tick s)); cbn;
    destruct (onUpdate u (pstate s)) as [[[]| err |] p]; cbn in *;
    try congruence;
    destruct (state s) as [| b | n | str | items named | props]; cbn in *;
    try discriminate;
    eexists; (split; [reflexivity |]); cbn; unfold processed, disk_ops;
    rewrite ?select_app; cbn; rewrite ?app_nil_r;
    conj_split; try reflexivity;
    eexists; apply in_or_app; right; cbn; auto.
Qed.

End CoreExtras.

(** X1 on new objects: 42 is set, the process restarts, 42 is loaded. *)
Lemma offset_survives_restart_witness :
  exists s1 s2, setOffset fair_weather 42 (constructed []) = (Returns tt, s1)
    /\ load fair_weather (restart s1) = (Returns tt, s2)
    /\ state s2 = BotState 42 /\ file s2 = file s1.
Proof.
  exact (offset_survives_restart unit fair_weather (constructed []) 0 42 eq_refl
           (fun _ _ => eq_refl)).
Defined.

(** X2 on a loaded store whose first answer is the empty batch. *)
Lemma empty_batch_changes_nothing_witness :
  exists s', poll always_ok fair_weather (loaded [ok_batch []]) = (Returns tt, s')
    /\ state s' = BotState 0
    /\ file s' = file (loaded [ok_batch []])
    /\ trace s'
       = trace (loaded [ok_batch []])
           ++ [EvGetUpdates (Some (num 0)) pollTimeout pollLimit].
Proof.
  destruct (empty_batch_changes_nothing unit always_ok fair_weather
              (loaded [ok_batch []]) [] (Some (num 0)) eq_refl eq_refl)
    as (s' & Hpoll & Hst & Hf & _ & _ & _ & Htr).
  exists s'. repeat split; assumption.
Defined.

(** X3 on the batch [1, 2] with a processor that fails on 1. *)
Lemma processor_failure_causes_no_backoff_witness :
  exists s',
    iteration (fails_on 1) fair_weather (running [ok_batch [upd 1; upd 2]])
    = (Returns tt, s')
    /\ sleeps (trace s') = []
    /\ processed (trace s') = [upd 1; upd 2].
Proof.
  destruct (processor_failure_causes_no_backoff unit (fails_on 1) fair_weather
              (running [ok_batch [upd 1; upd 2]]) (ok_batch [upd 1; upd 2]) [] 0
              eq_refl eq_refl eq_refl (fails_on_settles 1))
    as (s' & Hit & Hsl & _ & Hpr & _).
  exists s'. repeat split; assumption.
Defined.

(** X4 on a script of one failed and one successful fetch: ten turns do
    not end the loop. *)
Lemma only_stop_ends_the_loop_witness :
  loop always_ok fair_weather 10 (running [connection_refused; ok_batch [upd 1]])
  = None
  \/ exists s',
       loop always_ok fair_weather 10
         (running [connection_refused; ok_batch [upd 1]])
       = Some (Pending, s').
Proof.
  exact (only_stop_ends_the_loop unit always_ok fair_weather 10
           (fun _ => eq_refl) always_ok_settles
           (running [connection_refused; ok_batch [upd 1]]) 0 eq_refl eq_refl).
Defined.

(** X5 on the batch [5, 6]. *)
Lemma cursor_is_written_before_next_update_witness :
  exists s',
    poll always_ok fair_weather (loaded [ok_batch [upd 5; upd 6]]) = (Returns tt, s')
    /\ steps (trace s')
       = steps (trace (loaded [ok_batch [upd 5; upd 6]]))
           ++ [EvProcess (upd 5); EvWriteFile (JSON_stringify (BotState 6));
               EvProcess (upd 6); EvWriteFile (JSON_stringify (BotState 7))].
Proof.
  exact (cursor_is_written_before_next_update unit always_ok fair_weather
           (loaded [ok_batch [upd 5; upd 6]]) [upd 5; upd 6] [] 0
           eq_refl eq_refl always_ok_succeeds (fun _ _ => eq_refl)).
Defined.

(** X6 on a disk that fails once: 1 is lost on disk, 2 is written. *)
Lemma failed_write_is_repaired_by_next_save_witness :
  exists s1 s2, setOffset (hiccup 0) 1 (constructed []) = (Returns tt, s1)
    /\ cursor s1 = Some (num 1) /\ file s1 = None
    /\ setOffset (hiccup 0) 2 s1 = (Returns tt, s2)
    /\ cursor s2 = Some (num 2) /\ persisted s2 = Some (num 2).
Proof.
  refine (failed_write_is_repaired_by_next_save unit (hiccup 0) (constructed [])
            0 1 2 (MkError "Error" "EIO: i/o error") eq_refl eq_refl _).
  intros k Hk. destruct k; [lia | reflexivity].
Defined.

(** X7 on a file that is not JSON, and the update 7. *)
Lemma corrupt_file_is_repaired_by_first_update_witness :
  exists s1 s2, load fair_weather (with_file "{invalid") = (Returns tt, s1)
    /\ file s1 = Some "{invalid"%string /\ cursor s1 = Some (num 0)
    /\ process_update always_ok fair_weather (upd 7) s1 = (Returns tt, s2)
    /\ cursor s2 = Some (num 8)
    /\ persisted s2 = Some (num 8).
Proof.
  exact (corrupt_file_is_repaired_by_first_update unit always_ok fair_weather
           (with_file "{invalid") "{invalid"
           (SyntaxError "Unexpected token or end of JSON input") (upd 7)
           eq_refl eq_refl (fun _ _ => eq_refl) eq_refl).
Defined.

(** X8 on the same file. *)
Lemma load_never_writes_existing_file_witness :
  exists s', load fair_weather (with_file "{invalid") = (Returns tt, s')
    /\ file s' = Some "{invalid"%string /\ dir_exists s' = true
    /\ disk_ops (trace s') = [EvReadFile].
Proof.
  exact (load_never_writes_existing_file unit fair_weather (with_file "{invalid")
           "{invalid" eq_refl).
Defined.

(** X9 on a state file that holds the number 5. *)
Lemma primitive_state_blocks_the_cursor_witness :
  is_object (state (snd (load fair_weather (with_file "5")))) = false
  /\ exists s',
       process_update always_ok fair_weather (upd 1)
         (snd (load fair_weather (with_file "5")))
       = (Returns tt, s')
       /\ state s' = JNum (NInt 5)
       /\ file s' = Some "5"%string.
Proof.
  split; [reflexivity |].
  destruct (primitive_state_blocks_the_cursor unit always_ok fair_weather
              (snd (load fair_weather (with_file "5"))) (upd 1) eq_refl)
    as (s' & Hrun & _ & Hst & Hf & _); [discriminate |].
  exists s'. repeat split; assumption.
Defined.

(* ================================================================== *)
(** ** More of the client, the command table and the routers           *)
(* ================================================================== *)

Lemma effects_app (a b : list CEvent) : effects (a ++ b) = effects a ++ effects b.
Proof. apply filter_app. Qed.

Lemma callbacks_app (a b : list CEvent) :
  callbacks (a ++ b) = callbacks a ++ callbacks b.
Proof.
  induction a as [|e a IH]; [reflexivity |].
  destruct e; cbn; rewrite IH; reflexivity.
Qed.

Lemma file_requests_app (a b : list CEvent) :
  file_requests (a ++ b) = file_requests a ++ file_requests b.
Proof.
  induction a as [|e a IH]; [reflexivity |].
  destruct e; cbn; rewrite IH; reflexivity.
Qed.

Lemma writes_app (a b : list CEvent) : writes (a ++ b) = writes a ++ writes b.
Proof.
  induction a as [|e a IH]; [reflexivity |].
  destruct e; cbn; rewrite IH; reflexivity.
Qed.

Ltac unfold_client :=
  unfold TelegramClient.downloadFileById, TelegramClient.getFile,
    TelegramClient.downloadFile, TelegramClient.sendMessage, makeRequest,
    TelegramClient.log_error, clog, try_catch, bind, cemit, next_call,
    answer_of, fault_of, ret, throw in *.

Ltac client_cases :=
  repeat (cbn [calls ctrace ok result_of description negb fst snd];
          match goal with
          | |- context [getFile_answer ?p ?n] =>
              destruct (getFile_answer p n) as [?|[[] ? ?]] eqn:?
          | |- context [sendMessage_answer ?p ?n] =>
              destruct (sendMessage_answer p n) as [?|[[] ? ?]] eqn:?
          | |- context [file_answer ?p ?n] =>
              destruct (file_answer p n) as [?|[] ? ?] eqn:?
          | |- context [mkdir_fault ?p ?n] => destruct (mkdir_fault p n) eqn:?
          | |- context [writeFile_fault ?p ?n] =>
              destruct (writeFile_fault p n) eqn:?
          | |- context [file_path ?f] =>
              is_var f; destruct (file_path f) as [[|? ?]|] eqn:?
          | |- context [TelegramClient.too_large ?f] =>
              is_var f; destruct (TelegramClient.too_large f) eqn:?
          end).

Ltac observe :=
  cbn [calls ctrace fst snd];
  rewrite ?effects_app, ?callbacks_app, ?file_requests_app, ?writes_app,
    ?downloads_app;
  cbn [effects filter is_effect callbacks file_requests writes downloads app];
  rewrite ?app_nil_r, <- ?app_assoc; cbn [app].

Section CollaboratorFacts.

Variable pf : Platform.
Variable client : TelegramClient.t.

Lemma sendMessage_ok (chat : Z) (body : string) (st : CState)
    (data : TelegramResponse unit) :
  sendMessage_answer pf (calls st) = Responds data -> ok data = true ->
  TelegramClient.sendMessage pf chat body st
  = (Returns tt, {| calls := S (calls st);
                    ctrace := ctrace st ++ [CSendMessage chat body] |}).
Proof.
  intros Hans Hok. unfold_client. cbn. rewrite Hans. cbn. rewrite Hok.
  reflexivity.
Qed.

Lemma sendMessage_refused (chat : Z) (body : string) (st : CState) :
  refused (sendMessage_answer pf (calls st)) ->
  exists e,
    TelegramClient.sendMessage pf chat body st
    = (Raises e,
       {| calls := S (calls st);
          ctrace := ctrace st
                      ++ [CSendMessage chat body;
                          CLog ERROR "TelegramClient" "Failed to call sendMessage"
                            (Some e)] |}).
Proof.
  intros Href. unfold_client. cbn.
  destruct (sendMessage_answer pf (calls st)) as [e|data]; cbn in *.
  - eexists. rewrite <- app_assoc. reflexivity.
  - rewrite Href. cbn. eexists. rewrite <- app_assoc. reflexivity.
Qed.

(** Whatever the answer, [sendMessage] does one thing to the outside. *)
Lemma sendMessage_frame (chat : Z) (body : string) (st : CState) :
  exists r st', TelegramClient.sendMessage pf chat body st = (r, st')
    /\ r <> Pending
    /\ effects (ctrace st') = effects (ctrace st) ++ [CSendMessage chat body]
    /\ callbacks (ctrace st') = callbacks (ctrace st)
    /\ file_requests (ctrace st') = file_requests (ctrace st).
Proof.
  unfold_client. client_cases; eexists _, _; (split; [reflexivity |]);
    (split; [discriminate |]); observe; auto.
Qed.

(** Whatever happens, [downloadFileById] asks for the file once, sends no
    message and runs no command. *)
Lemma downloadFileById_frame (fileId : string) (savePath : option string)
    (st : CState) :
  exists r st',
    TelegramClient.downloadFileById pf client fileId savePath st = (r, st')
    /\ r <> Pending
    /\ callbacks (ctrace st') = callbacks (ctrace st)
    /\ file_requests (ctrace st') = file_requests (ctrace st) ++ [fileId]
    /\ exists l, effects (ctrace st') = effects (ctrace st) ++ CGetFile fileId :: l
                 /\ forall chat body, ~ In (CSendMessage chat body) l.
Proof.
  unfold_client. destruct savePath as [[|c' r']|]; client_cases;
    eexists _, _; (split; [reflexivity |]); (split; [discriminate |]); observe;
    (split; [reflexivity |]); (split; [reflexivity |]);
    eexists; (split; [reflexivity |]); intros ? ? Hin; cbn in Hin;
    intuition discriminate.
Qed.

(** A download that is refused before the file is fetched. *)
Lemma downloadFileById_refused (fileId : string) (savePath : option string)
    (st : CState) :
  match getFile_answer pf (calls st) with
  | Rejects _ => True
  | Responds data => ok data = true -> rejected (result_of data)
  end ->
  exists e l,
    TelegramClient.downloadFileById pf client fileId savePath st
    = (Raises e, {| calls := S (calls st);
                    ctrace := ctrace st ++ CGetFile fileId :: l |})
    /\ effects l = [].
Proof.
  intros Hans. unfold_client. cbn [calls ctrace].
  destruct (getFile_answer pf (calls st)) as [e|[[] f d]];
    cbn [calls ctrace ok result_of description negb fst snd] in *.
  - eexists _, _. rewrite <- app_assoc. split; reflexivity.
  - specialize (Hans eq_refl).
    destruct (file_path f) as [[|c r]|] eqn:Hpath;
      try (eexists _, []; split; reflexivity).
    destruct Hans as [H|[H|(size & Hsize & Hlt)]]; try congruence.
    assert (Hlarge : TelegramClient.too_large f = true).
    { unfold TelegramClient.too_large. rewrite Hsize. apply andb_true_iff.
      unfold TelegramClient.MAX_FILE_SIZE in *. split;
        [apply negb_true_iff, Z.eqb_neq; lia | apply Z.ltb_lt; lia]. }
    rewrite Hlarge. eexists _, []. split; reflexivity.
  - eexists _, _. rewrite <- app_assoc. split; reflexivity.
Qed.

End CollaboratorFacts.

Section CommandTable.

Import CommandHandler.

Lemma lower_char_idempotent (c : ascii) : lower_char (lower_char c) = lower_char c.
Proof. destruct c as [[] [] [] [] [] [] [] []]; reflexivity. Qed.

Lemma toLowerCase_idempotent (s : string) :
  toLowerCase (toLowerCase s) = toLowerCase s.
Proof.
  induction s as [|c r IH]; [reflexivity |].
  cbn [toLowerCase]. now rewrite lower_char_idempotent, IH.
Qed.

Lemma map_get_set_same (k : string) (d : CommandDefinition)
    (m : list (string * CommandDefinition)) :
  map_get k (map_set k d m) = Some d.
Proof.
  induction m as [|[k' d'] m IH]; cbn.
  - now rewrite String.eqb_refl.
  - destruct (String.eqb k k') eqn:E; cbn; rewrite E; auto.
Qed.

Lemma map_get_set_other (k k' : string) (d : CommandDefinition)
    (m : list (string * CommandDefinition)) :
  k' <> k -> map_get k' (map_set k d m) = map_get k' m.
Proof.
  intros Hne. induction m as [|[k0 d0] m IH]; cbn.
  - apply String.eqb_neq in Hne. now rewrite Hne.
  - destruct (String.eqb k k0) eqn:E; cbn.
    + apply String.eqb_eq in E. subst k0.
      apply String.eqb_neq in Hne. now rewrite Hne.
    + destruct (String.eqb k' k0); auto.
Qed.

(** The steps of [handle] up to the lookup. *)
Lemma handle_lookup (this : t) (message : Message) (txt part : string)
    (args : list string) (st : CState) :
  text message = Some txt -> startsWith_slash txt = true ->
  split_space (slice1 txt) = part :: args ->
  handle this message st
  = match map_get (toLowerCase part) (commands this) with
    | None =>
        (Returns tt,
         {| calls := calls st;
            ctrace := ctrace st
                        ++ [CLog WARN "CommandHandler"
                              ("Unknown command: /" ++ toLowerCase part)%string
                              None] |})
    | Some def =>
        match callback def (entries this) message args
                {| calls := calls st;
                   ctrace := ctrace st ++ [CCallback (toLowerCase part) args] |}
        with
        | (Raises e, st') =>
            (Returns tt,
             {| calls := calls st';
                ctrace := ctrace st'
                            ++ [CLog ERROR "CommandHandler"
                                  ("Error handling command /"
                                     ++ toLowerCase part)%string (Some e)] |})
        | other => other
        end
    end.
Proof.
  intros Htxt Hslash Hsplit. unfold handle. rewrite Htxt, Hslash, Hsplit.
  cbn [negb]. destruct (map_get (toLowerCase part) (commands this)) as [def|];
    [| reflexivity].
  unfold try_catch, bind, cemit, clog. cbn [calls ctrace].
  destruct (callback def (entries this) message args _) as [[[]| e |] st'];
    reflexivity.
Qed.

Lemma handle_no_raise (this : t) (message : Message) (st : CState) (e : Error) :
  fst (handle this message st) <> Raises e.
Proof.
  destruct (text message) as [txt|] eqn:Htxt;
    [| unfold handle; rewrite Htxt; discriminate].
  destruct (startsWith_slash txt) eqn:Hslash;
    [| unfold handle; rewrite Htxt, Hslash; discriminate].
  destruct (split_space (slice1 txt)) as [|part args] eqn:Hsplit;
    [unfold handle; rewrite Htxt, Hslash, Hsplit; discriminate |].
  rewrite (handle_lookup this message txt part args st Htxt Hslash Hsplit).
  destruct (map_get (toLowerCase part) (commands this)) as [def|];
    [| discriminate].
  destruct (callback def (entries this) message args _) as [[[]| e' |] st'];
    discriminate.
Qed.

(** X10. [CommandHandler.handle] never throws: a callback that throws is
    logged under its command and the handler returns. *)
Theorem command_errors_are_swallowed (this : t) (message : Message)
    (st : CState) :
  (forall e, fst (handle this message st) <> Raises e)
  /\ forall txt part args def e st',
       text message = Some txt -> startsWith_slash txt = true ->
       split_space (slice1 txt) = part :: args ->
       map_get (toLowerCase part) (commands this) = Some def ->
       callback def (entries this) message args
         {| calls := calls st;
            ctrace := ctrace st ++ [CCallback (toLowerCase part) args] |}
       = (Raises e, st') ->
       handle this message st
       = (Returns tt,
          {| calls := calls st';
             ctrace := ctrace st'
                         ++ [CLog ERROR "CommandHandler"
                               ("Error handling command /"
                                  ++ toLowerCase part)%string (Some e)] |}).
Proof.
  split.
  - intros e. apply handle_no_raise.
  - intros txt part args def e st' Htxt Hslash Hsplit Hget Hrun.
    rewrite (handle_lookup this message txt part args st Htxt Hslash Hsplit).
    now rewrite Hget, Hrun.
Qed.

(** X11. A command that was registered is the one that runs: after
    [registerCommand name], a message whose first word is made of ASCII
    characters and is [/name] in any letter case runs the new callback on
    the message and the remaining words, whatever was registered under
    the name before; the other commands are as before, and the command
    is in the listing that [/help] prints. *)
Theorem registered_command_is_dispatched (this : t) (name desc : string)
    (cb : CommandCallback) (st0 : CState) (message : Message)
    (txt part : string) (args : list string) (st : CState) :
  text message = Some txt -> startsWith_slash txt = true ->
  split_space (slice1 txt) = part :: args ->
  ascii_only part = true ->
  toLowerCase part = name ->
  exists this' st1,
    registerCommand this name desc cb st0 = (Returns this', st1)
    /\ (forall other, other <> name ->
        map_get other (commands this') = map_get other (commands this))
    /\ In (name, desc) (entries this')
    /\ handle this' message st
       = match cb (entries this') message args
                 {| calls := calls st;
                    ctrace := ctrace st ++ [CCallback name args] |}
         with
         | (Raises e, st') =>
             (Returns tt,
              {| calls := calls st';
                 ctrace := ctrace st'
                             ++ [CLog ERROR "CommandHandler"
                                   ("Error handling command /" ++ name)%string
                                   (Some e)] |})
         | other => other
         end.
Proof.
  intros Htxt Hslash Hsplit _ Hname.
  eexists _, _. split; [reflexivity |]. cbn [commands].
  split; [intros other Hne; now apply map_get_set_other |].
  split.
  - unfold entries. cbn [commands].
    induction (commands this) as [|[k d] m IH]; cbn; [now left |].
    destruct (String.eqb name k) eqn:E; cbn.
    + left. apply String.eqb_eq in E. now subst k.
    + right. exact IH.
  - rewrite (handle_lookup _ message txt part args st Htxt Hslash Hsplit).
    cbn [commands]. rewrite Hname, map_get_set_same. reflexivity.
Qed.

(** X12. The lookup lowers the case of the word in the message, the
    registration keeps the name as given: a command registered under a
    name of ASCII characters with a capital letter among them (and
    without a lower-case twin in the table) is not found by a message
    that names it in ASCII characters, however it spells the letter
    case; the message only gets the warning. *)
Theorem uppercase_command_is_unreachable (this : t) (name desc : string)
    (cb : CommandCallback) (st0 : CState) (message : Message)
    (txt part : string) (args : list string) (st : CState) :
  ascii_only name = true -> toLowerCase name <> name ->
  map_get (toLowerCase name) (commands this) = None ->
  text message = Some txt -> startsWith_slash txt = true ->
  split_space (slice1 txt) = part :: args ->
  ascii_only part = true ->
  toLowerCase part = toLowerCase name ->
  exists this' st1,
    registerCommand this name desc cb st0 = (Returns this', st1)
    /\ handle this' message st
       = (Returns tt,
          {| calls := calls st;
             ctrace := ctrace st
                         ++ [CLog WARN "CommandHandler"
                               ("Unknown command: /" ++ toLowerCase name)%string
                               None] |}).
Proof.
  intros _ Hcase Hfree Htxt Hslash Hsplit _ Hpart.
  eexists _, _. split; [reflexivity |].
  rewrite (handle_lookup _ message txt part args st Htxt Hslash Hsplit).
  cbn [commands]. rewrite Hpart, map_get_set_other, Hfree; auto.
Qed.

End CommandTable.

Section Routers.

Variable pf : Platform.
Variable client : TelegramClient.t.

Ltac run_download :=
  match goal with
  | |- context [TelegramClient.downloadFileById pf client ?i ?p ?s1] =>
      let r := fresh "r" in
      let st2 := fresh "st" in
      let Hrun := fresh "Hrun" in
      destruct (downloadFileById_frame pf client i p s1)
        as (r & st2 & Hrun & ? & ? & ? & ?);
      rewrite Hrun
  end.

Ltac run_send :=
  match goal with
  | |- context [TelegramClient.sendMessage pf ?c ?b ?s1] =>
      let r := fresh "r" in
      let st2 := fresh "st" in
      let Hrun := fresh "Hrun" in
      destruct (sendMessage_frame pf c b s1) as (r & st2 & Hrun & ? & ? & ? & ?);
      rewrite Hrun
  end.

(** [try { downloadFileById; log } catch { log; sendMessage }], as both
    attachment handlers have it. *)
Lemma download_or_report_frame (fileId : string) (saved failed : string)
    (chat : Z) (notice : string) (st : CState) :
  exists r st',
    try_catch
      (res <- TelegramClient.downloadFileById pf client fileId None ;;
       clog INFO "MessageHandler" (saved ++ saved_path res)%string None)
      (fun error =>
         clog ERROR "MessageHandler" failed (Some error) ;;
         TelegramClient.sendMessage pf chat notice) st
    = (r, st')
    /\ r <> Pending
    /\ callbacks (ctrace st') = callbacks (ctrace st)
    /\ file_requests (ctrace st') = file_requests (ctrace st) ++ [fileId].
Proof.
  unfold try_catch, bind at 1. run_download.
  destruct r as [res| e |]; [| | congruence].
  - unfold clog, cemit. eexists _, _. split; [reflexivity |].
    split; [discriminate |]. observe. auto.
  - unfold clog, cemit, bind. cbn [calls ctrace]. run_send.
    eexists _, _. split; [reflexivity |]. split; [assumption |].
    cbn [ctrace] in *. rewrite callbacks_app, file_requests_app in *.
    cbn [callbacks file_requests] in *. rewrite app_nil_r in *.
    split; congruence.
Qed.

Lemma handleDocumentMessage_frame (message : Message) (doc : Document)
    (st : CState) :
  document message = Some doc ->
  exists r st', MessageHandler.handleDocumentMessage pf client message st = (r, st')
    /\ r <> Pending
    /\ callbacks (ctrace st') = callbacks (ctrace st)
    /\ file_requests (ctrace st') = file_requests (ctrace st) ++ [doc_file_id doc].
Proof.
  intros Hdoc. unfold MessageHandler.handleDocumentMessage. rewrite Hdoc.
  unfold bind at 1. unfold clog at 1, cemit.
  match goal with
  | |- context [try_catch _ _ ?s1] =>
      destruct (download_or_report_frame (doc_file_id doc) "Document saved to: "
                  ("Failed to download document: "
                     ++ or_else (Some (file_name doc)) "unknown")
                  (chat_id (chat message))
                  (MessageHandler.cross_mark ++ " Failed to download: "
                     ++ or_else (Some (file_name doc)) "unknown" ++ ch nl) s1)
        as (r & st' & Hrun & Hnp & Hcb & Hfr)
  end.
  exists r, st'. split; [exact Hrun |]. split; [exact Hnp |].
  cbn [ctrace] in *. rewrite callbacks_app, file_requests_app in *.
  cbn [callbacks file_requests] in *. rewrite app_nil_r in *. auto.
Qed.

Lemma handlePhotoMessage_frame (message : Message) (first : PhotoSize)
    (others : list PhotoSize) (st : CState) :
  photo message = Some (first :: others) ->
  exists r st', MessageHandler.handlePhotoMessage pf client message st = (r, st')
    /\ r <> Pending
    /\ callbacks (ctrace st') = callbacks (ctrace st)
    /\ file_requests (ctrace st')
       = file_requests (ctrace st)
           ++ [photo_file_id (fold_left MessageHandler.larger others first)].
Proof.
  intros Hphoto. unfold MessageHandler.handlePhotoMessage. rewrite Hphoto.
  cbv zeta. unfold bind at 1. unfold clog at 1, cemit.
  set (chosen := fold_left MessageHandler.larger others first).
  match goal with
  | |- context [try_catch _ _ ?s1] =>
      destruct (download_or_report_frame (photo_file_id chosen) "Photo saved to: "
                  ("Failed to download photo: "
                     ++ (int_string (width chosen) ++ "x"
                           ++ int_string (height chosen)))
                  (chat_id (chat message))
                  (MessageHandler.cross_mark ++ " Failed to download photo" ++ ch nl)
                  s1)
        as (r & st' & Hrun & Hnp & Hcb & Hfr)
  end.
  exists r, st'. split; [exact Hrun |]. split; [exact Hnp |].
  cbn [ctrace] in *. rewrite callbacks_app, file_requests_app in *.
  cbn [callbacks file_requests] in *. rewrite app_nil_r in *. auto.
Qed.

(** The choice of [reduce] when every photo reports a size. *)
Lemma larger_by_size (others : list PhotoSize) :
  forall first,
  (forall p, In p (first :: others) -> known_size p <> None) ->
  In (fold_left MessageHandler.larger others first) (first :: others)
  /\ forall p n, In p (first :: others) -> known_size p = Some n ->
       exists m, known_size (fold_left MessageHandler.larger others first) = Some m
                 /\ n <= m.
Proof.
  induction others as [|x others IH]; intros first Hall.
  - cbn. split; [now left |]. intros p n [<-|[]] Hn. exists n. split; [exact Hn | lia].
  - cbn [fold_left].
    assert (Hx : known_size x <> None) by (apply Hall; right; now left).
    assert (Hf : known_size first <> None) by (apply Hall; now left).
    assert (Hstep : (MessageHandler.larger first x = first
                     \/ MessageHandler.larger first x = x)
                    /\ forall a b c, known_size first = Some a ->
                         known_size x = Some b ->
                         known_size (MessageHandler.larger first x) = Some c ->
                         a <= c /\ b <= c).
    { unfold MessageHandler.larger, known_size in *.
      destruct (photo_file_size x) as [sx|] eqn:Hsx; [| congruence].
      destruct (photo_file_size first) as [sf|] eqn:Hsf; [| congruence].
      destruct (sx =? 0) eqn:Ex; [congruence |].
      destruct (sf =? 0) eqn:Ef; [congruence |]. cbn [negb andb].
      destruct (sf <? sx) eqn:El;
        (apply Z.ltb_lt in El || apply Z.ltb_ge in El);
        (split; [auto |]); intros a b c Ha Hb Hc;
        rewrite ?Hsx, ?Hsf, ?Ex, ?Ef in Hc;
        injection Ha as <-; injection Hb as <-; injection Hc as <-; lia. }
    destruct Hstep as [Hpick Hmax].
    destruct (IH (MessageHandler.larger first x)) as [Hin Hbig].
    { intros p [<-|Hp]; [destruct Hpick as [-> | ->]; assumption |].
      apply Hall. right. now right. }
    split.
    + destruct Hin as [<-|Hin]; [| right; now right].
      destruct Hpick as [-> | ->]; [now left | right; now left].
    + assert (Hacc : exists c, known_size (MessageHandler.larger first x) = Some c).
      { destruct Hpick as [-> | ->];
          [destruct (known_size first) | destruct (known_size x)];
          try congruence; eauto. }
      destruct Hacc as [c Hc].
      destruct (Hbig _ c (or_introl eq_refl) Hc) as (m & Hm & Hcm).
      intros p n [<-|[<-|Hp]] Hn.
      * destruct (known_size x) as [b|] eqn:Hb; [| congruence].
        destruct (Hmax n b c Hn eq_refl Hc). exists m. split; [exact Hm | lia].
      * destruct (known_size first) as [a|] eqn:Ha; [| congruence].
        destruct (Hmax a n c eq_refl Hn Hc). exists m. split; [exact Hm | lia].
      * apply (Hbig p n); [right; exact Hp | exact Hn].
Qed.

(** The choice of [reduce] when no photo reports a size. *)
Lemma larger_by_area (others : list PhotoSize) :
  forall first,
  (forall p, In p (first :: others) -> known_size p = None) ->
  In (fold_left MessageHandler.larger others first) (first :: others)
  /\ forall p, In p (first :: others) ->
       MessageHandler.area p
       <= MessageHandler.area (fold_left MessageHandler.larger others first).
Proof.
  induction others as [|x others IH]; intros first Hall.
  - cbn. split; [now left |]. intros p [<-|[]]. lia.
  - cbn [fold_left].
    assert (Hx : known_size x = None) by (apply Hall; right; now left).
    assert (Hstep : (MessageHandler.larger first x = first
                     \/ MessageHandler.larger first x = x)
                    /\ MessageHandler.area first
                       <= MessageHandler.area (MessageHandler.larger first x)
                    /\ MessageHandler.area x
                       <= MessageHandler.area (MessageHandler.larger first x)).
    { unfold MessageHandler.larger, known_size in *.
      destruct (photo_file_size x) as [sx|];
        [destruct (sx =? 0) eqn:Ex; [| discriminate];
         destruct (photo_file_size first); cbn [negb andb] |];
        destruct (MessageHandler.area first <? MessageHandler.area x) eqn:El;
        (apply Z.ltb_lt in El || apply Z.ltb_ge in El);
        (split; [auto |]); lia. }
    destruct Hstep as (Hpick & Hfirst & Hsecond).
    destruct (IH (MessageHandler.larger first x)) as [Hin Hbig].
    { intros p [<-|Hp]; [destruct Hpick as [-> | ->]; apply Hall;
                         [now left | right; now left] |].
      apply Hall. right. now right. }
    split.
    + destruct Hin as [<-|Hin]; [| right; now right].
      destruct Hpick as [-> | ->]; [now left | right; now left].
    + pose proof (Hbig _ (or_introl eq_refl)) as Hacc.
      intros p [<-|[<-|Hp]]; [lia | lia |]. apply Hbig. now right.
Qed.

End Routers.

Section RouterExtras.

Variable pf : Platform.
Variable client : TelegramClient.t.

(** [MessageHandler.handle] on a message the gate stops. *)
Lemma handle_gate_closed (this : MessageHandler.t) (message : Message)
    (st : CState) :
  MessageHandler.truthy (MessageHandler.allowedUserId this) = true ->
  MessageHandler.sender_differs message (MessageHandler.allowedUserId this) = true ->
  exists l,
    MessageHandler.handle pf client this message st
    = (Returns tt, {| calls := calls st; ctrace := ctrace st ++ l |})
    /\ effects l = [] /\ callbacks l = [] /\ file_requests l = [].
Proof.
  intros Ht Hd. unfold MessageHandler.handle. rewrite Ht, Hd. cbn [andb].
  unfold clog, cemit, bind. cbn [calls ctrace]. eexists.
  rewrite <- !app_assoc. cbn [app]. split; [reflexivity |]. auto.
Qed.

(** [MessageHandler.handle] on a message the gate lets through. *)
Lemma handle_gate_open (this : MessageHandler.t) (message : Message)
    (st : CState) :
  MessageHandler.truthy (MessageHandler.allowedUserId this)
    && MessageHandler.sender_differs message (MessageHandler.allowedUserId this)
  = false ->
  exists l,
    effects l = [] /\ callbacks l = [] /\ file_requests l = []
    /\ MessageHandler.handle pf client this message st
       = (match document message with
          | Some _ => MessageHandler.handleDocumentMessage pf client message
          | None =>
              match photo message with
              | Some _ => MessageHandler.handlePhotoMessage pf client message
              | None =>
                  if match text message with
                     | Some txt => startsWith_slash txt
                     | None => false
                     end
                  then CommandHandler.handle (MessageHandler.commandHandler this)
                         message
                  else MessageHandler.handleTextMessage pf message
              end
          end) {| calls := calls st; ctrace := ctrace st ++ l |}.
Proof.
  intros Hgate. unfold MessageHandler.handle. rewrite Hgate.
  unfold bind at 1 2. unfold clog, cemit. cbn [calls ctrace]. eexists.
  rewrite <- !app_assoc. cbn [app]. conj_split; [| | | reflexivity]; reflexivity.
Qed.

(** X13. The photo that is downloaded is the largest one: of the sizes a
    photo message carries, [getFile] is asked once, for a photo of the
    message; when every photo reports its size in bytes it is one of the
    greatest size, and when none does it is one of the greatest area. *)
Theorem largest_photo_is_requested (message : Message) (first : PhotoSize)
    (others : list PhotoSize) (st : CState) :
  photo message = Some (first :: others) ->
  exists chosen r st',
    MessageHandler.handlePhotoMessage pf client message st = (r, st')
    /\ In chosen (first :: others)
    /\ file_requests (ctrace st')
       = file_requests (ctrace st) ++ [photo_file_id chosen]
    /\ ((forall p, In p (first :: others) -> known_size p <> None) ->
        forall p n, In p (first :: others) -> known_size p = Some n ->
          exists m, known_size chosen = Some m /\ n <= m)
    /\ ((forall p, In p (first :: others) -> known_size p = None) ->
        forall p, In p (first :: others) ->
          MessageHandler.area p <= MessageHandler.area chosen).
Proof.
  intros Hphoto.
  destruct (handlePhotoMessage_frame pf client message first others st Hphoto)
    as (r & st' & Hrun & _ & _ & Hreq).
  exists (fold_left MessageHandler.larger others first), r, st'.
  split; [exact Hrun |].
  assert (Hin : In (fold_left MessageHandler.larger others first) (first :: others)).
  { clear. revert first. induction others as [|x others IH]; intros first.
    - now left.
    - cbn [fold_left]. destruct (IH (MessageHandler.larger first x)) as [<-|H].
      + unfold MessageHandler.larger.
        destruct (photo_file_size x) as [sx|];
          [destruct (photo_file_size first) as [sf|];
           [destruct (negb (sx =? 0) && negb (sf =? 0)); [destruct (sf <? sx) |] |] |];
          try destruct (MessageHandler.area first <? MessageHandler.area x);
          cbn; auto.
      + right. now right. }
  split; [exact Hin |]. split; [exact Hreq |]. split.
  - intros Hall. now apply larger_by_size.
  - intros Hnone. now apply larger_by_area.
Qed.

(** X14. A document whose download is refused before anything is fetched
    ([getFile] fails, or its result has no path or is over the limit) is
    reported to the chat it came from: one [getFile], one message naming
    the file, nothing else.  The handler returns normally exactly when
    that message could be sent, and throws when it could not. *)
Theorem refused_document_is_reported (message : Message) (doc : Document)
    (st : CState) :
  document message = Some doc ->
  match getFile_answer pf (calls st) with
  | Rejects _ => True
  | Responds data => ok data = true -> rejected (result_of data)
  end ->
  exists r st',
    MessageHandler.handleDocumentMessage pf client message st = (r, st')
    /\ effects (ctrace st')
       = effects (ctrace st)
           ++ [CGetFile (doc_file_id doc);
               CSendMessage (chat_id (chat message))
                 (MessageHandler.cross_mark ++ " Failed to download: "
                    ++ or_else (Some (file_name doc)) "unknown" ++ ch nl)%string]
    /\ (r = Returns tt <-> ~ refused (sendMessage_answer pf (S (calls st))))
    /\ (refused (sendMessage_answer pf (S (calls st))) -> exists e, r = Raises e).
Proof.
  intros Hdoc Hans. unfold MessageHandler.handleDocumentMessage. rewrite Hdoc.
  unfold bind at 1. unfold clog at 1, cemit.
  match goal with
  | |- context [try_catch _ _ ?s1] =>
      destruct (downloadFileById_refused pf client (doc_file_id doc) None s1 Hans)
        as (e & l & Hrun & Hl)
  end.
  unfold try_catch, bind at 1. rewrite Hrun. unfold bind, clog, cemit.
  cbn [calls ctrace].
  match goal with
  | |- context [TelegramClient.sendMessage pf ?c ?b ?s] =>
      set (chat := c); set (notice := b); set (s3 := s)
  end.
  assert (Heff : effects (ctrace s3) = effects (ctrace st) ++ [CGetFile (doc_file_id doc)]).
  { subst s3. cbn [ctrace]. rewrite !effects_app. cbn [effects filter is_effect].
    change (filter is_effect l) with (effects l). rewrite Hl.
    cbn [app]. now rewrite !app_nil_r. }
  destruct (sendMessage_answer pf (S (calls st))) as [err|data] eqn:Hsend.
  - destruct (sendMessage_refused pf chat notice s3) as (e' & Hrun').
    { change (calls s3) with (S (calls st)). now rewrite Hsend. }
    rewrite Hrun'. eexists _, _. split; [reflexivity |]. cbn [ctrace]. split.
    + rewrite effects_app, Heff, <- app_assoc. reflexivity.
    + split; [| eauto].
      split; [discriminate | intros H; exfalso; apply H; exact I].
  - destruct (ok data) eqn:Hok.
    + rewrite (sendMessage_ok pf chat notice s3 data Hsend Hok).
      eexists _, _. split; [reflexivity |]. cbn [ctrace]. split.
      * rewrite effects_app, Heff, <- app_assoc. reflexivity.
      * split; [| cbn; congruence].
        split; [intros _ | reflexivity]. cbn. congruence.
    + destruct (sendMessage_refused pf chat notice s3) as (e' & Hrun').
      { change (calls s3) with (S (calls st)). now rewrite Hsend. }
      rewrite Hrun'. eexists _, _. split; [reflexivity |]. cbn [ctrace]. split.
      * rewrite effects_app, Heff, <- app_assoc. reflexivity.
      * split; [| eauto].
        split; [discriminate | intros H; exfalso; apply H; exact Hok].
Qed.

(** X15. [downloadFile] writes only what it fetched, and only after the
    directory was made: a file is written (or begun) exactly when the
    response was ok and [mkdir] worked; a result means that fetch, [mkdir]
    and write all worked and names the given path and the length of the
    body; every failure is logged with the URL and thrown on. *)
Theorem download_writes_only_after_fetch_and_mkdir (filePath savePath : string)
    (st : CState) :
  exists r st',
    TelegramClient.downloadFile pf client filePath savePath st = (r, st')
    /\ r <> Pending
    /\ writes (ctrace st')
       = writes (ctrace st)
           ++ match file_answer pf (calls st), mkdir_fault pf (S (calls st)) with
              | FileResponse true _ body, None => [(savePath, body)]
              | _, _ => []
              end
    /\ (forall res, r = Returns res ->
        saved_path res = savePath
        /\ exists status body,
             file_answer pf (calls st) = FileResponse true status body
             /\ saved_size res = Z.of_nat (String.length body)
             /\ writeFile_fault pf (S (S (calls st))) = None
             /\ mkdir_fault pf (S (calls st)) = None)
    /\ (forall e, r = Raises e ->
        In (CLog ERROR "TelegramClient"
              ("Failed to download file from "
                 ++ ("https://api.telegram.org/file/bot"
                       ++ TelegramClient.token client ++ "/" ++ filePath))%string
              (Some e)) (ctrace st')).
Proof.
  unfold_client. cbn [calls ctrace].
  destruct (file_answer pf (calls st)) as [e|[] status body];
    cbn [calls ctrace negb];
    try destruct (mkdir_fault pf (S (calls st))) as [e1|]; cbn [calls ctrace];
    try destruct (writeFile_fault pf (S (S (calls st)))) as [e2|] eqn:Hw;
    cbn [calls ctrace];
    eexists _, _; (split; [reflexivity |]); (split; [discriminate |]);
    observe; (split; [reflexivity |]);
    (split; [intros res Hres; try discriminate |
             intros err Herr; try discriminate;
             injection Herr as <-; apply in_or_app; right; cbn; auto 6]).
  all: injection Hres as <-; cbn; eauto 10.
Qed.

(** X16. The gate fails open: with [ALLOWED_USER_ID] unset, empty, not a
    number or zero, the constructor warns that the variable is not set
    and every sender is served; a plain text from anybody is echoed to
    its chat. *)
Theorem open_gate_echoes_everyone (v : option string)
    (table : CommandHandler.t) (st0 : CState) (sender : option User)
    (room : Chat) (c : ascii) (rest : string) (st : CState) :
  gate_off v -> startsWith_slash (String c rest) = false ->
  exists this st1 r st',
    MessageHandler.constructor v table st0 = (Returns this, st1)
    /\ ctrace st1
       = ctrace st0
           ++ [CLog WARN "MessageHandler"
                 "ALLOWED_USER_ID not set - accepting messages from all users" None]
    /\ MessageHandler.handle pf client this
         (text_message sender room (String c rest)) st = (r, st')
    /\ effects (ctrace st')
       = effects (ctrace st)
           ++ [CSendMessage (chat_id room) ("You said: " ++ String c rest)%string].
Proof.
  intros Hoff Hplain.
  assert (Hcons : exists a,
            MessageHandler.truthy a = false
            /\ MessageHandler.constructor v table st0
               = (Returns {| MessageHandler.commandHandler := table;
                             MessageHandler.allowedUserId := a |},
                  {| calls := calls st0;
                     ctrace := ctrace st0
                                 ++ [CLog WARN "MessageHandler"
                                       "ALLOWED_USER_ID not set - accepting messages from all users"
                                       None] |})).
  { unfold MessageHandler.constructor.
    destruct v as [[|c0 r0]|];
      try (eexists; (split; [| reflexivity]); reflexivity).
    destruct Hoff as [H|[H|H]]; [discriminate H | |]; rewrite H;
      eexists; (split; [| reflexivity]); reflexivity. }
  destruct Hcons as (a & Hfalse & Hcons).
  destruct (handle_gate_open {| MessageHandler.commandHandler := table;
                                MessageHandler.allowedUserId := a |}
              (text_message sender room (String c rest)) st)
    as (l & Hl & _ & _ & Hrun).
  { cbn [MessageHandler.allowedUserId]. now rewrite Hfalse. }
  cbn [document photo text text_message] in Hrun. rewrite Hplain in Hrun.
  unfold MessageHandler.handleTextMessage in Hrun.
  cbn [text chat text_message] in Hrun.
  match type of Hrun with
  | context [TelegramClient.sendMessage pf ?ch ?b ?s1] =>
      destruct (sendMessage_frame pf ch b s1) as (r & st' & Hsend & _ & Heff & _)
  end.
  rewrite Hsend in Hrun. eexists _, _, r, st'. split; [exact Hcons |].
  split; [reflexivity |]. split; [exact Hrun |].
  rewrite Heff. cbn [ctrace]. now rewrite effects_app, Hl, app_nil_r.
Qed.

(** X17. A message with an attachment is never treated as a command: when
    it carries a document or a photo, no command callback runs, whatever
    its text and whoever sent it. *)
Theorem attachment_is_never_a_command (this : MessageHandler.t)
    (message : Message) (st : CState) :
  document message <> None \/ photo message <> None ->
  callbacks (ctrace (snd (MessageHandler.handle pf client this message st)))
  = callbacks (ctrace st).
Proof.
  intros Hatt.
  destruct (MessageHandler.truthy (MessageHandler.allowedUserId this)
            && MessageHandler.sender_differs message
                 (MessageHandler.allowedUserId this)) eqn:Hgate.
  - apply andb_true_iff in Hgate as [Ht Hd].
    destruct (handle_gate_closed this message st Ht Hd) as (l & -> & _ & Hcb & _).
    cbn [snd ctrace]. now rewrite callbacks_app, Hcb, app_nil_r.
  - destruct (handle_gate_open this message st Hgate) as (l & _ & Hcb & _ & ->).
    set (s1 := {| calls := calls st; ctrace := ctrace st ++ l |}).
    assert (Hst : callbacks (ctrace s1) = callbacks (ctrace st))
      by (subst s1; cbn [ctrace]; now rewrite callbacks_app, Hcb, app_nil_r).
    clearbody s1.
    destruct (document message) as [doc|] eqn:Hdoc.
    + destruct (handleDocumentMessage_frame pf client message doc s1 Hdoc)
        as (r & st' & -> & _ & Hsame & _).
      cbn [snd]. congruence.
    + destruct (photo message) as [[|first others]|] eqn:Hphoto.
      * unfold MessageHandler.handlePhotoMessage. rewrite Hphoto. exact Hst.
      * destruct (handlePhotoMessage_frame pf client message first others s1 Hphoto)
          as (r & st' & -> & _ & Hsame & _).
        cbn [snd]. congruence.
      * destruct Hatt as [H|H]; congruence.
Qed.

(** [UpdateHandler.handle] on an update the gate stops. *)
Lemma update_from_stranger (this : MessageHandler.t)
    (update : Update) (st : CState) :
  MessageHandler.truthy (MessageHandler.allowedUserId this) = true ->
  (forall m,
     In (Some m) [message update; edited_message update; channel_post update;
                  edited_channel_post update] ->
     MessageHandler.sender_differs m (MessageHandler.allowedUserId this) = true) ->
  exists st',
    UpdateHandler.handle pf client this update st = (Returns tt, st')
    /\ effects (ctrace st') = effects (ctrace st) /\ calls st' = calls st.
Proof.
  intros Ht Hall. unfold UpdateHandler.handle. unfold bind at 1.
  unfold clog at 1, cemit.
  assert (Hdrop : forall m s1,
            MessageHandler.sender_differs m (MessageHandler.allowedUserId this)
            = true ->
            effects (ctrace s1) = effects (ctrace st) -> calls s1 = calls st ->
            exists st', MessageHandler.handle pf client this m s1 = (Returns tt, st')
              /\ effects (ctrace st') = effects (ctrace st) /\ calls st' = calls st).
  { intros m s1 Hd Heff Hcalls.
    destruct (handle_gate_closed this m s1 Ht Hd) as (l & -> & Hl & _).
    eexists. split; [reflexivity |]. cbn [ctrace calls].
    now rewrite effects_app, Hl, app_nil_r. }
  match goal with
  | |- context [match message update with _ => _ end ?s1] =>
      assert (Heff : effects (ctrace s1) = effects (ctrace st))
        by (cbn [ctrace]; rewrite effects_app; cbn; now rewrite app_nil_r);
      assert (Hcalls : calls s1 = calls st) by reflexivity;
      set (s1' := s1) in *; clearbody s1'
  end.
  cbn [In] in Hall.
  destruct (message update) as [m|]; [apply Hdrop; auto |].
  destruct (edited_message update) as [m|]; [apply Hdrop; auto |].
  destruct (channel_post update) as [m|]; [apply Hdrop; auto |].
  destruct (edited_channel_post update) as [m|]; [apply Hdrop; auto 6 |].
  unfold clog, cemit. eexists. split; [reflexivity |]. cbn [ctrace calls].
  rewrite effects_app. cbn. now rewrite app_nil_r.
Qed.

(** X18. The gate covers every kind of update: with [ALLOWED_USER_ID] in
    force, an update whose message, edited message, channel post or
    edited channel post comes from somebody else (or from nobody, as
    channel posts do) is logged and dropped; nothing is sent, fetched or
    run. *)
Theorem stranger_is_dropped_in_every_slot (this : MessageHandler.t)
    (update : Update) (st : CState) :
  MessageHandler.truthy (MessageHandler.allowedUserId this) = true ->
  (forall m,
     In (Some m) [message update; edited_message update; channel_post update;
                  edited_channel_post update] ->
     MessageHandler.sender_differs m (MessageHandler.allowedUserId this) = true) ->
  exists st',
    UpdateHandler.handle pf client this update st = (Returns tt, st')
    /\ effects (ctrace st') = effects (ctrace st) /\ calls st' = calls st.
Proof. apply update_from_stranger. Qed.

End RouterExtras.

(* ================================================================== *)
(** ** The polling loop with the bot's own processor                   *)
(* ================================================================== *)

Section EndToEnd.

Variable pf : Platform.
Variable client : TelegramClient.t.
Variable env : Env.

(** [UpdateHandler.handle] on a message in the first slot that the gate
    lets through and that is neither document nor photo. *)
Lemma update_with_text (this : MessageHandler.t) (u : Update) (m : Message)
    (st : CState) :
  message u = Some m ->
  MessageHandler.truthy (MessageHandler.allowedUserId this)
    && MessageHandler.sender_differs m (MessageHandler.allowedUserId this)
  = false ->
  document m = None -> photo m = None ->
  exists l,
    effects l = []
    /\ UpdateHandler.handle pf client this u st
       = (if match text m with
             | Some txt => startsWith_slash txt
             | None => false
             end
          then CommandHandler.handle (MessageHandler.commandHandler this) m
          else MessageHandler.handleTextMessage pf m)
           {| calls := calls st; ctrace := ctrace st ++ l |}.
Proof.
  intros Hm Hgate Hdoc Hphoto. unfold UpdateHandler.handle. rewrite Hm.
  unfold bind at 1. unfold clog at 1, cemit.
  match goal with
  | |- context [MessageHandler.handle pf client this m ?s1] =>
      destruct (handle_gate_open pf client this m s1 Hgate)
        as (l & Hl & _ & _ & Hrun)
  end.
  rewrite Hrun, Hdoc, Hphoto. cbn [calls ctrace]. eexists.
  rewrite <- app_assoc. split; [| reflexivity].
  rewrite effects_app, Hl. reflexivity.
Qed.

(** X19. An update from a stranger is consumed: with [ALLOWED_USER_ID]
    in force, the polling service handing the update to the bot's
    processor gets a normal return, so the cursor moves past the update
    and it is not delivered again; nothing was sent, fetched or run. *)
Theorem stranger_update_is_consumed (this : MessageHandler.t)
    (s : Sys CState) (u : Update) (c : Z) :
  state s = BotState c ->
  MessageHandler.truthy (MessageHandler.allowedUserId this) = true ->
  (forall m,
     In (Some m) [message u; edited_message u; channel_post u;
                  edited_channel_post u] ->
     MessageHandler.sender_differs m (MessageHandler.allowedUserId this) = true) ->
  exists s',
    process_update (Bot.onUpdate pf client this) env u s = (Returns tt, s')
    /\ cursor s' = Some (num (update_id u + 1))
    /\ effects (ctrace (pstate s')) = effects (ctrace (pstate s)).
Proof.
  intros Hst Ht Hall.
  destruct (update_from_stranger pf client this u (pstate s) Ht Hall)
    as (st' & Hrun & Heff & _).
  assert (Hon : Bot.onUpdate pf client this u (pstate s) = (Returns tt, st'))
    by exact Hrun.
  destruct (process_update_spec CState (Bot.onUpdate pf client this) env s u c Hst)
    as (s' & Hproc & _ & Hp & _ & Hst' & _).
  { rewrite Hon. discriminate. }
  exists s'. split; [exact Hproc |]. cbn [cursor_after] in Hst'.
  rewrite Hon in Hst', Hp. cbn [snd] in Hp. split.
  - now apply cursor_BotState.
  - now rewrite Hp.
Qed.

(** X20. A reply that cannot be sent keeps the update: for a plain text
    that the gate lets through, the echo is sent once; when the Bot API
    refuses it the processor fails, so the update is logged as failed and
    the cursor stays where it was, in memory and on disk; when it is
    accepted the cursor moves past the update. *)
Theorem failed_reply_keeps_the_update (this : MessageHandler.t)
    (s : Sys CState) (u : Update) (m : Message) (c : Z) (a : ascii)
    (rest : string) :
  state s = BotState c -> message u = Some m ->
  MessageHandler.truthy (MessageHandler.allowedUserId this)
    && MessageHandler.sender_differs m (MessageHandler.allowedUserId this)
  = false ->
  document m = None -> photo m = None ->
  text m = Some (String a rest) -> startsWith_slash (String a rest) = false ->
  exists s',
    process_update (Bot.onUpdate pf client this) env u s = (Returns tt, s')
    /\ effects (ctrace (pstate s'))
       = effects (ctrace (pstate s))
           ++ [CSendMessage (chat_id (chat m)) ("You said: " ++ String a rest)%string]
    /\ (refused (sendMessage_answer pf (calls (pstate s))) ->
        cursor s' = Some (num c) /\ file s' = file s)
    /\ (~ refused (sendMessage_answer pf (calls (pstate s))) ->
        cursor s' = Some (num (update_id u + 1)))
    /\ (refused (sendMessage_answer pf (calls (pstate s))) ->
        exists e,
          In (EvLog ERROR "PollingService"
                ("Failed to process update " ++ int_string (update_id u))%string
                (Some e)) (trace s')).
Proof.
  intros Hst Hm Hgate Hdoc Hphoto Htxt Hplain.
  destruct (update_with_text this u m (pstate s) Hm Hgate Hdoc Hphoto)
    as (l & Hl & Hrun).
  rewrite Htxt, Hplain in Hrun. unfold MessageHandler.handleTextMessage in Hrun.
  rewrite Htxt in Hrun.
  set (s2 := {| calls := calls (pstate s); ctrace := ctrace (pstate s) ++ l |}) in *.
  assert (Heff2 : effects (ctrace s2) = effects (ctrace (pstate s)))
    by (subst s2; cbn [ctrace]; now rewrite effects_app, Hl, app_nil_r).
  assert (Hon : Bot.onUpdate pf client this u (pstate s)
                = TelegramClient.sendMessage pf (chat_id (chat m))
                    ("You said: " ++ String a rest) s2) by exact Hrun.
  destruct (sendMessage_frame pf (chat_id (chat m)) ("You said: " ++ String a rest) s2)
    as (r & st' & Hsend & Hnp & Heff & _).
  destruct (process_update_spec CState (Bot.onUpdate pf client this) env s u c Hst)
    as (s' & Hproc & _ & Hp & _ & Hst' & _ & Hcase).
  { rewrite Hon, Hsend. exact Hnp. }
  exists s'. split; [exact Hproc |]. cbn [cursor_after] in Hst'.
  rewrite Hon, Hsend in Hst', Hp, Hcase. cbn [fst snd] in Hp, Hcase.
  split; [rewrite Hp, Heff, Heff2; reflexivity |].
  destruct (sendMessage_answer pf (calls (pstate s))) as [err|data] eqn:Hans.
  - destruct (sendMessage_refused pf (chat_id (chat m))
                ("You said: " ++ String a rest) s2) as (e & Hbad).
    { change (calls s2) with (calls (pstate s)). now rewrite Hans. }
    rewrite Hbad in Hsend. injection Hsend as <- <-.
    split; [intros _ |
            split; [intros H; exfalso; apply H; exact I
                   | intros _; exact (proj2 (proj2 Hcase))]].
    split; [now apply cursor_BotState | exact (proj1 Hcase)].
  - destruct (ok data) eqn:Hok.
    + rewrite (sendMessage_ok pf _ _ s2 data Hans Hok) in Hsend.
      injection Hsend as <- <-.
      split; [cbn; congruence |
              split; [intros _; now apply cursor_BotState | cbn; congruence]].
    + destruct (sendMessage_refused pf (chat_id (chat m))
                  ("You said: " ++ String a rest) s2) as (e & Hbad).
      { change (calls s2) with (calls (pstate s)). now rewrite Hans. }
      rewrite Hbad in Hsend. injection Hsend as <- <-.
      split; [intros _ |
              split; [intros H; exfalso; apply H; exact Hok
                     | intros _; exact (proj2 (proj2 Hcase))]].
      split; [now apply cursor_BotState | exact (proj1 Hcase)].
Qed.

(** X21. A command is consumed whatever its callback does: for a message
    that the gate lets through and whose text starts with a slash, the
    processor returns normally even when the callback throws (its reply
    could not be sent, say), so the cursor moves past the update and the
    command is not run again. *)
Theorem command_update_is_always_consumed (this : MessageHandler.t)
    (s : Sys CState) (u : Update) (m : Message) (c : Z) (txt : string) :
  state s = BotState c -> message u = Some m ->
  MessageHandler.truthy (MessageHandler.allowedUserId this)
    && MessageHandler.sender_differs m (MessageHandler.allowedUserId this)
  = false ->
  document m = None -> photo m = None ->
  text m = Some txt -> startsWith_slash txt = true ->
  (forall st, fst (CommandHandler.handle (MessageHandler.commandHandler this) m st)
              <> Pending) ->
  exists s',
    process_update (Bot.onUpdate pf client this) env u s = (Returns tt, s')
    /\ cursor s' = Some (num (update_id u + 1)).
Proof.
  intros Hst Hm Hgate Hdoc Hphoto Htxt Hslash Hsettle.
  destruct (update_with_text this u m (pstate s) Hm Hgate Hdoc Hphoto)
    as (l & Hl & Hrun).
  rewrite Htxt, Hslash in Hrun.
  set (s2 := {| calls := calls (pstate s); ctrace := ctrace (pstate s) ++ l |}) in *.
  assert (Hon : Bot.onUpdate pf client this u (pstate s)
                = CommandHandler.handle (MessageHandler.commandHandler this) m s2)
    by exact Hrun.
  assert (Hret : fst (Bot.onUpdate pf client this u (pstate s)) = Returns tt).
  { rewrite Hon. pose proof (Hsettle s2) as Hnp.
    pose proof (handle_no_raise (MessageHandler.commandHandler this) m s2) as Hnr.
    destruct (fst (CommandHandler.handle (MessageHandler.commandHandler this) m s2))
      as [[]| e |]; [reflexivity | | congruence].
    exfalso. now apply (Hnr e). }
  destruct (process_update_spec CState (Bot.onUpdate pf client this) env s u c Hst)
    as (s' & Hproc & _ & _ & _ & Hst' & _).
  { rewrite Hret. discriminate. }
  exists s'. split; [exact Hproc |]. cbn [cursor_after] in Hst'.
  destruct (Bot.onUpdate pf client this u (pstate s)) as [r p].
  cbn [fst] in Hret. subst r. now apply cursor_BotState.
Qed.

End EndToEnd.

(** X10 on [/start now] with a callback that raises. *)
Lemma command_errors_are_swallowed_witness :
  CommandHandler.handle failing_table
    (text_message (Some stranger) a_chat "/start now") idle
  = (Returns tt,
     {| calls := 0;
        ctrace := [CCallback "start" ["now"%string];
                   CLog ERROR "CommandHandler" "Error handling command /start"
                     (Some (PlainError "callback failed"))] |}).
Proof.
  exact (proj2 (command_errors_are_swallowed failing_table
                  (text_message (Some stranger) a_chat "/start now") idle)
           "/start now"%string "start"%string ["now"%string]
           {| CommandHandler.callback := raising_callback;
              CommandHandler.cmd_description := "always fails" |}
           (PlainError "callback failed")
           {| calls := 0; ctrace := [CCallback "start" ["now"%string]] |}
           eq_refl eq_refl eq_refl eq_refl eq_refl).
Defined.

(** X11 on [/START a b] after [start] was registered over a table that
    already had a failing [start]. *)
Lemma registered_command_is_dispatched_witness :
  exists this' st1,
    CommandHandler.registerCommand failing_table "start" "Greets"
      (greeting (lab max_size_file)) idle
    = (Returns this', st1)
    /\ CommandHandler.handle this'
         (text_message (Some stranger) a_chat "/START a b") idle
       = (Returns tt,
          {| calls := 1;
             ctrace := [CCallback "start" ["a"%string; "b"%string];
                        CSendMessage 999 "hi"] |}).
Proof.
  destruct (registered_command_is_dispatched failing_table "start" "Greets"
              (greeting (lab max_size_file)) idle
              (text_message (Some stranger) a_chat "/START a b")
              "/START a b" "START" ["a"%string; "b"%string] idle
              eq_refl eq_refl eq_refl eq_refl eq_refl)
    as (this' & st1 & Hreg & _ & _ & Hrun).
  exists this', st1. split; [exact Hreg |]. rewrite Hrun. reflexivity.
Defined.

(** X12 on a command registered as [Start]. *)
Lemma uppercase_command_is_unreachable_witness :
  exists this' st1,
    CommandHandler.registerCommand {| CommandHandler.commands := [] |}
      "Start" "Greets" (greeting (lab max_size_file)) idle
    = (Returns this', st1)
    /\ CommandHandler.handle this'
         (text_message (Some stranger) a_chat "/Start") idle
       = (Returns tt,
          {| calls := 0;
             ctrace := [CLog WARN "CommandHandler" "Unknown command: /start"
                          None] |}).
Proof.
  refine (uppercase_command_is_unreachable {| CommandHandler.commands := [] |}
            "Start" "Greets" (greeting (lab max_size_file)) idle
            (text_message (Some stranger) a_chat "/Start")
            "/Start" "Start" [] idle eq_refl _ eq_refl eq_refl eq_refl eq_refl
            eq_refl eq_refl).
  discriminate.
Defined.

(** X13 on three sizes of one photo, the largest in the middle. *)
Lemma largest_photo_is_requested_witness :
  exists chosen r st',
    MessageHandler.handlePhotoMessage (lab max_size_file) a_client
      (photo_message [a_photo "small" 90 90 (Some 1000);
                      a_photo "large" 800 600 (Some 50000);
                      a_photo "medium" 320 240 (Some 9000)]) idle
    = (r, st')
    /\ file_requests (ctrace st') = [photo_file_id chosen]
    /\ exists m, known_size chosen = Some m /\ 50000 <= m.
Proof.
  destruct (largest_photo_is_requested (lab max_size_file) a_client
              (photo_message [a_photo "small" 90 90 (Some 1000);
                              a_photo "large" 800 600 (Some 50000);
                              a_photo "medium" 320 240 (Some 9000)])
              (a_photo "small" 90 90 (Some 1000))
              [a_photo "large" 800 600 (Some 50000);
               a_photo "medium" 320 240 (Some 9000)] idle eq_refl)
    as (chosen & r & st' & Hrun & _ & Hreq & Hsize & _).
  exists chosen, r, st'. split; [exact Hrun |]. split; [exact Hreq |].
  apply (Hsize (fun p Hp =>
                  match Hp with
                  | or_introl E => ltac:(subst p; discriminate)
                  | or_intror (or_introl E) => ltac:(subst p; discriminate)
                  | or_intror (or_intror (or_introl E)) =>
                      ltac:(subst p; discriminate)
                  | or_intror (or_intror (or_intror F)) => match F with end
                  end)
           (a_photo "large" 800 600 (Some 50000)) 50000).
  - right. left. reflexivity.
  - reflexivity.
Defined.

(** X14 on a document of more than 20 MB. *)
Lemma refused_document_is_reported_witness :
  exists r st',
    MessageHandler.handleDocumentMessage (lab oversized_file) a_client
      (document_message (Some stranger)) idle
    = (r, st')
    /\ effects (ctrace st')
       = [CGetFile "doc-1";
          CSendMessage 999
            (MessageHandler.cross_mark ++ " Failed to download: report.pdf"
               ++ ch nl)%string]
    /\ r = Returns tt.
Proof.
  destruct (refused_document_is_reported (lab oversized_file) a_client
              (document_message (Some stranger)) a_document idle eq_refl)
    as (r & st' & Hrun & Heff & Hret & _).
  - intros _. right. right. exists (20 * 1024 * 1024 + 1). split; [reflexivity |].
    reflexivity.
  - exists r, st'. split; [exact Hrun |]. split; [exact Heff |].
    apply Hret. discriminate.
Defined.

(** X15 on a download that works. *)
Lemma download_writes_only_after_fetch_and_mkdir_witness :
  exists r st',
    TelegramClient.downloadFile (lab max_size_file) a_client "documents/max.pdf"
      "/tmp/max.pdf" idle
    = (r, st')
    /\ writes (ctrace st') = [("/tmp/max.pdf"%string, "content"%string)]
    /\ (forall res, r = Returns res -> saved_path res = "/tmp/max.pdf"%string).
Proof.
  destruct (download_writes_only_after_fetch_and_mkdir (lab max_size_file)
              a_client "documents/max.pdf" "/tmp/max.pdf" idle)
    as (r & st' & Hrun & _ & Hw & Hres & _).
  exists r, st'. split; [exact Hrun |]. split; [exact Hw |].
  intros res Hr. exact (proj1 (Hres res Hr)).
Defined.

(** X16 on [ALLOWED_USER_ID=abc]. *)
Lemma open_gate_echoes_everyone_witness :
  exists this st1 r st',
    MessageHandler.constructor (Some "abc"%string)
      {| CommandHandler.commands := [] |} idle
    = (Returns this, st1)
    /\ MessageHandler.handle (lab max_size_file) a_client this
         (text_message (Some stranger) a_chat "hello") idle
       = (r, st')
    /\ effects (ctrace st') = [CSendMessage 999 "You said: hello"].
Proof.
  destruct (open_gate_echoes_everyone (lab max_size_file) a_client
              (Some "abc"%string) {| CommandHandler.commands := [] |} idle
              (Some stranger) a_chat "h" "ello" idle
              (or_intror (or_introl eq_refl)) eq_refl)
    as (this & st1 & r & st' & Hcons & _ & Hrun & Heff).
  exists this, st1, r, st'. split; [exact Hcons |]. split; [exact Hrun |].
  exact Heff.
Defined.

(** X17 on a document whose text is [/start]. *)
Lemma attachment_is_never_a_command_witness :
  callbacks
    (ctrace (snd (MessageHandler.handle (lab max_size_file) a_client
                    (open_house failing_table) (a_message (Some stranger)) idle)))
  = [].
Proof.
  refine (attachment_is_never_a_command (lab max_size_file) a_client
            (open_house failing_table) (a_message (Some stranger)) idle
            (or_introl _)).
  discriminate.
Defined.

(** X18 on a text from user 999 when only user 42 is let in. *)
Lemma stranger_is_dropped_in_every_slot_witness :
  exists st',
    UpdateHandler.handle (lab max_size_file) a_client (guarded 42)
      (message_update 7 (text_message (Some stranger) a_chat "hi")) idle
    = (Returns tt, st')
    /\ effects (ctrace st') = [] /\ calls st' = O.
Proof.
  refine (stranger_is_dropped_in_every_slot (lab max_size_file) a_client
            (guarded 42)
            (message_update 7 (text_message (Some stranger) a_chat "hi")) idle
            eq_refl _).
  intros m [H|[H|[H|[H|[]]]]]; try discriminate H.
  injection H as <-. reflexivity.
Defined.

(** X19 on the same update, in the polling service. *)
Lemma stranger_update_is_consumed_witness :
  exists s',
    process_update (Bot.onUpdate (lab max_size_file) a_client (guarded 42))
      fair_weather (message_update 7 (text_message (Some stranger) a_chat "hi"))
      (hosting idle)
    = (Returns tt, s')
    /\ cursor s' = Some (num 8)
    /\ effects (ctrace (pstate s')) = [].
Proof.
  refine (stranger_update_is_consumed (lab max_size_file) a_client fair_weather
            (guarded 42) (hosting idle)
            (message_update 7 (text_message (Some stranger) a_chat "hi")) 0
            eq_refl eq_refl _).
  intros m [H|[H|[H|[H|[]]]]]; try discriminate H.
  injection H as <-. reflexivity.
Defined.

(** X20 on a Bot API that refuses [sendMessage]. *)
Lemma failed_reply_keeps_the_update_witness :
  exists s',
    process_update
      (Bot.onUpdate (muted max_size_file) a_client
         (open_house {| CommandHandler.commands := [] |}))
      fair_weather (message_update 7 (text_message (Some stranger) a_chat "hi"))
      (hosting idle)
    = (Returns tt, s')
    /\ effects (ctrace (pstate s')) = [CSendMessage 999 "You said: hi"]
    /\ cursor s' = Some (num 0) /\ file s' = None.
Proof.
  destruct (failed_reply_keeps_the_update (muted max_size_file) a_client
              fair_weather (open_house {| CommandHandler.commands := [] |})
              (hosting idle)
              (message_update 7 (text_message (Some stranger) a_chat "hi"))
              (text_message (Some stranger) a_chat "hi") 0 "h" "i"
              eq_refl eq_refl eq_refl eq_refl eq_refl eq_refl eq_refl)
    as (s' & Hrun & Heff & Hbad & _).
  exists s'. split; [exact Hrun |]. split; [exact Heff |]. exact (Hbad I).
Defined.

(** X21 on [/start] with a callback that raises. *)
Lemma command_update_is_always_consumed_witness :
  exists s',
    process_update
      (Bot.onUpdate (lab max_size_file) a_client (open_house failing_table))
      fair_weather
      (message_update 7 (text_message (Some stranger) a_chat "/start"))
      (hosting idle)
    = (Returns tt, s')
    /\ cursor s' = Some (num 8).
Proof.
  refine (command_update_is_always_consumed (lab max_size_file) a_client
            fair_weather (open_house failing_table) (hosting idle)
            (message_update 7 (text_message (Some stranger) a_chat "/start"))
            (text_message (Some stranger) a_chat "/start") 0 "/start"
            eq_refl eq_refl eq_refl eq_refl eq_refl eq_refl eq_refl _).
  intros st. discriminate.
Defined.

Section HelpListing.

Variable pf : Platform.
Variable client : TelegramClient.t.

(** X22. [/help] lists what is registered when it is called: a command
    registered after the four built-in ones, under a new name, is the
    last line of the help text, after [start], [help], [ping] and [id]. *)
Theorem help_lists_registered_commands (name desc : string)
    (cb : CommandHandler.CommandCallback) (st0 : CState) (message : Message)
    (st : CState) :
  ~ In name ["start"; "help"; "ping"; "id"]%string ->
  text message = Some "/help"%string ->
  exists table st1 table' st2 r st',
    CommandHandler.constructor pf st0 = (Returns table, st1)
    /\ CommandHandler.registerCommand table name desc cb st1 = (Returns table', st2)
    /\ CommandHandler.handle table' message st = (r, st')
    /\ effects (ctrace st')
       = effects (ctrace st)
           ++ [CCallback "help" [];
               CSendMessage (chat_id (chat message))
                 ("Available commands:" ++ ch nl
                    ++ join (ch nl)
                         ["/start - Start the bot";
                          "/help - Show available commands";
                          "/ping - Check if bot is alive";
                          "/id - Get your user ID and chat information";
                          "/" ++ name ++ " - " ++ desc])%string].
Proof.
  intros Hnew Htxt.
  assert (H1 : String.eqb name "start" = false)
    by (apply (proj2 (String.eqb_neq _ _)); intros ->; apply Hnew; cbn; auto).
  assert (H2 : String.eqb name "help" = false)
    by (apply (proj2 (String.eqb_neq _ _)); intros ->; apply Hnew; cbn; auto).
  assert (H3 : String.eqb name "ping" = false)
    by (apply (proj2 (String.eqb_neq _ _)); intros ->; apply Hnew; cbn; auto).
  assert (H4 : String.eqb name "id" = false)
    by (apply (proj2 (String.eqb_neq _ _)); intros ->; apply Hnew; cbn; auto).
  eexists _, _, _, _, _, _.
  split; [reflexivity |]. split; [reflexivity |].
  split; [apply surjective_pairing |].
  rewrite (handle_lookup _ message "/help" "help" [] st Htxt eq_refl eq_refl).
  cbn [CommandHandler.commands CommandHandler.map_set String.eqb Ascii.eqb
         Bool.eqb].
  rewrite H1, H2, H3, H4.
  change (toLowerCase "help") with "help"%string.
  cbn [CommandHandler.map_get String.eqb Ascii.eqb Bool.eqb
         CommandHandler.callback CommandHandler.entries CommandHandler.commands
         CommandHandler.cmd_description map fst snd].
  match goal with
  | |- context [TelegramClient.sendMessage pf ?c ?b ?s1] =>
      destruct (sendMessage_frame pf c b s1) as (r & st' & Hsend & _ & Heff & _);
      rewrite Hsend
  end.
  destruct r as [[]| e |]; cbn [snd ctrace] in *;
    rewrite ?effects_app, Heff, effects_app; cbn [effects filter is_effect];
    rewrite ?app_nil_r, <- ?app_assoc; reflexivity.
Qed.

End HelpListing.

(** X22 on a command [echo] added to the built-in ones. *)
Lemma help_lists_registered_commands_witness :
  exists table st1 table' st2 r st',
    CommandHandler.constructor (lab max_size_file) idle = (Returns table, st1)
    /\ CommandHandler.registerCommand table "echo" "Repeat the words"
         (greeting (lab max_size_file)) st1
       = (Returns table', st2)
    /\ CommandHandler.handle table'
         (text_message (Some stranger) a_chat "/help") idle
       = (r, st')
    /\ effects (ctrace st')
       = [CCallback "help" [];
          CSendMessage 999
            ("Available commands:" ++ ch nl
               ++ "/start - Start the bot" ++ ch nl
               ++ "/help - Show available commands" ++ ch nl
               ++ "/ping - Check if bot is alive" ++ ch nl
               ++ "/id - Get your user ID and chat information" ++ ch nl
               ++ "/echo - Repeat the words")%string].
Proof.
  refine (help_lists_registered_commands (lab max_size_file) "echo"
            "Repeat the words" (greeting (lab max_size_file)) idle
            (text_message (Some stranger) a_chat "/help") idle _ eq_refl).
  intros [H|[H|[H|[H|[]]]]]; discriminate H.
Defined.


(* ================================================================== *)
(** ** Which updates are asked for again                               *)
(* ================================================================== *)

Section Redelivery.

Variable PS : Type.
Variable onUpdate : Update -> PS -> completion unit * PS.
Variable env : Env.

Lemma cursor_after_app (a b : list Update) :
  forall (p : PS) (c : Z),
  cursor_after onUpdate (a ++ b) p c
  = cursor_after onUpdate b (pstate_after onUpdate a p) (cursor_after onUpdate a p c).
Proof.
  induction a as [|u a IH]; intros p c; [reflexivity |].
  cbn [app cursor_after pstate_after].
  destruct (onUpdate u p) as [[[]| e |] p']; cbn [snd]; apply IH.
Qed.

Lemma cursor_after_failures (post : list Update) :
  (forall v p, In v post -> fst (onUpdate v p) <> Returns tt) ->
  forall (p : PS) (c : Z), cursor_after onUpdate post p c = c.
Proof.
  induction post as [|v post IH]; intros Hfail p c; [reflexivity |].
  cbn [cursor_after]. pose proof (Hfail v p (or_introl eq_refl)) as Hv.
  destruct (onUpdate v p) as [[[]| e |] p']; cbn [fst] in Hv; try congruence;
    apply IH; intros w q Hw; apply Hfail; now right.
Qed.

(** X24. After a batch the cursor is one past the last update whose
    processing succeeded, whatever happened to the updates before it:
    updates that failed earlier in the batch lie behind the offset of the
    next request and are not asked for again. *)
Theorem last_success_sets_the_cursor (s : Sys PS) (pre post : list Update)
    (u : Update) (rest : list FetchOutcome) (c : Z) :
  remote s = ok_batch (pre ++ u :: post) :: rest ->
  state s = BotState c -> settles onUpdate ->
  (forall p, fst (onUpdate u p) = Returns tt) ->
  (forall v p, In v post -> fst (onUpdate v p) <> Returns tt) ->
  exists s', poll onUpdate env s = (Returns tt, s')
    /\ processed (trace s') = processed (trace s) ++ pre ++ u :: post
    /\ cursor s' = Some (num (update_id u + 1))
    /\ fetches (trace (snd (iteration onUpdate env s')))
       = fetches (trace s') ++ [Some (num (update_id u + 1))].
Proof.
  intros Hrem Hst Hsettle Hu Hpost.
  destruct (poll_ok_spec PS onUpdate env s _ rest c Hrem eq_refl Hst Hsettle)
    as (s' & Hpoll & _ & _ & _ & _ & Hpr & _ & Hst' & _).
  cbn [batch_of ok_batch ok result_of] in Hpr, Hst'.
  rewrite cursor_after_app in Hst'. cbn [cursor_after] in Hst'.
  pose proof (Hu (pstate_after onUpdate pre (pstate s))) as Hok.
  destruct (onUpdate u (pstate_after onUpdate pre (pstate s))) as [r p'].
  cbn [fst] in Hok. subst r. rewrite (cursor_after_failures post Hpost) in Hst'.
  exists s'. conj_split; auto.
  - now apply cursor_BotState.
  - apply iteration_fetches. rewrite Hst'. reflexivity.
Qed.

(** X25. A batch in which every update fails is asked for again at once:
    the cursor stays where it was, nothing is slept on, and the next turn
    of the loop sends the same offset. *)
Theorem failed_batch_is_requested_again (s : Sys PS) (batch : list Update)
    (rest : list FetchOutcome) (c : Z) :
  remote s = ok_batch batch :: rest ->
  state s = BotState c -> settles onUpdate ->
  (forall v p, In v batch -> fst (onUpdate v p) <> Returns tt) ->
  exists s', iteration onUpdate env s = (Returns tt, s')
    /\ processed (trace s') = processed (trace s) ++ batch
    /\ cursor s' = Some (num c)
    /\ sleeps (trace s') = sleeps (trace s)
    /\ fetches (trace (snd (iteration onUpdate env s')))
       = fetches (trace s) ++ [Some (num c); Some (num c)].
Proof.
  intros Hrem Hst Hsettle Hfail.
  destruct (poll_ok_spec PS onUpdate env s _ rest c Hrem eq_refl Hst Hsettle)
    as (s' & Hpoll & _ & _ & Hfe & Hsl & Hpr & _ & Hst' & _).
  cbn [batch_of ok_batch ok result_of] in Hpr, Hst'.
  rewrite (cursor_after_failures batch Hfail) in Hst'.
  exists s'. conj_split; auto.
  - now apply iteration_ok.
  - now apply cursor_BotState.
  - rewrite (iteration_fetches PS onUpdate env s' (Some (num c))), Hfe,
      <- app_assoc; [reflexivity |].
    rewrite Hst'. reflexivity.
Qed.

End Redelivery.

(** X24 on the batch [1, 2, 3] with a processor that fails on 2. *)
Lemma last_success_sets_the_cursor_witness :
  exists s',
    poll (fails_on 2) fair_weather (loaded [ok_batch [upd 1; upd 2; upd 3]])
    = (Returns tt, s')
    /\ processed (trace s') = [upd 1; upd 2; upd 3]
    /\ cursor s' = Some (num 4).
Proof.
  destruct (last_success_sets_the_cursor unit (fails_on 2) fair_weather
              (loaded [ok_batch [upd 1; upd 2; upd 3]]) [upd 1; upd 2] []
              (upd 3) [] 0 eq_refl eq_refl (fails_on_settles 2)
              (fun _ => eq_refl) (fun v p (F : In v []) => match F with end))
    as (s' & Hpoll & Hpr & Hc & _).
  exists s'. repeat split; assumption.
Defined.

(** X25 on the batch [1] with a processor that fails on 1. *)
Lemma failed_batch_is_requested_again_witness :
  exists s',
    iteration (fails_on 1) fair_weather (running [ok_batch [upd 1]])
    = (Returns tt, s')
    /\ cursor s' = Some (num 0)
    /\ sleeps (trace s') = []
    /\ fetches (trace (snd (iteration (fails_on 1) fair_weather s')))
       = [Some (num 0); Some (num 0)].
Proof.
  destruct (failed_batch_is_requested_again unit (fails_on 1) fair_weather
              (running [ok_batch [upd 1]]) [upd 1] [] 0 eq_refl eq_refl
              (fails_on_settles 1))
    as (s' & Hit & _ & Hc & Hsl & Hfe).
  - intros v p [<-|[]]. discriminate.
  - exists s'. repeat split; assumption.
Defined.

(* ================================================================== *)
(** ** Where a download is saved                                       *)
(* ================================================================== *)

Section PathFacts.

Import Path.

Lemma slashless_app (a b : string) :
  slashless (a ++ b)%string = slashless a && slashless b.
Proof.
  induction a as [|c a IH]; [reflexivity |].
  cbn [append slashless]. rewrite IH. now rewrite andb_assoc.
Qed.

Lemma split_slash_nonempty (s : string) : split_slash s <> [].
Proof.
  induction s as [|c r IH]; cbn [split_slash]; [discriminate |].
  destruct (is_slash c); [discriminate |].
  destruct (split_slash r); discriminate.
Qed.

Lemma split_slash_slashless (s : string) :
  slashless s = true -> split_slash s = [s].
Proof.
  induction s as [|c r IH]; [reflexivity |]. cbn [slashless split_slash].
  intros H. apply andb_true_iff in H as [Hc Hr].
  apply negb_true_iff in Hc. rewrite Hc, (IH Hr). reflexivity.
Qed.

Lemma split_slash_app (a b : string) :
  split_slash (a ++ String "/" b)%string = split_slash a ++ split_slash b.
Proof.
  induction a as [|c a IH]; [reflexivity |].
  cbn [append split_slash]. rewrite IH.
  destruct (is_slash c); [reflexivity |].
  pose proof (split_slash_nonempty a) as Ha.
  destruct (split_slash a) as [|w ws]; [congruence | reflexivity].
Qed.

Lemma split_slash_parts (s : string) :
  forall seg, In seg (split_slash s) -> slashless seg = true.
Proof.
  induction s as [|c r IH]; intros seg; cbn [split_slash].
  - intros [<-|[]]. reflexivity.
  - destruct (is_slash c) eqn:Hc.
    + intros [<-|H]; [reflexivity | now apply IH].
    + pose proof (split_slash_nonempty r) as Hr.
      destruct (split_slash r) as [|w ws]; [congruence |].
      intros [<-|H].
      * cbn [slashless]. rewrite Hc. apply IH. now left.
      * apply IH. now right.
Qed.

Lemma join_split_slash (s : string) : JS.join "/" (split_slash s) = s.
Proof.
  induction s as [|c r IH]; [reflexivity |]. cbn [split_slash].
  pose proof (split_slash_nonempty r) as Hr.
  destruct (is_slash c) eqn:Hc.
  - destruct (split_slash r) as [|w ws]; [congruence |].
    cbn [JS.join append] in *. rewrite IH.
    unfold is_slash in Hc. apply Ascii.eqb_eq in Hc. now subst c.
  - destruct (split_slash r) as [|w ws]; [congruence |].
    destruct ws as [|w' ws]; cbn [JS.join append] in *; now rewrite IH.
Qed.

Lemma join_snoc (segs : list string) (x : string) :
  segs <> [] ->
  JS.join "/" (segs ++ [x]) = (JS.join "/" segs ++ "/" ++ x)%string.
Proof.
  induction segs as [|a segs IH]; [congruence |]. intros _.
  destruct segs as [|b segs]; [reflexivity |].
  change (JS.join "/" ((a :: b :: segs) ++ [x]))
    with (a ++ "/" ++ JS.join "/" ((b :: segs) ++ [x]))%string.
  rewrite IH by discriminate.
  change (JS.join "/" (a :: b :: segs))
    with (a ++ "/" ++ JS.join "/" (b :: segs))%string.
  now rewrite !append_assoc.
Qed.

Lemma step_proper (allow : bool) (kept : list string) (seg : string) :
  proper seg = true -> step allow kept seg = seg :: kept.
Proof.
  unfold proper, step. intros H. apply andb_true_iff in H as [H _].
  apply negb_true_iff in H. apply orb_false_iff in H as [H H2].
  now rewrite H, H2.
Qed.

Lemma fold_step_proper (allow : bool) (segs : list string) :
  forallb proper segs = true ->
  forall kept, fold_left (step allow) segs kept = rev segs ++ kept.
Proof.
  induction segs as [|x segs IH]; intros H kept; [reflexivity |].
  cbn [forallb] in H. apply andb_true_iff in H as [Hx Hs].
  cbn [fold_left rev]. rewrite (step_proper _ _ _ Hx), (IH Hs).
  now rewrite <- app_assoc.
Qed.

Lemma ends_with_slash_name (name : string) :
  name <> EmptyString -> slashless name = true -> ends_with_slash name = false.
Proof.
  induction name as [|c r IH]; [congruence |]. intros _ H.
  cbn [slashless] in H. apply andb_true_iff in H as [Hc Hr].
  apply negb_true_iff in Hc. destruct r as [|c' r']; [exact Hc |].
  change (ends_with_slash (String c (String c' r')))
    with (ends_with_slash (String c' r')).
  apply IH; [discriminate | exact Hr].
Qed.

Lemma ends_with_slash_app (a name : string) :
  name <> EmptyString ->
  ends_with_slash (a ++ name)%string = ends_with_slash name.
Proof.
  intros Hn. induction a as [|c a IH]; [reflexivity |].
  cbn [append]. destruct (a ++ name)%string as [|c' r'] eqn:E.
  - destruct a; [cbn in E; congruence | discriminate].
  - exact IH.
Qed.

(** [path.join] of a clean directory and a name. *)
Lemma join_clean (d name : string) (x : ascii) (rest : string) :
  clean_dir d = true -> name = String x rest ->
  proper name = true ->
  join d name = (d ++ "/" ++ name)%string.
Proof.
  intros Hd Hname Hp. destruct d as [|c r]; [discriminate |].
  cbn [clean_dir] in Hd. apply andb_true_iff in Hd as [Hc Hsegs].
  assert (Hslashless : slashless name = true)
    by (unfold proper in Hp; now apply andb_true_iff in Hp as [_ Hp]).
  assert (Hne : name <> EmptyString) by (rewrite Hname; discriminate).
  assert (Hjoin : join (String c r) name
                  = normalize (String c r ++ "/" ++ name)%string)
    by (rewrite Hname; reflexivity).
  rewrite Hjoin. clear Hjoin Hname.
  unfold normalize. cbn [append]. rewrite Hc. cbn [negb].
  assert (Hend : ends_with_slash (String c (r ++ "/" ++ name)) = false).
  { replace (String c (r ++ "/" ++ name))
      with ((String c (r ++ "/")) ++ name)%string
      by (cbn [append]; now rewrite append_assoc).
    rewrite ends_with_slash_app by assumption.
    now apply ends_with_slash_name. }
  assert (Hcore : normalizeString (String c (r ++ "/" ++ name)) false
                  = (r ++ "/" ++ name)%string).
  { unfold normalizeString. cbn [split_slash]. rewrite Hc.
    change (r ++ "/" ++ name)%string with (r ++ String "/" name)%string.
    rewrite split_slash_app, (split_slash_slashless name Hslashless).
    cbn [fold_left]. unfold step at 2. cbn [String.eqb orb].
    rewrite fold_step_proper.
    - rewrite app_nil_r, rev_involutive.
      rewrite join_snoc by apply split_slash_nonempty.
      now rewrite join_split_slash.
    - rewrite forallb_app, Hsegs. cbn [forallb]. now rewrite Hp. }
  cbn [append] in Hcore, Hend. rewrite Hcore, Hend.
  assert (Hr : exists y r', r = String y r').
  { destruct r as [|y r']; [discriminate Hsegs | eauto]. }
  destruct Hr as (y & r' & ->). cbn [append].
  unfold is_slash in Hc. apply Ascii.eqb_eq in Hc. now subst c.
Qed.

Lemma list_ascii_app (a b : string) :
  list_ascii_of_string (a ++ b)%string
  = list_ascii_of_string a ++ list_ascii_of_string b.
Proof. induction a as [|c a IH]; cbn; [reflexivity | now rewrite IH]. Qed.

Lemma drop_while_all (f : ascii -> bool) (a b : list ascii) :
  forallb f a = true -> drop_while f (a ++ b) = drop_while f b.
Proof.
  induction a as [|c a IH]; [reflexivity |]. cbn [forallb app drop_while].
  intros H. apply andb_true_iff in H as [-> Ha]. now apply IH.
Qed.

Lemma drop_while_head (f : ascii -> bool) (c : ascii) (l : list ascii) :
  f c = false -> drop_while f (c :: l) = c :: l.
Proof. intros H. cbn. now rewrite H. Qed.

Lemma slashless_chars (s : string) :
  slashless s = true ->
  forallb (fun c => negb (is_slash c)) (list_ascii_of_string s) = true.
Proof.
  induction s as [|c r IH]; [reflexivity |]. cbn [slashless].
  intros H. apply andb_true_iff in H as [Hc Hr]. cbn. now rewrite Hc, IH.
Qed.

Lemma forallb_rev {A} (f : A -> bool) (l : list A) :
  forallb f (rev l) = forallb f l.
Proof.
  induction l as [|x l IH]; [reflexivity |]. cbn [rev forallb].
  rewrite forallb_app, IH. cbn. now rewrite andb_true_r, andb_comm.
Qed.

(** [path.dirname] of a file directly in a clean directory. *)
Lemma dirname_clean (d name : string) :
  clean_dir d = true -> name <> EmptyString -> slashless name = true ->
  dirname (d ++ "/" ++ name)%string = d.
Proof.
  intros Hd Hne Hs. destruct d as [|c r]; [discriminate |].
  cbn [clean_dir] in Hd. apply andb_true_iff in Hd as [Hc Hsegs].
  assert (Hr : exists y r', r = String y r').
  { destruct r as [|y r']; [discriminate Hsegs | eauto]. }
  unfold dirname. cbn [append]. rewrite Hc.
  rewrite list_ascii_app. cbn [append list_ascii_of_string].
  rewrite rev_app_distr. cbn [rev]. rewrite <- app_assoc. cbn [app].
  pose proof (slashless_chars name Hs) as Hall.
  rewrite <- forallb_rev in Hall.
  assert (Hrev : exists z l, rev (list_ascii_of_string name) = z :: l).
  { destruct name as [|z n]; [congruence |]. cbn [list_ascii_of_string rev].
    destruct (rev (list_ascii_of_string n)); cbn; eauto. }
  destruct Hrev as (z & l & Hrev). rewrite Hrev in *.
  cbn [forallb] in Hall. apply andb_true_iff in Hall as [Hz Hl].
  apply negb_true_iff in Hz.
  cbn [app]. rewrite (drop_while_head is_slash z _ Hz).
  change (z :: l ++ "/"%char :: rev (list_ascii_of_string r))
    with ((z :: l) ++ "/"%char :: rev (list_ascii_of_string r)).
  rewrite drop_while_all by (cbn [forallb]; now rewrite Hz, Hl).
  rewrite drop_while_head by reflexivity.
  destruct Hr as (y & r' & ->).
  destruct (rev (list_ascii_of_string (String y r'))) as [|b before] eqn:E.
  - apply (f_equal (@List.length ascii)) in E. rewrite length_rev in E.
    discriminate E.
  - rewrite <- E, rev_involutive, string_of_list_ascii_of_string. reflexivity.
Qed.

Lemma last_nonempty_in (segs : list string) :
  last_nonempty segs = EmptyString \/ In (last_nonempty segs) segs.
Proof.
  induction segs as [|x segs IH]; [now left |]. cbn [last_nonempty].
  destruct IH as [E|Hin].
  - rewrite E. right. now left.
  - destruct (last_nonempty segs) as [|c y]; right; [now left | now right].
Qed.

(** [path.basename] never gives a slash. *)
Lemma basename_slashless (p : string) : slashless (basename p) = true.
Proof.
  unfold basename. destruct (last_nonempty_in (split_slash p)) as [-> | Hin];
    [reflexivity |]. now apply (split_slash_parts p).
Qed.

Lemma all_digits_slashless (s : string) :
  all_digits s = true -> slashless s = true.
Proof.
  induction s as [|c r IH]; [reflexivity |]. cbn [all_digits slashless].
  intros H. apply andb_true_iff in H as [Hc Hr]. rewrite (IH Hr), andb_true_r.
  destruct c as [[] [] [] [] [] [] [] []]; try discriminate Hc; reflexivity.
Qed.

Lemma int_string_slashless (z : Z) : slashless (int_string z) = true.
Proof.
  unfold int_string. destruct (Z.ltb_spec z 0) as [Hneg|Hpos].
  - cbn [slashless]. apply all_digits_slashless.
    now destruct (nat_string_spec (- z)) as [H _]; [lia |].
  - apply all_digits_slashless.
    now destruct (nat_string_spec z Hpos) as [H _].
Qed.

End PathFacts.

Section SavePath.

Variable pf : Platform.
Variable client : TelegramClient.t.

(** The name [downloadFileById] makes up is the name of a file. *)
Lemma generated_name_proper (fileId : string) (now : Z) (base : string) :
  slashless fileId = true -> slashless base = true ->
  proper ("telegram_" ++ fileId ++ "_" ++ int_string now ++ "_" ++ base)%string
  = true.
Proof.
  intros Hid Hbase. unfold proper. apply andb_true_iff. split; [reflexivity |].
  rewrite !slashless_app, Hid, Hbase, int_string_slashless. reflexivity.
Qed.

(** X23. A download goes where it was asked to go.  On POSIX, when
    [getFile], the guards, the fetch, [mkdir] and the write all pass,
    [downloadFileById] writes the fetched body at [savePath] when one is
    given and not empty, after making the directory [savePath] lies in.
    Without one, for a file id without a slash and a clean temporary
    directory, it writes directly in the temporary directory, which is
    the directory it makes, under
    [telegram_<fileId>_<now>_<last segment of the remote path>]: that
    segment has no slash, so the directories of the remote path are not
    followed.  It returns the path written and the length of the body. *)
Theorem download_goes_where_asked (fileId : string) (savePath : option string)
    (st : CState) (f : File) (d : option string) (c : ascii)
    (r status body : string) :
  posix pf -> clean_dir (tmpdir pf) = true -> slashless fileId = true ->
  getFile_answer pf (calls st)
  = Responds {| ok := true; result_of := f; description := d |} ->
  file_path f = Some (String c r) -> TelegramClient.too_large f = false ->
  file_answer pf (S (calls st)) = FileResponse true status body ->
  mkdir_fault pf (S (S (calls st))) = None ->
  writeFile_fault pf (S (S (S (calls st)))) = None ->
  let base := Path.basename (String c r) in
  let directory :=
    match savePath with
    | Some (String c' r') => Path.dirname (String c' r')
    | Some EmptyString | None => tmpdir pf
    end in
  let target :=
    match savePath with
    | Some (String c' r') => String c' r'
    | Some EmptyString | None =>
        (tmpdir pf ++ "/" ++ "telegram_" ++ fileId ++ "_"
           ++ int_string (Date_now pf (S (calls st))) ++ "_" ++ base)%string
    end in
  slashless base = true
  /\ exists st',
       TelegramClient.downloadFileById pf client fileId savePath st
       = (Returns {| saved_path := target;
                     saved_size := Z.of_nat (String.length body) |}, st')
       /\ effects (ctrace st')
          = effects (ctrace st)
              ++ [CGetFile fileId;
                  CFetchFile ("https://api.telegram.org/file/bot"
                                ++ TelegramClient.token client ++ "/"
                                ++ String c r)%string;
                  CMkdir directory;
                  CWriteFile target body].
Proof.
  intros (Hjoin & Hdir & Hbase) Hclean Hid Hget Hpath Hsmall Hfile Hmk Hwr
    base directory target.
  assert (Hb : slashless base = true) by apply basename_slashless.
  split; [exact Hb |].
  pose proof (generated_name_proper fileId (Date_now pf (S (calls st))) base
                Hid Hb) as Hproper.
  assert (Hgen : Path.join (tmpdir pf)
                   ("telegram_" ++ fileId ++ "_"
                      ++ int_string (Date_now pf (S (calls st))) ++ "_" ++ base)
                 = (tmpdir pf ++ "/" ++ "telegram_" ++ fileId ++ "_"
                      ++ int_string (Date_now pf (S (calls st))) ++ "_" ++ base)%string).
  { eapply join_clean; [exact Hclean | reflexivity | exact Hproper]. }
  assert (Hin : Path.dirname
                  (tmpdir pf ++ "/" ++ "telegram_" ++ fileId ++ "_"
                     ++ int_string (Date_now pf (S (calls st))) ++ "_" ++ base)
                = tmpdir pf).
  { apply dirname_clean; [exact Hclean | discriminate |].
    unfold proper in Hproper. now apply andb_true_iff in Hproper as [_ H]. }
  subst directory target. unfold_client.
  cbn [calls ctrace]. rewrite Hget. cbn [ok result_of negb calls ctrace].
  rewrite Hpath, Hsmall.
  destruct savePath as [[|c' r']|]; cbn [calls ctrace]; rewrite Hfile;
    cbn [negb calls ctrace]; rewrite Hmk; cbn [calls ctrace]; rewrite Hwr;
    rewrite ?Hjoin, ?Hdir, ?Hbase; fold base; rewrite ?Hgen, ?Hin;
    eexists; (split; [reflexivity |]); observe; reflexivity.
Qed.

End SavePath.

(** X23 on a remote path in directories, without a save path: the file
    is written in [/tmp] under the last segment of the remote path. *)
Lemma download_goes_where_asked_witness :
  exists st',
    TelegramClient.downloadFileById (lab nested_path_file) a_client "file-456"
      None idle
    = (Returns {| saved_path :=
                    "/tmp/telegram_file-456_1700000000000_report.pdf";
                  saved_size := 7 |}, st')
    /\ effects (ctrace st')
       = [CGetFile "file-456";
          CFetchFile
            "https://api.telegram.org/file/botTOKEN/documents/2024/report.pdf";
          CMkdir "/tmp";
          CWriteFile "/tmp/telegram_file-456_1700000000000_report.pdf"
            "content"].
Proof.
  exact (proj2
           (download_goes_where_asked (lab nested_path_file) a_client "file-456"
              None idle nested_path_file None "d" "ocuments/2024/report.pdf"
              "OK" "content"
              (conj (fun _ _ => eq_refl)
                 (conj (fun _ => eq_refl) (fun _ => eq_refl)))
              eq_refl eq_refl eq_refl eq_refl eq_refl eq_refl eq_refl eq_refl)).
Defined.
